(** * Checker_KworKI: the mail watcher and the listing parser of [main.py]

    A shallow embedding of the parts of [main.py] that decide the
    specification's properties: the text parser ([parse_from_text],
    [extract_project_links_ordered], [parse_kwork_email]), the persisted
    cursor ([_state_get_last_seen], [_state_set_last_seen]) and the cursor
    logic of the watcher and of the commands ([_is_fresh],
    [imap_idle_worker], [now], [now_force], [reset_state]). Further parts
    of [main.py] follow them: the chat ids ([_parse_chat_id]), the sending
    ([send_to_targets]), the folder ([_select_folder_smart]), the pauses of
    the watcher, the parts of a mail ([extract_parts]), the candidates
    ([_fetch_candidates]) and the text of the message ([compose_message]).

    Python values are modelled as follows.
    - [str] is a sequence of Unicode code points: [list Z].
    - An exception is a value of [exn]; a call that may raise returns
      [result A].
    - [datetime] is a wall-clock reading in microseconds since
      0001-01-01T00:00:00 together with an optional fixed utcoffset.
    - The character tables of Unicode (decimal digits, letters, case) are a
      parameter, the class [UnicodeData]; white space and line boundaries,
      which are short lists, are written out.
    - The file system under the state file is a parameter, [disk], which
      answers every write of the state file; so is what the other thread
      and the other coroutines do to the cursor between a read and a write
      of it, [others]. *)

From Stdlib Require Import ZArith List Bool Lia Ascii String Sorted.
Import ListNotations.

Local Open Scope Z_scope.

(** ** Exceptions *)

Inductive exn : Type :=
| ValueError
| TypeError
| OverflowError
| AttributeError
| LookupError
| OSError.

Inductive result (A : Type) : Type :=
| Ok (a : A)
| Raise (e : exn).

Arguments Ok {A} a.
Arguments Raise {A} e.

Definition bind {A B : Type} (r : result A) (f : A -> result B) : result B :=
  match r with
  | Ok a => f a
  | Raise e => Raise e
  end.

Notation "x <- r ;; k" := (bind r (fun x => k))
  (at level 61, r at next level, right associativity).

(** [try: ... except Exception: return d]. *)
Definition except_all {A : Type} (r : result A) (d : A) : A :=
  match r with
  | Ok a => a
  | Raise _ => d
  end.

(** ** Python strings *)

Module PyStr.

Definition str : Type := list Z.

(** Decoding of the UTF-8 bytes of a literal of this file into code
    points, so that the constants of [main.py] can be written as they are
    there. *)
Fixpoint bytes_of (s : string) : list Z :=
  match s with
  | EmptyString => []
  | String a s' => Z.of_nat (nat_of_ascii a) :: bytes_of s'
  end.

Definition cont (b : Z) : Z := Z.land b 63.

Fixpoint utf8_decode (fuel : nat) (bs : list Z) : str :=
  match fuel with
  | O => []
  | S fuel' =>
      match bs with
      | [] => []
      | b0 :: r0 =>
          if b0 <? 128 then b0 :: utf8_decode fuel' r0
          else if b0 <? 224 then
            match r0 with
            | b1 :: r1 =>
                (Z.land b0 31 * 64 + cont b1) :: utf8_decode fuel' r1
            | _ => []
            end
          else if b0 <? 240 then
            match r0 with
            | b1 :: b2 :: r2 =>
                (Z.land b0 15 * 4096 + cont b1 * 64 + cont b2)
                  :: utf8_decode fuel' r2
            | _ => []
            end
          else
            match r0 with
            | b1 :: b2 :: b3 :: r3 =>
                (Z.land b0 7 * 262144 + cont b1 * 4096 + cont b2 * 64 + cont b3)
                  :: utf8_decode fuel' r3
            | _ => []
            end
      end
  end.

Definition u (s : string) : str :=
  let bs := bytes_of s in utf8_decode (List.length bs) bs.

(** [a == b] *)
Fixpoint eqb (a b : str) : bool :=
  match a, b with
  | [], [] => true
  | x :: a', y :: b' => (x =? y) && eqb a' b'
  | _, _ => false
  end.

(** [str.isspace] for one character, which is also the class [\s] of [re]
    on [str] patterns. *)
Definition isspace (c : Z) : bool :=
  ((9 <=? c) && (c <=? 13)) || ((28 <=? c) && (c <=? 32))
  || (c =? 133) || (c =? 160) || (c =? 5760)
  || ((8192 <=? c) && (c <=? 8202))
  || (c =? 8232) || (c =? 8233) || (c =? 8239) || (c =? 8287)
  || (c =? 12288).

(** The line boundaries of [str.splitlines]. *)
Definition islinebreak (c : Z) : bool :=
  ((10 <=? c) && (c <=? 13)) || ((28 <=? c) && (c <=? 30))
  || (c =? 133) || (c =? 8232) || (c =? 8233).

Fixpoint lstrip (s : str) : str :=
  match s with
  | c :: s' => if isspace c then lstrip s' else s
  | [] => []
  end.

Definition rstrip (s : str) : str := rev (lstrip (rev s)).

(** [s.strip()] *)
Definition strip (s : str) : str := rstrip (lstrip s).

(** [s.split()]: the maximal runs of characters that are not white
    space. [cur] is the run being read, reversed. *)
Fixpoint split_aux (s : str) (cur : str) : list str :=
  match s with
  | [] => match cur with [] => [] | _ => [rev cur] end
  | c :: s' =>
      if isspace c
      then match cur with
           | [] => split_aux s' []
           | _ => rev cur :: split_aux s' []
           end
      else split_aux s' (c :: cur)
  end.

Definition split (s : str) : list str := split_aux s [].

(** [s.splitlines()]: a carriage return followed by a line feed is one
    boundary; no empty last line is produced after a final boundary. *)
Fixpoint splitlines_aux (s : str) (cur : str) : list str :=
  match s with
  | [] => match cur with [] => [] | _ => [rev cur] end
  | c :: s' =>
      if islinebreak c
      then rev cur ::
           match s' with
           | c' :: s'' =>
               if (c =? 13) && (c' =? 10)
               then splitlines_aux s'' []
               else splitlines_aux s' []
           | [] => []
           end
      else splitlines_aux s' (c :: cur)
  end.

Definition splitlines (s : str) : list str := splitlines_aux s [].

Fixpoint startswith (p s : str) : bool :=
  match p, s with
  | [], _ => true
  | a :: p', b :: s' => (a =? b) && startswith p' s'
  | _ :: _, [] => false
  end.

(** [p in s] *)
Fixpoint contains (p s : str) : bool :=
  startswith p s ||
  match s with
  | [] => false
  | _ :: s' => contains p s'
  end.

(** [s.replace(old, new)] for a one-character [old]. *)
Definition replace_char (old : Z) (new : str) (s : str) : str :=
  flat_map (fun c => if c =? old then new else [c]) s.

(** Truth value of a string: [if s]. *)
Definition truthy (s : str) : bool :=
  match s with [] => false | _ => true end.

End PyStr.

Import PyStr.

(** Truth value of an optional string: [None] and [""] are false. *)
Definition truthy_opt (o : option str) : bool :=
  match o with
  | Some s => truthy s
  | None => false
  end.

(** ** The character tables of Unicode

    [main.py] relies on the tables of the Unicode character database
    through [str.lower], [str.isalpha], [str.isdigit], [int] and the classes
    [\d], [\b] and the flag [IGNORECASE] of [re]. They are a parameter of
    the embedding. *)

Class UnicodeData : Type := {
  (** value of a decimal digit (category Nd): the class [\d], and [int] *)
  decimal_value : Z -> option Z;
  (** [str.isdigit] for one character *)
  isdigit_cp : Z -> bool;
  (** [str.isalpha] for one character *)
  isalpha_cp : Z -> bool;
  (** [str.isalnum] for one character; with the underscore, the class [\w] *)
  isalnum_cp : Z -> bool;
  (** [str.lower] *)
  lower : str -> str;
  (** [ignorecase_eq p c]: under [re.IGNORECASE] the literal [p] of a
      pattern matches the character [c] *)
  ignorecase_eq : Z -> Z -> bool
}.

(** ** Regular expressions: the fragment of [re] that [main.py] uses *)

Module Re.

(** Character sets. *)
Inductive cset : Type :=
| CDigit                          (* \d *)
| CSpace                          (* \s *)
| CNotSpace                       (* \S *)
| CAny                            (* . *)
| CChar (c : Z)
| CRange (lo hi : Z)              (* lo-hi inside brackets *)
| CUnion (a b : cset).

(** Patterns. Every repetition of [main.py] is over one character set:
    [Rep c n true] is [c{n,}], [Rep c n false] is [c{n,}?]. *)
Inductive regex : Type :=
| Lit (s : str)
| Cls (c : cset)
| Rep (c : cset) (min : nat) (greedy : bool)
| Bol                             (* ^ *)
| Eol                             (* $ *)
| WordB                           (* \b *)
| Group (r : regex)               (* ( ... ) *)
| Seq (r1 r2 : regex)
| Alt (r1 r2 : regex).

Record flags : Type := { IGNORECASE : bool; DOTALL : bool }.

Definition no_flags : flags := {| IGNORECASE := false; DOTALL := false |}.

(** The matcher's position: the character before it ([None] at the start
    of the text), the text that remains and the groups closed so far. *)
Record mstate : Type := {
  prev : option Z;
  rest : str;
  caps : list str
}.

Section Matcher.

Context {U : UnicodeData}.

Variable fl : flags.

Fixpoint cset_mem (cs : cset) (c : Z) : bool :=
  match cs with
  | CDigit => match decimal_value c with Some _ => true | None => false end
  | CSpace => isspace c
  | CNotSpace => negb (isspace c)
  | CAny => DOTALL fl || negb (c =? 10)
  | CChar x => c =? x
  | CRange lo hi => (lo <=? c) && (c <=? hi)
  | CUnion a b => cset_mem a c || cset_mem b c
  end.

Definition lit_eq (p c : Z) : bool :=
  if IGNORECASE fl then ignorecase_eq p c else p =? c.

(** Reads the literal [p] at the front of [s]: the last character read
    and the rest. *)
Fixpoint lit_match (p : str) (pv : option Z) (s : str) : option (option Z * str) :=
  match p with
  | [] => Some (pv, s)
  | a :: p' =>
      match s with
      | c :: s' => if lit_eq a c then lit_match p' (Some c) s' else None
      | [] => None
      end
  end.

Definition isword (c : Z) : bool := isalnum_cp c || (c =? 95).

Definition isword_opt (o : option Z) : bool :=
  match o with Some c => isword c | None => false end.

(** [c{min,}] with backtracking: the greedy form tries one more
    character before it tries to go on, the lazy form the reverse. *)
Fixpoint rep_match (cs : cset) (min : nat) (greedy : bool) (cp : list str)
         (k : mstate -> option (list str))
         (count : nat) (pv : option Z) (s : str) : option (list str) :=
  let stop (_ : unit) :=
    if (min <=? count)%nat
    then k {| prev := pv; rest := s; caps := cp |}
    else None in
  let more (_ : unit) :=
    match s with
    | c :: s' =>
        if cset_mem cs c
        then rep_match cs min greedy cp k (S count) (Some c) s'
        else None
    | [] => None
    end in
  if greedy
  then match more tt with Some g => Some g | None => stop tt end
  else match stop tt with Some g => Some g | None => more tt end.

(** Backtracking matcher in continuation-passing style: [k] is what
    remains to be matched after [r]. *)
Fixpoint rmatch (r : regex) (st : mstate)
         (k : mstate -> option (list str)) : option (list str) :=
  match r with
  | Lit p =>
      match lit_match p (prev st) (rest st) with
      | Some (pv, s) => k {| prev := pv; rest := s; caps := caps st |}
      | None => None
      end
  | Cls cs =>
      match rest st with
      | c :: s =>
          if cset_mem cs c
          then k {| prev := Some c; rest := s; caps := caps st |}
          else None
      | [] => None
      end
  | Rep cs min greedy =>
      rep_match cs min greedy (caps st) k 0%nat (prev st) (rest st)
  | Bol =>
      match prev st with None => k st | Some _ => None end
  | Eol =>
      match rest st with
      | [] => k st
      | [c] => if c =? 10 then k st else None
      | _ => None
      end
  | WordB =>
      if xorb (isword_opt (prev st)) (isword_opt (hd_error (rest st)))
      then k st else None
  | Group r1 =>
      rmatch r1 st (fun st' =>
        let n := (List.length (rest st) - List.length (rest st'))%nat in
        k {| prev := prev st'; rest := rest st';
             caps := caps st' ++ [firstn n (rest st)] |})
  | Seq r1 r2 => rmatch r1 st (fun st' => rmatch r2 st' k)
  | Alt r1 r2 =>
      match rmatch r1 st k with
      | Some g => Some g
      | None => rmatch r2 st k
      end
  end.

(** [re.match(r, s)]: the groups of the match at the start of [s]. *)
Definition re_match (r : regex) (s : str) : option (list str) :=
  rmatch r {| prev := None; rest := s; caps := [] |} (fun st => Some (caps st)).

Fixpoint search_from (r : regex) (pv : option Z) (s : str) : option (list str) :=
  match rmatch r {| prev := pv; rest := s; caps := [] |}
               (fun st => Some (caps st)) with
  | Some g => Some g
  | None =>
      match s with
      | c :: s' => search_from r (Some c) s'
      | [] => None
      end
  end.

(** [re.search(r, s)]: the groups of the leftmost match. *)
Definition re_search (r : regex) (s : str) : option (list str) :=
  search_from r None s.

End Matcher.

(** [m.group(n)] for [n >= 1]. *)
Definition group (g : list str) (n : nat) : str := nth (n - 1) g [].

Definition is_match (o : option (list str)) : bool :=
  match o with Some _ => true | None => false end.

End Re.

Import Re.

(** ** [int(s)] for a string *)

Section PyInt.

Context {U : UnicodeData}.

(** Decimal digits, with single underscores allowed between digits. *)
Fixpoint int_digits (s : str) (acc : Z) (after_digit : bool) : option Z :=
  match s with
  | [] => if after_digit then Some acc else None
  | c :: s' =>
      match decimal_value c with
      | Some d => int_digits s' (acc * 10 + d) true
      | None =>
          if (c =? 95) && after_digit then int_digits s' acc false else None
      end
  end.

(** The white space that [int] drops around a number: that of
    [str.isspace] without the separators U+001C to U+001F. *)
Definition int_space (c : Z) : bool :=
  isspace c && negb ((28 <=? c) && (c <=? 31)).

Fixpoint int_lstrip (s : str) : str :=
  match s with
  | c :: s' => if int_space c then int_lstrip s' else s
  | [] => []
  end.

Definition int_strip (s : str) : str := rev (int_lstrip (rev (int_lstrip s))).

(** The character is a decimal digit: the class [\d]. *)
Definition is_digit (c : Z) : bool :=
  match decimal_value c with Some _ => true | None => false end.

(** [sys.int_info.default_max_str_digits]: [int] refuses a text with more
    digits, and [str] a number with more. *)
Definition MAX_STR_DIGITS : Z := 4300.

(** [int(s)]: white space around the number is dropped, a sign may come
    first; anything else raises [ValueError], and so does a number of more
    than [MAX_STR_DIGITS] digits. *)
Definition py_int (s : str) : result Z :=
  let body := int_strip s in
  let signed :=
    match body with
    | c :: s' =>
        if c =? 45 then (-1, s')
        else if c =? 43 then (1, s')
        else (1, body)
    | [] => (1, [])
    end in
  match int_digits (snd signed) 0 false with
  | Some n =>
      if MAX_STR_DIGITS <? Z.of_nat (List.length (filter is_digit (snd signed)))
      then Raise ValueError
      else Ok (fst signed * n)
  | None => Raise ValueError
  end.

(** [s.isalpha()] and [s.isdigit()]: false on the empty string. *)
Definition isalpha (s : str) : bool := truthy s && forallb isalpha_cp s.
Definition isdigit (s : str) : bool := truthy s && forallb isdigit_cp s.

End PyInt.

(** ** The listing parser: [parse_from_text] *)

Fixpoint cat (l : list regex) : regex :=
  match l with
  | [] => Lit []
  | [r] => r
  | r :: l' => Seq r (cat l')
  end.

Definition plus (c : cset) : regex := Rep c 1 true.
Definition star (c : cset) : regex := Rep c 0 true.

(** [r"\+(\d+)\s+новых\s+подходящих\s+проект"] *)
Definition available_re : regex :=
  cat [Lit (u "+"); Group (plus CDigit); plus CSpace; Lit (u "новых");
       plus CSpace; Lit (u "подходящих"); plus CSpace; Lit (u "проект")].

(** [r"За последние\s+([0-9]+\s+\S+)\s+на бирже.*?размещено\s+([\d\s]+)\s+новых\s+проект"] *)
Definition total_re : regex :=
  cat [Lit (u "За последние"); plus CSpace;
       Group (cat [plus (CRange 48 57); plus CSpace; plus CNotSpace]);
       plus CSpace; Lit (u "на бирже"); Rep CAny 0 false;
       Lit (u "размещено"); plus CSpace;
       Group (plus (CUnion CDigit CSpace)); plus CSpace;
       Lit (u "новых"); plus CSpace; Lit (u "проект")].

(** [r"^\d[\d\s]*\s*(Р|₽)$"] *)
Definition price_re : regex :=
  cat [Bol; Cls CDigit; star (CUnion CDigit CSpace); star CSpace;
       Group (Alt (Lit (u "Р")) (Lit (u "₽"))); Eol].

(** [r">"] *)
Definition cat_re : regex := Lit (u ">").

(** [r"\bпроект"] *)
Definition proekt_re : regex := cat [WordB; Lit (u "проект")].

(** [[A-Za-z]] and [[A-Za-z0-9_.-]] *)
Definition letter_set : cset := CUnion (CRange 65 90) (CRange 97 122).
Definition handle_set : cset :=
  CUnion letter_set
         (CUnion (CRange 48 57) (CUnion (CChar 95) (CUnion (CChar 46) (CChar 45)))).

(** [r"^[A-Za-z0-9_.-]{3,}$"] *)
Definition prefixed_buyer_re : regex := cat [Bol; Rep handle_set 3 true; Eol].

(** [r"^[A-Za-z][A-Za-z0-9_.-]{2,}$"] *)
Definition bare_buyer_re : regex :=
  cat [Bol; Cls letter_set; Rep handle_set 2 true; Eol].

Definition ignorecase : flags := {| IGNORECASE := true; DOTALL := false |}.
Definition ignorecase_dotall : flags := {| IGNORECASE := true; DOTALL := true |}.

(** The Cyrillic capital letter and the rouble sign of the price lines. *)
Definition ER : Z := 1056.
Definition ROUBLE : Z := 8381.

(** One entry of ["projects"]. A key that holds a variable of the scan
    holds what the variable held; ["url"] is present only once
    [parse_kwork_email] has set it. *)
Record project : Type := {
  title : str;
  category : option str;
  buyer : option str;
  hired : option str;
  price : option str;
  url : option str
}.

Record parse_result : Type := {
  available : option Z;
  total : option Z;
  timeframe : option str;
  projects : list project
}.

Section Parser.

Context {U : UnicodeData}.

(** The skipped lines: column headers, footer, summary line. *)
Definition boilerplate (title : str) : bool :=
  let low := lower title in
  (PyStr.eqb title (u "Название") || PyStr.eqb title (u "Покупатель")
   || PyStr.eqb title (u "Цена"))
  || (contains (u "перейти на") low || contains (u "ваши настройки") low
      || contains (u "отписаться") low)
  || contains (u "новых подходящих") low.

(** [category]: the line after the title when it holds [>]. *)
Definition category_of (lines : list str) (i : nat) : option str :=
  if ((i + 1 <? List.length lines)%nat
      && is_match (re_search no_flags cat_re (nth (i + 1) lines [])))
  then Some (nth (i + 1) lines [])
  else None.

(** The first [if] on a line of the window: a one-letter token, then the
    handle. *)
Definition prefixed_buyer (buyer : option str) (tokens : list str) (llow : str)
  : option str :=
  match buyer, tokens with
  | None, t0 :: cand :: _ =>
      if isalpha t0 && (List.length t0 =? 1)%nat
      then
        if negb (isdigit cand) && negb (is_match (re_search no_flags proekt_re llow))
        then
          if is_match (re_match no_flags prefixed_buyer_re cand)
          then Some cand else buyer
        else buyer
      else buyer
  | _, _ => buyer
  end.

(** The second [if]: a handle at the start of the line. *)
Definition bare_buyer (buyer : option str) (tokens : list str) (llow : str)
  : option str :=
  match buyer, tokens with
  | None, t0 :: _ =>
      if is_match (re_match no_flags bare_buyer_re t0)
         && negb (is_match (re_search no_flags proekt_re llow))
      then Some t0 else buyer
  | _, _ => buyer
  end.

(** [price_re.match(line)] *)
Definition price_line (line : str) : bool :=
  is_match (re_match ignorecase price_re line).

(** What the inner loop knows when it stops: the index [j], the price
    when the loop stopped at a price line, the buyer and the hire note. *)
Record window : Type := {
  w_j : nat;
  w_price : option str;
  w_buyer : option str;
  w_hired : option str
}.

(** [while j < limit: ...] *)
Fixpoint scan_window (fuel : nat) (lines : list str) (limit j : nat)
         (buyer hired : option str) : window :=
  match fuel with
  | O => {| w_j := j; w_price := None; w_buyer := buyer; w_hired := hired |}
  | S fuel' =>
      if (j <? limit)%nat then
        let line := nth j lines [] in
        let llow := lower line in
        let tokens := split line in
        let buyer := prefixed_buyer buyer tokens llow in
        let buyer := bare_buyer buyer tokens llow in
        let hired :=
          if contains (u "%") line && contains (u "нанят") llow
          then Some line else hired in
        if price_line line
        then {| w_j := j;
                w_price := Some (strip (replace_char ER [ROUBLE] line));
                w_buyer := buyer; w_hired := hired |}
        else scan_window fuel' lines limit (S j) buyer hired
      else {| w_j := j; w_price := None; w_buyer := buyer; w_hired := hired |}
  end.

(** The window of the title at [i]: [j] runs from [i + 1] to
    [min(len(lines), i + 20)], excluded. *)
Definition window_of (lines : list str) (i : nat) : window :=
  let limit := Nat.min (List.length lines) (i + 20) in
  scan_window (limit - (i + 1)) lines limit (i + 1) None None.

(** One turn of [while i < len(lines)], for [i < len(lines)]: the record
    appended to [projects], if any, and the next value of [i]. *)
Definition scan_step (lines : list str) (i : nat) : option project * nat :=
  let title := nth i lines [] in
  if boilerplate title then (None, S i)
  else
    let category := category_of lines i in
    let w := window_of lines i in
    if truthy_opt category && truthy_opt (w_price w)
    then (Some {| title := title; category := category;
                  buyer := w_buyer w; hired := w_hired w;
                  price := w_price w; url := None |},
          S (w_j w))
    else (None, S i).

Fixpoint scan_lines (fuel : nat) (lines : list str) (i : nat)
         (projects : list project) : list project :=
  match fuel with
  | O => projects
  | S fuel' =>
      if (i <? List.length lines)%nat then
        match scan_step lines i with
        | (Some p, i') => scan_lines fuel' lines i' (projects ++ [p])
        | (None, i') => scan_lines fuel' lines i' projects
        end
      else projects
  end.

(** [lines = [l.strip() for l in text.splitlines()]] without the empty
    ones. *)
Definition lines_of (text : str) : list str :=
  filter truthy (map strip (splitlines text)).

(** Stage A: the two summary patterns. *)
Definition parse_available (text : str) : result (option Z) :=
  match re_search ignorecase available_re text with
  | Some g => n <- py_int (group g 1) ;; Ok (Some n)
  | None => Ok None
  end.

Definition parse_total (text : str) : result (option str * option Z) :=
  match re_search ignorecase_dotall total_re text with
  | Some g =>
      let timeframe := strip (group g 1) in
      n <- py_int (replace_char 32 [] (group g 2)) ;;
      Ok (Some timeframe, Some n)
  | None => Ok (None, None)
  end.

Definition parse_from_text (text : str) : result parse_result :=
  available <- parse_available text ;;
  tt <- parse_total text ;;
  let lines := lines_of text in
  Ok {| available := available;
        total := snd tt;
        timeframe := fst tt;
        projects := scan_lines (List.length lines) lines 0 [] |}.

End Parser.

(** ** A character table for the examples

    The Unicode tables restricted to Basic Latin and to the Cyrillic
    letters U+0400 to U+045F, where they agree with the Unicode database;
    every other character is taken to have no case and to be neither a
    letter nor a digit. The texts of the examples below stay within these
    characters, white space and the rouble sign. *)

Definition lower_cp (c : Z) : Z :=
  if (65 <=? c) && (c <=? 90) then c + 32
  else if (1040 <=? c) && (c <=? 1071) then c + 32
  else if (1024 <=? c) && (c <=? 1039) then c + 80
  else c.

Definition basic_letter (c : Z) : bool :=
  ((65 <=? c) && (c <=? 90)) || ((97 <=? c) && (c <=? 122))
  || ((1024 <=? c) && (c <=? 1119)).

Definition basic_digit (c : Z) : bool := (48 <=? c) && (c <=? 57).

#[export] Instance basic_tables : UnicodeData := {|
  decimal_value := fun c => if basic_digit c then Some (c - 48) else None;
  isdigit_cp := basic_digit;
  isalpha_cp := basic_letter;
  isalnum_cp := fun c => basic_letter c || basic_digit c;
  lower := map lower_cp;
  ignorecase_eq := fun p c => lower_cp p =? lower_cp c
|}.

(** ** Hyperlinks: [extract_project_links_ordered] and [parse_kwork_email] *)

(** [{"from", "subject", "date", "plain", "html"}], the result of
    [extract_parts]. *)
Record parts : Type := {
  p_from : str;
  p_subject : str;
  p_date : str;
  p_plain : str;
  p_html : str
}.

Definition set_url (p : project) (link : str) : project :=
  {| title := title p; category := category p; buyer := buyer p;
     hired := hired p; price := price p; url := Some link |}.

Section Links.

Context {U : UnicodeData}.

(** BeautifulSoup: the text of the document with its pieces joined by a
    line feed ([soup.get_text("\n")]), and the values of [href] of the
    anchors that have one, in document order
    ([soup.find_all("a", href=True)]). *)
Variable get_text : str -> str.
Variable anchors_href : str -> list str.

Definition is_project_link (href : str) : bool :=
  contains (u "kwork.ru") href
  && (contains (u "new_offer?project=") href || contains (u "project=") href).

Definition mem (x : str) (seen : list str) : bool := existsb (PyStr.eqb x) seen.

(** One turn of the loop over the anchors; the state is [(urls, seen)]. *)
Definition links_step (acc : list str * list str) (a : str) : list str * list str :=
  let href := strip a in
  if negb (contains (u "kwork.ru") href) then acc
  else if is_project_link href then
    if negb (mem href (snd acc))
    then (fst acc ++ [href], href :: snd acc)
    else acc
  else acc.

Definition links_of_anchors (hrefs : list str) : list str :=
  fst (fold_left links_step hrefs ([], [])).

Definition extract_project_links_ordered (html_text : str) : list str :=
  links_of_anchors (anchors_href html_text).

(** [for idx, p in enumerate(projects): if idx < len(links): p["url"] = links[idx]] *)
Fixpoint attach_urls (links : list str) (idx : nat) (ps : list project)
  : list project :=
  match ps with
  | [] => []
  | p :: ps' =>
      (if (idx <? List.length links)%nat
       then set_url p (nth idx links [])
       else p) :: attach_urls links (S idx) ps'
  end.

Definition with_projects (data : parse_result) (ps : list project) : parse_result :=
  {| available := available data; total := total data;
     timeframe := timeframe data; projects := ps |}.

Definition parse_kwork_email (parts : parts) : result parse_result :=
  if truthy (p_html parts) then
    data <- parse_from_text (get_text (p_html parts)) ;;
    let links := extract_project_links_ordered (p_html parts) in
    match links, projects data with
    | _ :: _, _ :: _ => Ok (with_projects data (attach_urls links 0 (projects data)))
    | _, _ => Ok data
    end
  else parse_from_text (p_plain parts).

End Links.

(** ** The text of the message: [compose_message] *)

(** [html.escape(s)], with [quote=True]. *)
Definition html_escape (s : str) : str :=
  let s := replace_char 38 (u "&amp;") s in
  let s := replace_char 60 (u "&lt;") s in
  let s := replace_char 62 (u "&gt;") s in
  let s := replace_char 34 (u "&quot;") s in
  replace_char 39 (u "&#x27;") s.

(** The digits of [n], for [n >= 0], before [acc]. *)
Fixpoint digits_before (fuel : nat) (n : Z) (acc : str) : str :=
  match fuel with
  | O => acc
  | S fuel' =>
      let acc := (48 + n mod 10) :: acc in
      if n / 10 =? 0 then acc else digits_before fuel' (n / 10) acc
  end.

(** [str(n)], the text of an integer in an f-string, for a number of at
    most [MAX_STR_DIGITS] digits, as [int] returns them; [str] raises
    [ValueError] on a longer one. *)
Definition str_of_int (n : Z) : str :=
  if n <? 0 then 45 :: digits_before (S (Z.to_nat (Z.log2 (- n)))) (- n) []
  else digits_before (S (Z.to_nat (Z.log2 n))) n [].

(** [sep.join(l)] *)
Fixpoint join (sep : str) (l : list str) : str :=
  match l with
  | [] => []
  | [x] => x
  | x :: l' => x ++ sep ++ join sep l'
  end.

(** [l[:k]] *)
Definition upto {A : Type} (k : Z) (l : list A) : list A :=
  if k <? 0 then firstn (List.length l - Z.to_nat (- k)) l
  else firstn (Z.to_nat k) l.

Definition NOTICE : str :=
  u "Не смог распарсить проекты (если надо — подточим парсер под HTML письма).".

Definition quote : str := [34].

Section Compose.

Variable MAX_ITEMS : Z.

Definition header_of (meta : parts) (data : parse_result) : str :=
  let header := u "📬 <b>Kwork: новые проекты</b>" in
  let header :=
    match available data, total data with
    | Some a, Some t =>
        if truthy_opt (timeframe data) then
          header ++ [10] ++ u "➕ <b>" ++ str_of_int a
          ++ u "</b> подходящих (из " ++ str_of_int t
          ++ u " за "
          ++ html_escape (match timeframe data with Some w => w | None => [] end)
          ++ u ")"
        else header ++ [10] ++ u "➕ <b>" ++ str_of_int a ++ u "</b> подходящих"
    | Some a, None =>
        header ++ [10] ++ u "➕ <b>" ++ str_of_int a ++ u "</b> подходящих"
    | None, _ => header
    end in
  if truthy (p_subject meta)
  then header ++ [10] ++ u "🧾 <i>" ++ html_escape (p_subject meta) ++ u "</i>"
  else header.

(** The lines of one project. [html.escape] of a price that is [None]
    raises; no record of [parse_from_text] has one. *)
Definition project_lines (p : project) : result (list str) :=
  let safe_title := html_escape (title p) in
  let title_part :=
    match url p with
    | Some (c :: link) =>
        u "<a href=" ++ quote ++ html_escape (c :: link) ++ quote ++ u ">"
        ++ safe_title ++ u "</a>"
    | _ => safe_title
    end in
  match price p with
  | None => Raise AttributeError
  | Some pr =>
      let line := u "• " ++ title_part ++ u " — <b>" ++ html_escape pr ++ u "</b>" in
      let line :=
        match buyer p with
        | Some (c :: b) => line ++ u " (👤 " ++ html_escape (c :: b) ++ u ")"
        | _ => line
        end in
      Ok ([line]
          ++ match category p with
             | Some (c :: cat) => [u "  " ++ html_escape (c :: cat)]
             | _ => []
             end
          ++ match hired p with
             | Some (c :: h) => [u "  " ++ html_escape (c :: h)]
             | _ => []
             end
          ++ [[]])
  end.

Fixpoint projects_lines (ps : list project) : result (list str) :=
  match ps with
  | [] => Ok []
  | p :: ps' =>
      l <- project_lines p ;;
      ls <- projects_lines ps' ;;
      Ok (l ++ ls)
  end.

Definition compose_message (meta : parts) (data : parse_result) : result str :=
  let projects := upto MAX_ITEMS (projects data) in
  let header := header_of meta data in
  body <- projects_lines projects ;;
  let out := [header; []] ++ body in
  let out := match projects with [] => out ++ [NOTICE] | _ => out end in
  Ok (strip (join [10] out)).

End Compose.

(** ** [datetime]

    A [datetime] is the reading of a wall clock, counted in microseconds
    from 0001-01-01T00:00:00 of the proleptic Gregorian calendar, with the
    utcoffset of its [tzinfo] in microseconds ([None] for a naive one). The
    fields year to microsecond are computed from the reading as [datetime]
    itself converts between fields and ordinals. A [timedelta] is a number
    of microseconds. *)

Module Datetime.

Definition US_PER_SECOND : Z := 1000000.
Definition US_PER_MINUTE : Z := 60000000.
Definition US_PER_HOUR : Z := 3600000000.
Definition US_PER_DAY : Z := 86400000000.

(** [date.max.toordinal()], the ordinal of 9999-12-31. *)
Definition MAXORDINAL : Z := 3652059.

Record datetime : Type := { wall : Z; tzinfo : option Z }.

(** The readings of the years 1 to 9999. *)
Definition in_range (w : Z) : bool := (0 <=? w) && (w <? MAXORDINAL * US_PER_DAY).

(** [timezone.utc] *)
Definition utc : option Z := Some 0.

(** [dt.replace(tzinfo=tz)] *)
Definition replace_tzinfo (dt : datetime) (tz : option Z) : datetime :=
  {| wall := wall dt; tzinfo := tz |}.

(** [dt - td] *)
Definition sub_timedelta (dt : datetime) (td : Z) : result datetime :=
  let w := wall dt - td in
  if in_range w then Ok {| wall := w; tzinfo := tzinfo dt |}
  else Raise OverflowError.

(** [dt.astimezone(timezone.utc)]. A naive [dt] is read in the time zone
    of the system, whose utcoffset at a wall clock reading is
    [local_utcoffset]. A [dt] that already carries [timezone.utc] is
    returned as it is. *)
Definition astimezone_utc (local_utcoffset : Z -> Z) (dt : datetime)
  : result datetime :=
  match tzinfo dt with
  | Some off =>
      if off =? 0 then Ok dt
      else d <- sub_timedelta dt off ;; Ok (replace_tzinfo d utc)
  | None =>
      d <- sub_timedelta dt (local_utcoffset (wall dt)) ;;
      Ok (replace_tzinfo d utc)
  end.

(** The point on the time line of an aware datetime (for a naive one,
    its reading). *)
Definition instant (dt : datetime) : Z :=
  match tzinfo dt with
  | Some off => wall dt - off
  | None => wall dt
  end.

Definition aware (dt : datetime) : bool :=
  match tzinfo dt with Some _ => true | None => false end.

(** [a == b]: a naive and an aware datetime are never equal. *)
Definition dt_eqb (a b : datetime) : bool :=
  Bool.eqb (aware a) (aware b) && (instant a =? instant b).

(** [a <= b]: ordering a naive against an aware datetime raises. *)
Definition dt_leb (a b : datetime) : result bool :=
  if Bool.eqb (aware a) (aware b) then Ok (instant a <=? instant b)
  else Raise TypeError.

(** [a >= b] *)
Definition dt_geb (a b : datetime) : result bool := dt_leb b a.

(** *** The calendar *)

Definition _is_leap (year : Z) : bool :=
  (year mod 4 =? 0) && (negb (year mod 100 =? 0) || (year mod 400 =? 0)).

Definition _days_before_year (year : Z) : Z :=
  let y := year - 1 in y * 365 + y / 4 - y / 100 + y / 400.

Definition _DAYS_IN_MONTH (month : Z) : Z :=
  nth (Z.to_nat month) [-1; 31; 28; 31; 30; 31; 30; 31; 31; 30; 31; 30; 31] 0.

Definition _DAYS_BEFORE_MONTH (month : Z) : Z :=
  nth (Z.to_nat month) [-1; 0; 31; 59; 90; 120; 151; 181; 212; 243; 273; 304; 334] 0.

Definition _days_in_month (year month : Z) : Z :=
  if (month =? 2) && _is_leap year then 29 else _DAYS_IN_MONTH month.

Definition _days_before_month (year month : Z) : Z :=
  _DAYS_BEFORE_MONTH month + (if (month >? 2) && _is_leap year then 1 else 0).

Definition _ymd2ord (year month day : Z) : Z :=
  _days_before_year year + _days_before_month year month + day.

Definition _DI400Y : Z := 146097.
Definition _DI100Y : Z := 36524.
Definition _DI4Y : Z := 1461.

Definition _ord2ymd (n : Z) : Z * Z * Z :=
  let n := n - 1 in
  let n400 := n / _DI400Y in
  let n := n mod _DI400Y in
  let year := n400 * 400 + 1 in
  let n100 := n / _DI100Y in
  let n := n mod _DI100Y in
  let n4 := n / _DI4Y in
  let n := n mod _DI4Y in
  let n1 := n / 365 in
  let n := n mod 365 in
  let year := year + (n100 * 100 + n4 * 4 + n1) in
  if (n1 =? 4) || (n100 =? 4) then (year - 1, 12, 31)
  else
    let leapyear := (n1 =? 3) && (negb (n4 =? 24) || (n100 =? 3)) in
    let month := Z.shiftr (n + 50) 5 in
    let preceding :=
      _DAYS_BEFORE_MONTH month + (if (month >? 2) && leapyear then 1 else 0) in
    if preceding >? n then
      let month := month - 1 in
      let preceding :=
        preceding
        - (_DAYS_IN_MONTH month + (if (month =? 2) && leapyear then 1 else 0)) in
      (year, month, n - preceding + 1)
    else (year, month, n - preceding + 1).

(** The fields of a datetime. *)
Definition ymd (dt : datetime) : Z * Z * Z := _ord2ymd (wall dt / US_PER_DAY + 1).
Definition hour (dt : datetime) : Z := wall dt mod US_PER_DAY / US_PER_HOUR.
Definition minute (dt : datetime) : Z := wall dt mod US_PER_HOUR / US_PER_MINUTE.
Definition second (dt : datetime) : Z := wall dt mod US_PER_MINUTE / US_PER_SECOND.
Definition microsecond (dt : datetime) : Z := wall dt mod US_PER_SECOND.

(** [datetime(year, month, day, hh, mm, ss, us, tzinfo)]: the constructor
    checks every field and the offset. *)
Definition make (y m d hh mm ss us : Z) (tz : option Z) : result datetime :=
  if ((1 <=? y) && (y <=? 9999) && (1 <=? m) && (m <=? 12)
      && (1 <=? d) && (d <=? _days_in_month y m)
      && (0 <=? hh) && (hh <=? 23) && (0 <=? mm) && (mm <=? 59)
      && (0 <=? ss) && (ss <=? 59) && (0 <=? us) && (us <=? 999999)
      && match tz with
         | Some off => (- US_PER_DAY <? off) && (off <? US_PER_DAY)
         | None => true
         end)
  then Ok {| wall := (_ymd2ord y m d - 1) * US_PER_DAY + hh * US_PER_HOUR
                     + mm * US_PER_MINUTE + ss * US_PER_SECOND + us;
             tzinfo := tz |}
  else Raise ValueError.

(** *** [isoformat] *)

Definition digit (n : Z) : Z := 48 + n.

(** [%02d], [%04d] and [%06d] of a number that fits. *)
Definition fmt2 (n : Z) : str := [digit (n / 10); digit (n mod 10)].
Definition fmt4 (n : Z) : str := fmt2 (n / 100) ++ fmt2 (n mod 100).
Definition fmt6 (n : Z) : str := fmt2 (n / 10000) ++ fmt4 (n mod 10000).

(** [_format_time] with [timespec='auto']. *)
Definition _format_time (hh mm ss us : Z) : str :=
  fmt2 hh ++ [58] ++ fmt2 mm ++ [58] ++ fmt2 ss
  ++ (if us =? 0 then [] else [46] ++ fmt6 us).

Definition _format_offset (tz : option Z) : str :=
  match tz with
  | None => []
  | Some off =>
      let sign := if off <? 0 then 45 else 43 in
      let off := Z.abs off in
      let hh := off / US_PER_HOUR in
      let mm := off mod US_PER_HOUR / US_PER_MINUTE in
      let ss := off mod US_PER_MINUTE in
      [sign] ++ fmt2 hh ++ [58] ++ fmt2 mm
      ++ (if ss =? 0 then []
          else [58] ++ fmt2 (ss / US_PER_SECOND)
               ++ (if ss mod US_PER_SECOND =? 0 then []
                   else [46] ++ fmt6 (ss mod US_PER_SECOND)))
  end.

(** [dt.isoformat()] *)
Definition isoformat (dt : datetime) : str :=
  let '(y, m, d) := ymd dt in
  fmt4 y ++ [45] ++ fmt2 m ++ [45] ++ fmt2 d ++ [84]
  ++ _format_time (hour dt) (minute dt) (second dt) (microsecond dt)
  ++ _format_offset (tzinfo dt).

(** *** [fromisoformat]

    The strings that [datetime.fromisoformat] reads before Python 3.11,
    [YYYY-MM-DD[*HH[:MM[:SS[.fff[fff]]]][+HH:MM[:SS[.ffffff]]]]], which
    hold every result of [isoformat]; any other string raises
    [ValueError]. *)

Definition ascii_digit (c : Z) : option Z :=
  if (48 <=? c) && (c <=? 57) then Some (c - 48) else None.

Fixpoint digits_value (s : str) (acc : Z) : option Z :=
  match s with
  | [] => Some acc
  | c :: s' =>
      match ascii_digit c with
      | Some d => digits_value s' (acc * 10 + d)
      | None => None
      end
  end.

Definition number (s : str) : result Z :=
  match s with
  | [] => Raise ValueError
  | _ => match digits_value s 0 with
         | Some n => Ok n
         | None => Raise ValueError
         end
  end.

(** Two digits at the front of [s], and what follows them. *)
Definition two (s : str) : result (Z * str) :=
  match s with
  | a :: b :: r => n <- number [a; b] ;; Ok (n, r)
  | _ => Raise ValueError
  end.

Definition _parse_isoformat_date (dstr : str) : result (Z * Z * Z) :=
  match dstr with
  | [y1; y2; y3; y4; s1; m1; m2; s2; d1; d2] =>
      if (s1 =? 45) && (s2 =? 45) then
        y <- number [y1; y2; y3; y4] ;;
        m <- number [m1; m2] ;;
        d <- number [d1; d2] ;;
        Ok (y, m, d)
      else Raise ValueError
  | _ => Raise ValueError
  end.

(** The fraction after the seconds: nothing, or a dot and 3 or 6
    digits. *)
Definition fraction (r : str) : result Z :=
  match r with
  | [] => Ok 0
  | c :: f =>
      if c =? 46 then
        if (List.length f =? 3)%nat then n <- number f ;; Ok (n * 1000)
        else if (List.length f =? 6)%nat then number f
        else Raise ValueError
      else Raise ValueError
  end.

(** [HH[:MM[:SS[.fff[fff]]]]] *)
Definition _parse_hh_mm_ss_ff (tstr : str) : result (Z * Z * Z * Z) :=
  h <- two tstr ;;
  match snd h with
  | [] => Ok (fst h, 0, 0, 0)
  | c :: r1 =>
      if c =? 58 then
        m <- two r1 ;;
        match snd m with
        | [] => Ok (fst h, fst m, 0, 0)
        | c' :: r2 =>
            if c' =? 58 then
              s <- two r2 ;;
              us <- fraction (snd s) ;;
              Ok (fst h, fst m, fst s, us)
            else Raise ValueError
        end
      else Raise ValueError
  end.

(** [s.find(c)] *)
Fixpoint find (c : Z) (s : str) : option nat :=
  match s with
  | [] => None
  | x :: s' => if x =? c then Some O else option_map S (find c s')
  end.

Definition _parse_isoformat_time (tstr : str)
  : result (Z * Z * Z * Z * option Z) :=
  if (List.length tstr <? 2)%nat then Raise ValueError
  else
    let tz_pos :=
      match find 45 tstr with
      | Some p => Some p
      | None => find 43 tstr
      end in
    match tz_pos with
    | None => t <- _parse_hh_mm_ss_ff tstr ;; Ok (t, None)
    | Some p =>
        t <- _parse_hh_mm_ss_ff (firstn p tstr) ;;
        let tzstr := skipn (S p) tstr in
        let n := List.length tzstr in
        if ((n =? 5) || (n =? 8) || (n =? 15))%nat then
          z <- _parse_hh_mm_ss_ff tzstr ;;
          let '(zh, zm, zs, zus) := z in
          let td := zh * US_PER_HOUR + zm * US_PER_MINUTE
                    + zs * US_PER_SECOND + zus in
          let tzsign := if nth p tstr 0 =? 45 then -1 else 1 in
          Ok (t, Some (tzsign * td))
        else Raise ValueError
    end.

(** [datetime.fromisoformat(s)] *)
Definition fromisoformat (s : str) : result datetime :=
  ymd <- _parse_isoformat_date (firstn 10 s) ;;
  let '(y, m, d) := ymd in
  let tstr := skipn 11 s in
  match tstr with
  | [] => make y m d 0 0 0 0 None
  | _ =>
      t <- _parse_isoformat_time tstr ;;
      let '(hh, mm, ss, us, tz) := t in
      make y m d hh mm ss us tz
  end.

End Datetime.

Import Datetime.

(** ** The persisted cursor: [_load_state], [_save_state],
       [_state_get_last_seen], [_state_set_last_seen] *)

(** What [json.load] returns; the numbers are the integers. Python's [None]
    is [JNull]. *)
#[warnings="-register-all"] Inductive json : Type :=
| JNull
| JBool (b : bool)
| JInt (n : Z)
| JStr (s : str)
| JList (l : list json)
| JDict (d : list (str * json)).

(** The state file: [None] when it is missing, unreadable or not JSON,
    otherwise the value it holds. *)
Definition file : Type := option json.

(** The cursor [(dt_utc, uid)]. *)
Definition cursor : Type := (datetime * Z)%type.

Fixpoint lookup (k : str) (d : list (str * json)) : json :=
  match d with
  | [] => JNull
  | (k', v) :: d' => if PyStr.eqb k k' then v else lookup k d'
  end.

(** [st.get(k)]: only a dict has the method. *)
Definition dict_get (st : json) (k : str) : result json :=
  match st with
  | JDict d => Ok (lookup k d)
  | _ => Raise AttributeError
  end.

Definition json_truthy (v : json) : bool :=
  match v with
  | JNull => false
  | JBool b => b
  | JInt n => negb (n =? 0)
  | JStr s => truthy s
  | JList l => match l with [] => false | _ => true end
  | JDict d => match d with [] => false | _ => true end
  end.

Definition is_none (v : json) : bool :=
  match v with JNull => true | _ => false end.

Definition _load_state (f : file) : json :=
  match f with
  | Some st => st
  | None => JDict []
  end.

(** How the file system answers [_save_state]: the temporary file is
    written and takes the place of the state file, which then reads as
    what was written; or [open], [json.dump] or [os.replace] raises, which
    [_save_state] catches, and the state file is as it was; or
    [os.makedirs], which is outside the [try], raises. *)
Inductive disk_answer : Type :=
| Replaced
| NotReplaced
| NoDirectory (e : exn).

(** [_save_state(state)] on the state file [f]; [disk] is the file system,
    asked with what is to be written and what the file holds. *)
Definition _save_state (disk : json -> file -> disk_answer) (state : json)
           (f : file) : result file :=
  match disk state f with
  | NoDirectory e => Raise e
  | Replaced => Ok (Some state)
  | NotReplaced => Ok f
  end.

Section Store.

Context {U : UnicodeData}.

(** The utcoffset of the system's time zone at a wall clock reading. *)
Variable local_utcoffset : Z -> Z.

(** The file system under the state file. *)
Variable disk : json -> file -> disk_answer.

(** [datetime.fromisoformat(v)] for a value of the state file. *)
Definition fromisoformat_value (v : json) : result datetime :=
  match v with
  | JStr s => fromisoformat s
  | _ => Raise TypeError
  end.

(** [int(v)] for a value of the state file. *)
Definition int_value (v : json) : result Z :=
  match v with
  | JInt n => Ok n
  | JBool b => Ok (if b then 1 else 0)
  | JStr s => py_int s
  | _ => Raise TypeError
  end.

Definition _state_get_last_seen (f : file) : result (option cursor) :=
  let st := _load_state f in
  dt_iso <- dict_get st (u "last_dt_iso") ;;
  uid <- dict_get st (u "last_uid") ;;
  if negb (json_truthy dt_iso) || is_none uid then Ok None
  else
    Ok (except_all
          (dt <- fromisoformat_value dt_iso ;;
           dt <- match tzinfo dt with
                 | None => Ok (replace_tzinfo dt utc)
                 | Some _ => astimezone_utc local_utcoffset dt
                 end ;;
           n <- int_value uid ;;
           Ok (Some (dt, n)))
          None).

Definition _state_set_last_seen (dt : datetime) (uid : Z) (f : file)
  : result file :=
  dt <- astimezone_utc local_utcoffset dt ;;
  _save_state disk
    (JDict [(u "last_dt_iso", JStr (isoformat dt)); (u "last_uid", JInt uid)])
    f.

(** [_to_utc] *)
Definition _to_utc (dt : datetime) : result datetime :=
  match tzinfo dt with
  | None => Ok (replace_tzinfo dt utc)
  | Some _ => astimezone_utc local_utcoffset dt
  end.

End Store.

(** ** The watcher and the commands *)

(** [bytes] *)
Definition bytes : Type := list Z.

(** A candidate [(dt_utc, uid, raw)] of [_fetch_candidates]. *)
Definition candidate : Type := (datetime * Z * bytes)%type.

Definition key_of (c : candidate) : cursor := (fst (fst c), snd (fst c)).

(** [items[-1]] of a list that is not empty. *)
Definition last_item (items : list candidate) : option candidate :=
  nth_error items (List.length items - 1).

(** [a <= b] for two pairs [(dt, uid)]: the first components that differ
    decide. *)
Definition tuple_le (a b : cursor) : result bool :=
  if dt_eqb (fst a) (fst b) then Ok (snd a <=? snd b)
  else dt_leb (fst a) (fst b).

(** The order of two keys [(dt, uid)] whose datetimes are aware, where
    [tuple_le] does not raise: by point on the time line, then by uid. *)
Definition key_leb (a b : cursor) : bool :=
  (instant (fst a) <? instant (fst b))
  || ((instant (fst a) =? instant (fst b)) && (snd a <=? snd b)).

Definition key_ltb (a b : cursor) : bool := negb (key_leb b a).

(** What [c.fetch] holds for one uid: the values under [b"INTERNALDATE"]
    and [b"RFC822"], when present. *)
Record fetch_item : Type := {
  INTERNALDATE : option datetime;
  RFC822 : option bytes
}.

(** [uids[-80:]] *)
Definition last80 (uids : list Z) : list Z :=
  skipn (List.length uids - 80) uids.

(** [items.sort(key=lambda x: (x[0], x[1]))] on candidates whose datetimes
    are aware: the sort is stable, so it is the insertion, from the right,
    of every candidate before the first one that is not smaller. *)
Fixpoint insert_item (c : candidate) (items : list candidate) : list candidate :=
  match items with
  | [] => [c]
  | x :: items' =>
      if key_ltb (key_of x) (key_of c) then x :: insert_item c items'
      else c :: items
  end.

Definition sort_items (items : list candidate) : list candidate :=
  fold_right insert_item [] items.

(** [timedelta(minutes=m)]: the days of a timedelta have at most nine
    digits. *)
Definition timedelta_minutes (m : Z) : result Z :=
  let us := m * US_PER_MINUTE in
  if (-999999999 <=? us / US_PER_DAY) && (us / US_PER_DAY <=? 999999999)
  then Ok us else Raise OverflowError.

(** The process: the cursor in memory, the state file and the messages
    handed to [send_to_targets], each with whether it also goes to the
    user. *)
Record State : Type := {
  _last_seen : option cursor;
  state_file : file;
  outbox : list (str * bool)
}.

(** The watcher runs in a thread of its own and the commands in the event
    loop. The lock [_state_lock] guards each read and each write of the
    cursor, one by one: between the read of the cursor and a write (lines
    492-493 and 516-518 for the watcher; lines 603-605 and 622-624 for
    [/now], with [await send_to_targets] between them) the others may have
    written the cursor. [others] is what they did meanwhile to the cursor
    in memory and to the state file. *)
Definition others : Type := option cursor -> file -> option cursor * file.

(** The state once the others have done it; their messages are not listed
    in [outbox]. *)
Definition meanwhile (g : others) (st : State) : State :=
  {| _last_seen := fst (g (_last_seen st) (state_file st));
     state_file := snd (g (_last_seen st) (state_file st));
     outbox := outbox st |}.

(** Nobody else writes. *)
Definition alone : others := fun ls f => (ls, f).

(** What a command answers. *)
Inductive reply : Type :=
| NoMail
| TooOld
| NothingNew (last_seen : cursor)
| Done
| Failed (e : exn).

Section Watcher.

Context {U : UnicodeData}.

Variable local_utcoffset : Z -> Z.
Variable disk : json -> file -> disk_answer.

Variable MAX_EMAIL_AGE_MINUTES : Z.
Variable SEND_WATCHER_TO_USER : bool.

(** [extract_parts], [parse_kwork_email] and [compose_message] in a row:
    the text of the message for a raw mail. *)
Variable render : bytes -> result str.

(** The loop of [_fetch_candidates] over [tail]; [fetched] is the result of
    [c.fetch], as the function from a uid to its item. *)
Fixpoint collect (fetched : Z -> option fetch_item) (tail : list Z)
  : result (list candidate) :=
  match tail with
  | [] => Ok []
  | uid :: tail' =>
      match fetched uid with
      | Some {| INTERNALDATE := Some dt; RFC822 := Some (b :: raw) |} =>
          dt_utc <- _to_utc local_utcoffset dt ;;
          items <- collect fetched tail' ;;
          Ok ((dt_utc, uid, b :: raw) :: items)
      | _ => collect fetched tail'
      end
  end.

(** [_fetch_candidates]; [uids] is the result of [_search_uids]. *)
Definition _fetch_candidates (uids : list Z) (fetched : Z -> option fetch_item)
  : result (list candidate) :=
  match uids with
  | [] => Ok []
  | _ =>
      items <- collect fetched (last80 uids) ;;
      Ok (sort_items items)
  end.

(** [_is_fresh(dt)], with [now] the reading of [datetime.now(timezone.utc)]. *)
Definition _is_fresh (now dt : datetime) : result bool :=
  td <- timedelta_minutes MAX_EMAIL_AGE_MINUTES ;;
  bound <- sub_timedelta now td ;;
  dt_geb dt bound.

(** [_last_seen = (dt, uid)] and [_state_set_last_seen(dt, uid)]. *)
Definition set_cursor (dt : datetime) (uid : Z) (st : State)
  : State * result unit :=
  let st1 := {| _last_seen := Some (dt, uid); state_file := state_file st;
                outbox := outbox st |} in
  match _state_set_last_seen local_utcoffset disk dt uid (state_file st1) with
  | Ok f => ({| _last_seen := _last_seen st1; state_file := f;
                outbox := outbox st1 |}, Ok tt)
  | Raise e => (st1, Raise e)
  end.

Definition send (text : str) (to_user : bool) (st : State) : State :=
  {| _last_seen := _last_seen st; state_file := state_file st;
     outbox := outbox st ++ [(text, to_user)] |}.

(** The start of the process: the cursor in memory is read from the state
    file, nothing is sent yet. *)
Definition startup (f : file) : result State :=
  ls <- _state_get_last_seen local_utcoffset f ;;
  Ok {| _last_seen := ls; state_file := f; outbox := [] |}.

(** The first step of a session of [imap_idle_worker]: with no cursor in
    memory, the newest candidate becomes the cursor. *)
Definition init_cursor (items : list candidate) (st : State)
  : State * result unit :=
  match _last_seen st with
  | Some _ => (st, Ok tt)
  | None =>
      match last_item items with
      | Some (dt0, uid0, _) => set_cursor dt0 uid0 st
      | None => (st, Ok tt)
      end
  end.

(** The loop that fills [new_items]. [_is_fresh] reads the clock at every
    candidate: [clock k] is the reading at the candidate of index [k]. *)
Fixpoint select_new (clock : nat -> datetime) (k : nat)
         (last_seen : option cursor) (items : list candidate)
  : result (list candidate) :=
  match items with
  | [] => Ok []
  | c :: items' =>
      fresh <- _is_fresh (clock k) (fst (fst c)) ;;
      if negb fresh then select_new clock (S k) last_seen items'
      else
        seen <- match last_seen with
                | Some ls => tuple_le (key_of c) ls
                | None => Ok false
                end ;;
        if seen then select_new clock (S k) last_seen items'
        else
          new_items <- select_new clock (S k) last_seen items' ;;
          Ok (c :: new_items)
  end.

(** The loop over [new_items]: the message is handed over, then the cursor
    moves to it. *)
Fixpoint deliver (new_items : list candidate) (st : State)
  : State * result unit :=
  match new_items with
  | [] => (st, Ok tt)
  | (dt, uid, raw) :: rest =>
      match render raw with
      | Raise e => (st, Raise e)
      | Ok text =>
          match set_cursor dt uid (send text SEND_WATCHER_TO_USER st) with
          | (st', Ok _) => deliver rest st'
          | (st', Raise e) => (st', Raise e)
          end
      end
  end.

(** One wake of the watcher with the candidates it fetched, nobody else
    writing the cursor during it. *)
Definition drain (clock : nat -> datetime) (items : list candidate) (st : State)
  : State * result unit :=
  match select_new clock 0 (_last_seen st) items with
  | Raise e => (st, Raise e)
  | Ok new_items => deliver new_items st
  end.

(** A wake of the watcher among the others: [during k] is what they did
    between the read of the cursor (lines 492-493), or the write for the
    item before, and the write for the item of index [k] (lines
    516-518). *)
Fixpoint deliver_among (during : nat -> others) (k : nat)
         (new_items : list candidate) (st : State) : State * result unit :=
  match new_items with
  | [] => (st, Ok tt)
  | (dt, uid, raw) :: rest =>
      match render raw with
      | Raise e => (st, Raise e)
      | Ok text =>
          match set_cursor dt uid
                  (meanwhile (during k) (send text SEND_WATCHER_TO_USER st)) with
          | (st', Ok _) => deliver_among during (S k) rest st'
          | (st', Raise e) => (st', Raise e)
          end
      end
  end.

Definition drain_among (during : nat -> others) (clock : nat -> datetime)
           (items : list candidate) (st : State) : State * result unit :=
  match select_new clock 0 (_last_seen st) items with
  | Raise e => (st, Raise e)
  | Ok new_items => deliver_among during 0 new_items st
  end.

(** What [/now] and [/now_force] do with the newest candidate once they
    send it; [sending] is how [await send_to_targets(...)] ends. *)
Definition send_newest (sending : result unit) (c : candidate) (st : State)
  : State * reply :=
  let '(dt, uid, raw) := c in
  match render raw with
  | Raise e => (st, Failed e)
  | Ok text =>
      let st1 := send text true st in
      match sending with
      | Raise e => (st1, Failed e)
      | Ok _ =>
          match set_cursor dt uid st1 with
          | (st', Ok _) => (st', Done)
          | (st', Raise e) => (st', Failed e)
          end
      end
  end.

(** The command [/now], nobody else writing the cursor during it;
    [clock] is the reading of the clock in [_is_fresh]. *)
Definition now (clock : datetime) (sending : result unit)
           (items : list candidate) (st : State) : State * reply :=
  match last_item items with
  | None => (st, NoMail)
  | Some c =>
      match _is_fresh clock (fst (fst c)) with
      | Raise e => (st, Failed e)
      | Ok false => (st, TooOld)
      | Ok true =>
          match _last_seen st with
          | Some ls =>
              match tuple_le (key_of c) ls with
              | Raise e => (st, Failed e)
              | Ok true => (st, NothingNew ls)
              | Ok false => send_newest sending c st
              end
          | None => send_newest sending c st
          end
      end
  end.

(** [/now] among the others: [during] is what they did between the read
    of the cursor (lines 603-605) and its write (lines 622-624). *)
Definition send_newest_among (during : others) (sending : result unit)
           (c : candidate) (st : State) : State * reply :=
  let '(dt, uid, raw) := c in
  match render raw with
  | Raise e => (st, Failed e)
  | Ok text =>
      let st1 := send text true st in
      match sending with
      | Raise e => (st1, Failed e)
      | Ok _ =>
          match set_cursor dt uid (meanwhile during st1) with
          | (st', Ok _) => (st', Done)
          | (st', Raise e) => (st', Failed e)
          end
      end
  end.

Definition now_among (during : others) (clock : datetime)
           (sending : result unit) (items : list candidate) (st : State)
  : State * reply :=
  match last_item items with
  | None => (st, NoMail)
  | Some c =>
      match _is_fresh clock (fst (fst c)) with
      | Raise e => (st, Failed e)
      | Ok false => (st, TooOld)
      | Ok true =>
          match _last_seen st with
          | Some ls =>
              match tuple_le (key_of c) ls with
              | Raise e => (st, Failed e)
              | Ok true => (st, NothingNew ls)
              | Ok false => send_newest_among during sending c st
              end
          | None => send_newest_among during sending c st
          end
      end
  end.

(** The command [/now_force]. *)
Definition now_force (sending : result unit) (items : list candidate)
           (st : State) : State * reply :=
  match last_item items with
  | None => (st, NoMail)
  | Some c => send_newest sending c st
  end.

(** The command [/reset_state]. *)
Definition reset_state (items : list candidate) (st : State) : State * reply :=
  match last_item items with
  | None => (st, NoMail)
  | Some (dt, uid, _) =>
      match set_cursor dt uid st with
      | (st', Ok _) => (st', Done)
      | (st', Raise e) => (st', Failed e)
      end
  end.

End Watcher.

(** ** From a raw mail to the text that is sent *)

Section Render.

Context {U : UnicodeData}.

(** [extract_parts], which reads the mail with the [email] package and
    raises when a header names a charset that Python does not know
    ([LookupError] from [_decode_mime]), and the two readings of the HTML
    part by BeautifulSoup. *)
Variable extract_parts : bytes -> result parts.
Variable get_text : str -> str.
Variable anchors_href : str -> list str.

Variable MAX_ITEMS : Z.

(** [parts = extract_parts(raw)], [parsed = parse_kwork_email(parts)],
    [text = compose_message(parts, parsed)]. *)
Definition render_mail (raw : bytes) : result str :=
  parts <- extract_parts raw ;;
  parsed <- parse_kwork_email get_text anchors_href parts ;;
  compose_message MAX_ITEMS parts parsed.

End Render.

(** ** The chat ids of the configuration: [_parse_chat_id] *)

(** [Union[int, str]] *)
Inductive chat_id : Type :=
| ChatInt (n : Z)
| ChatName (s : str).

(** [re.fullmatch(r, s)]: the match has to end where [s] ends. *)
Definition re_fullmatch {U : UnicodeData} (fl : flags) (r : regex) (s : str)
  : option (list str) :=
  rmatch fl r {| prev := None; rest := s; caps := [] |}
         (fun st => match rest st with [] => Some (caps st) | _ => None end).

(** [r"-?\d+"] *)
Definition chat_id_re : regex := cat [Alt (Lit (u "-")) (Lit []); plus CDigit].

Definition _parse_chat_id {U : UnicodeData} (v : str) : result chat_id :=
  let v := strip v in
  if is_match (re_fullmatch no_flags chat_id_re v)
  then n <- py_int v ;; Ok (ChatInt n)
  else Ok (ChatName v).

(** ** Telegram: [send_to_targets] *)

(** A message that Telegram took: the chat, the text and
    [disable_web_page_preview]. *)
Record message : Type := {
  m_chat : chat_id;
  m_text : str;
  m_no_preview : bool
}.

Section Telegram.

(** How Telegram answers [bot.send_message(chat, text, ...)]. *)
Variable api : chat_id -> str -> result unit.

Variable TG_CHANNEL_CHAT_ID : chat_id.
Variable SEND_WATCHER_TO_USER : bool.
Variable DISABLE_WEB_PREVIEW : bool.

(** [await bot.send_message(chat, text,
    disable_web_page_preview=DISABLE_WEB_PREVIEW)]; [sent] holds the
    messages taken so far. *)
Definition send_message (chat : chat_id) (text : str) (sent : list message)
  : list message * result unit :=
  match api chat text with
  | Ok _ =>
      (sent ++ [{| m_chat := chat; m_text := text;
                   m_no_preview := DISABLE_WEB_PREVIEW |}], Ok tt)
  | Raise e => (sent, Raise e)
  end.

Definition send_to_targets (text : str) (user_chat_id : option chat_id)
           (force_user : bool) (sent : list message)
  : list message * result unit :=
  match send_message TG_CHANNEL_CHAT_ID text sent with
  | (sent, Raise e) => (sent, Raise e)
  | (sent, Ok _) =>
      match user_chat_id with
      | Some user =>
          if force_user || SEND_WATCHER_TO_USER
          then send_message user text sent
          else (sent, Ok tt)
      | None => (sent, Ok tt)
      end
  end.

End Telegram.

(** ** The folder of the mailbox: [_select_folder_try],
       [_select_folder_smart] *)

Definition ALL_MAIL : str := u "[Gmail]/Вся почта".
Definition INBOX : str := u "INBOX".

Section Folders.

(** How the server answers [c.select_folder(folder)]. *)
Variable server : str -> result unit.

Variable FOLDER : str.

(** [c.select_folder(folder)]; [tried] holds the folders asked for so
    far. *)
Definition select_folder (folder : str) (tried : list str)
  : list str * result unit :=
  (tried ++ [folder], server folder).

Definition _select_folder_try (folder : str) (tried : list str)
  : list str * bool :=
  match select_folder folder tried with
  | (tried, Ok _) => (tried, true)
  | (tried, Raise _) => (tried, false)
  end.

Definition _select_folder_smart (tried : list str) : list str * result str :=
  match _select_folder_try FOLDER tried with
  | (tried, true) => (tried, Ok FOLDER)
  | (tried, false) =>
      match _select_folder_try ALL_MAIL tried with
      | (tried, true) => (tried, Ok ALL_MAIL)
      | (tried, false) =>
          match select_folder INBOX tried with
          | (tried, Ok _) => (tried, Ok INBOX)
          | (tried, Raise e) => (tried, Raise e)
          end
      end
  end.

End Folders.

(** ** The pauses of [imap_idle_worker] between sessions *)

(** Where the exception that ends a session is raised: before the line
    [backoff = 5] (connection, login, folder, first fetch) or after it (in
    the loop of the wakes, which has no other way out). *)
Inductive session_end : Type :=
| BeforeReset
| AfterReset.

(** The arguments of [time.sleep(backoff)] over the sessions of the outer
    loop; [backoff] is the value at the start of the first of them. *)
Fixpoint worker_sleeps (backoff : Z) (sessions : list session_end) : list Z :=
  match sessions with
  | [] => []
  | s :: sessions' =>
      let backoff := match s with BeforeReset => backoff | AfterReset => 5 end in
      backoff :: worker_sleeps (Z.min (backoff * 2) 60) sessions'
  end.

(** ** The parts of a mail: [extract_parts] *)

(** One part of [msg.walk()]: [p.get_content_type()],
    [str(p.get("Content-Disposition", ""))] and the text
    [(p.get_payload(decode=True) or b"").decode(errors="ignore")]. *)
Record mime_part : Type := {
  content_type : str;
  content_disposition : str;
  payload_text : str
}.

(** [email.message_from_bytes(rfc822)]: the headers as [_decode_mime]
    returns them, [msg.is_multipart()], the parts of [msg.walk()] and the
    decoded payload of the message itself. *)
Record email_message : Type := {
  h_subject : str;
  h_from : str;
  h_date : str;
  is_multipart : bool;
  walk : list mime_part;
  payload : str
}.

(** One turn of [for p in msg.walk()]; the state is
    [(text_plain, text_html)]. *)
Definition walk_step (acc : str * str) (p : mime_part) : str * str :=
  if contains (u "attachment") (content_disposition p) then acc
  else if PyStr.eqb (content_type p) (u "text/plain") && negb (truthy (fst acc))
  then (payload_text p, snd acc)
  else if PyStr.eqb (content_type p) (u "text/html") && negb (truthy (snd acc))
  then (fst acc, payload_text p)
  else acc.

Definition extract_parts (msg : email_message) : parts :=
  let texts :=
    if is_multipart msg then fold_left walk_step (walk msg) ([], [])
    else (payload msg, []) in
  {| p_from := h_from msg; p_subject := h_subject msg; p_date := h_date msg;
     p_plain := fst texts; p_html := snd texts |}.

(** ** The watcher over the wakes of a process *)

(** A wake of the loop [while True: c.idle() ...]: what happened to the
    cursor since the wake before (the commands, and the first step of a
    new session), what the others do to it during the wake, the readings
    of the clock and the candidates that the wake fetched. *)
Record wake : Type := {
  since : others;
  during : nat -> others;
  clock_of : nat -> datetime;
  candidates : list candidate
}.

(** The loop over a sequence of wakes. A wake that raises ends the
    session; the next session starts the loop again, with the cursor in
    memory as it is. *)
Definition wakes_among {U : UnicodeData} (local_utcoffset : Z -> Z)
           (disk : json -> file -> disk_answer)
           (MAX_EMAIL_AGE_MINUTES : Z) (SEND_WATCHER_TO_USER : bool)
           (render : bytes -> result str)
           (ws : list wake) (st : State) : State :=
  fold_left
    (fun st w =>
       fst (drain_among local_utcoffset disk MAX_EMAIL_AGE_MINUTES
                        SEND_WATCHER_TO_USER render (during w) (clock_of w)
                        (candidates w) (meanwhile (since w) st)))
    ws st.


(** * The properties

    ** Their vocabulary *)

(** A candidate list in ascending order of [(dt, uid)]. *)
Definition ascending (items : list candidate) : Prop :=
  StronglySorted (fun c1 c2 => key_leb (key_of c1) (key_of c2) = true) items.

Definition aware_candidate (c : candidate) : Prop := aware (fst (fst c)) = true.

Definition aware_cursor (ls : option cursor) : Prop :=
  match ls with
  | Some l => aware (fst l) = true
  | None => True
  end.

(** A datetime as [_to_utc] returns it. *)
Definition utc_datetime (dt : datetime) : Prop :=
  tzinfo dt = utc /\ in_range (wall dt) = true.

Definition utc_candidate (c : candidate) : Prop := utc_datetime (fst (fst c)).

(** A reading of [datetime.now(timezone.utc)] from which the freshness
    bound [now - timedelta(minutes=m)] is a datetime. *)
Definition clock_ok (m : Z) (now : datetime) : Prop :=
  tzinfo now = utc /\ in_range (wall now) = true
  /\ in_range (wall now - m * US_PER_MINUTE) = true.

(** A timestamp within the freshness window of [m] minutes at [now]. *)
Definition fresh_at (m : Z) (now dt : datetime) : bool :=
  instant now - m * US_PER_MINUTE <=? instant dt.

(** A key strictly beyond the stored cursor; every key is beyond an unset
    cursor. *)
Definition beyond (ls : option cursor) (k : cursor) : bool :=
  match ls with
  | Some l => key_ltb l k
  | None => true
  end.

(** The candidates that are fresh and beyond the cursor, in the order of
    the list; the candidate of index [k] is judged at [clock k]. *)
Fixpoint fresh_beyond (m : Z) (clock : nat -> datetime) (k : nat)
         (ls : option cursor) (items : list candidate) : list candidate :=
  match items with
  | [] => []
  | c :: items' =>
      if fresh_at m (clock k) (fst (fst c)) && beyond ls (key_of c)
      then c :: fresh_beyond m clock (S k) ls items'
      else fresh_beyond m clock (S k) ls items'
  end.

(** What [_state_set_last_seen] writes for a UTC datetime, and the state
    file once it is written. *)
Definition cursor_json (dt : datetime) (uid : Z) : json :=
  JDict [(u "last_dt_iso", JStr (isoformat dt)); (u "last_uid", JInt uid)].

Definition saved (dt : datetime) (uid : Z) : file := Some (cursor_json dt uid).

(** The cursor in memory, when it is set, is the one that the state file
    holds. *)
Definition cursor_saved {U : UnicodeData} (local : Z -> Z) (st : State) : Prop :=
  forall c, _last_seen st = Some c ->
            _state_get_last_seen local (state_file st) = Ok (Some c).

(** The operation [op] never moves a cursor that is set backwards, and
    never unsets it. *)
Definition never_decreases (op : State -> State) : Prop :=
  forall st c, _last_seen st = Some c ->
  exists c', _last_seen (op st) = Some c' /\ key_leb c c' = true.

(** The others leave the cursor in memory as they find it. *)
Definition cursor_untouched (g : others) : Prop :=
  forall ls f, fst (g ls f) = ls.

(** A line as [lines_of] keeps it: not empty, and no white space first. *)
Definition stripped_line (l : str) : Prop :=
  exists c r, l = c :: r /\ isspace c = false.

(** The list without the later copies of its elements: the first
    occurrence of each is kept. [n] bounds the length of [l]. *)
Fixpoint dedup_n (n : nat) (l : list str) : list str :=
  match n, l with
  | S n', x :: l' => x :: dedup_n n' (filter (fun y => negb (PyStr.eqb x y)) l')
  | _, _ => []
  end.

Definition dedup (l : list str) : list str := dedup_n (List.length l) l.

(** The hyperlinks the specification asks for: the matching targets in
    document order, each once. *)
Definition project_links (hrefs : list str) : list str :=
  dedup (filter is_project_link (map strip hrefs)).

(** The links met so far are skipped, the others are kept once. *)
Fixpoint keep_unseen (seen l : list str) : list str :=
  match l with
  | [] => []
  | x :: l' =>
      if mem x seen then keep_unseen seen l'
      else x :: keep_unseen (x :: seen) l'
  end.

(** The month and the day of the day [n] of a year, counted from 0: the
    last lines of [_ord2ymd]. *)
Definition month_day (n : Z) (leapyear : bool) : Z * Z :=
  let month := Z.shiftr (n + 50) 5 in
  let preceding :=
    _DAYS_BEFORE_MONTH month + (if (month >? 2) && leapyear then 1 else 0) in
  if preceding >? n then
    let month := month - 1 in
    let preceding :=
      preceding
      - (_DAYS_IN_MONTH month + (if (month =? 2) && leapyear then 1 else 0)) in
    (month, n - preceding + 1)
  else (month, n - preceding + 1).

Definition month_day_ok (leapyear : bool) (n : Z) : bool :=
  let '(m, d) := month_day n leapyear in
  (1 <=? m) && (m <=? 12) && (1 <=? d)
  && (d <=? (if (m =? 2) && leapyear then 29 else _DAYS_IN_MONTH m))
  && (_DAYS_BEFORE_MONTH m + (if (m >? 2) && leapyear then 1 else 0) + d =? n + 1).

(** [f] holds of the [n] integers from [i] on. *)
Fixpoint check_from (f : Z -> bool) (n : nat) (i : Z) : bool :=
  match n with
  | O => true
  | S n' => if f i then check_from f n' (i + 1) else false
  end.

(** The fraction that [_format_time] writes after the seconds. *)
Definition fraction_text (us : Z) : str :=
  if us =? 0 then [] else [46] ++ fmt6 us.

(** ** Vocabulary of the further properties *)

(** What the tables of Unicode give for the decimal digits: the ASCII
    digits have their values, and a decimal digit has a value from 0 to 9
    and is neither white space nor a sign. *)
Definition digits_plain (U : UnicodeData) : Prop :=
  (forall k, 0 <= k <= 9 -> decimal_value (48 + k) = Some k)
  /\ (forall c d, decimal_value c = Some d ->
                 0 <= d <= 9 /\ isspace c = false /\ c <> 45 /\ c <> 43).

(** The number that a sequence of ASCII digits writes, after [acc]. *)
Definition digits_number (ds : str) (acc : Z) : Z :=
  fold_left (fun a c => a * 10 + (c - 48)) ds acc.

(** A text that is digits only, after a minus sign or not: what
    [r"-?\d+"] describes. *)
Definition all_digits {U : UnicodeData} (s : str) : bool :=
  truthy s && forallb is_digit s.

Definition signed_digits {U : UnicodeData} (s : str) : bool :=
  match s with
  | c :: ds => if c =? 45 then all_digits ds else all_digits s
  | [] => false
  end.

(** In the messages that Telegram took, none to a chat other than the
    channel comes first, and every such message comes right after the
    message with the same text to the channel. *)
Definition channel_first (channel : chat_id) (sent : list message) : Prop :=
  (forall m, nth_error sent 0 = Some m -> m_chat m = channel)
  /\ (forall i m,
        nth_error sent (S i) = Some m -> m_chat m <> channel ->
        exists m0, nth_error sent i = Some m0
                   /\ m_chat m0 = channel /\ m_text m0 = m_text m).

(** A part that [extract_parts] may read as the text of type [ctype]: not
    an attachment, and of that type. *)
Definition wanted (ctype : str) (p : mime_part) : bool :=
  negb (contains (u "attachment") (content_disposition p))
  && PyStr.eqb (content_type p) ctype.

(** The first text of the list that is not empty; the empty text when
    there is none. *)
Fixpoint first_nonempty (l : list str) : str :=
  match l with
  | [] => []
  | s :: l' => if truthy s then s else first_nonempty l'
  end.

(** A candidate list in which the keys [(dt, uid)] strictly increase: no
    two candidates share a key. *)
Definition strictly_ascending (items : list candidate) : Prop :=
  StronglySorted (fun c1 c2 => key_ltb (key_of c1) (key_of c2) = true) items.

(** The entries of the outbox for the texts of a wake of the watcher. *)
Definition handed (to_user : bool) (texts : list str) : list (str * bool) :=
  map (fun t => (t, to_user)) texts.

(** [texts] are the texts that [render] gives for the candidates
    [sent], in their order. *)
Definition rendered (render : bytes -> result str) (sent : list candidate)
           (texts : list str) : Prop :=
  map (fun c => render (snd c)) sent = map Ok texts.

(** A wake of the watcher as [_fetch_candidates] and the clock make it:
    readings of the clock from which the freshness bound is a datetime,
    and candidates with aware datetimes whose keys strictly increase. *)
Definition wake_ok (m : Z) (w : wake) : Prop :=
  (forall k, clock_ok m (clock_of w k))
  /\ Forall aware_candidate (candidates w)
  /\ strictly_ascending (candidates w).

(** The others leave a cursor that is set where it is or move it forward,
    and the datetime of the cursor stays aware. *)
Definition forward (g : others) : Prop :=
  forall ls f,
    aware_cursor ls ->
    aware_cursor (fst (g ls f))
    /\ forall c, ls = Some c ->
                 exists c', fst (g ls f) = Some c' /\ key_leb c c' = true.

(** The file system writes the state file whenever it is asked to. *)
Definition writable (disk : json -> file -> disk_answer) : Prop :=
  forall state f, disk state f = Replaced.

(** *** The HTML that Telegram reads

    With [parse_mode="HTML"] Telegram takes the tags [<b>], [<i>] and
    [<a href="...">], properly nested and closed, and asks that [<], [>]
    and [&] stand in a text only as parts of a tag or of one of the
    entities [&lt;], [&gt;], [&amp;], [&quot;] and the numeric ones, of
    which [html.escape] writes [&#x27;]. The reader below goes through a
    text one character at a time. *)

Inductive tag : Type := TagB | TagI | TagA.

Definition tag_eqb (a b : tag) : bool :=
  match a, b with
  | TagB, TagB | TagI, TagI | TagA, TagA => true
  | _, _ => false
  end.

(** Where the reader is: in a text, in the value of [href], after [&],
    after [<], after [</], or within a tag or an entity of which [lit] is
    still to come. [attr] tells whether the value of [href] goes on
    after it. *)
Inductive hmode : Type :=
| HText
| HAttr
| HAmp (attr : bool)
| HLt
| HSlash
| HExpect (lit : str) (attr : bool).

Record hstate : Type := {
  h_mode : hmode;
  h_open : list tag
}.

Definition after (attr : bool) : hmode := if attr then HAttr else HText.

Definition expect (lit : str) (attr : bool) (opened : list tag) : option hstate :=
  Some {| h_mode := HExpect lit attr; h_open := opened |}.

Definition close (t : tag) (opened : list tag) : option hstate :=
  match opened with
  | t' :: opened' => if tag_eqb t t' then expect [62] false opened' else None
  | [] => None
  end.

Definition hstep (st : hstate) (c : Z) : option hstate :=
  let o := h_open st in
  match h_mode st with
  | HText =>
      if c =? 38 then Some {| h_mode := HAmp false; h_open := o |}
      else if c =? 60 then Some {| h_mode := HLt; h_open := o |}
      else if c =? 62 then None
      else Some st
  | HAttr =>
      if c =? 38 then Some {| h_mode := HAmp true; h_open := o |}
      else if c =? 34 then expect [62] false o
      else if (c =? 60) || (c =? 62) then None
      else Some st
  | HAmp attr =>
      if c =? 97 then expect (u "mp;") attr o
      else if c =? 108 then expect (u "t;") attr o
      else if c =? 103 then expect (u "t;") attr o
      else if c =? 113 then expect (u "uot;") attr o
      else if c =? 35 then expect (u "x27;") attr o
      else None
  | HLt =>
      if c =? 98 then expect [62] false (TagB :: o)
      else if c =? 105 then expect [62] false (TagI :: o)
      else if c =? 97 then expect (32 :: u "href=" ++ [34]) true (TagA :: o)
      else if c =? 47 then Some {| h_mode := HSlash; h_open := o |}
      else None
  | HSlash =>
      if c =? 98 then close TagB o
      else if c =? 105 then close TagI o
      else if c =? 97 then close TagA o
      else None
  | HExpect lit attr =>
      match lit with
      | p :: lit' =>
          if c =? p
          then Some {| h_mode := match lit' with
                                 | [] => after attr
                                 | _ => HExpect lit' attr
                                 end;
                       h_open := o |}
          else None
      | [] => None
      end
  end.

Definition hrun (st : option hstate) (s : str) : option hstate :=
  fold_left (fun st c => match st with Some q => hstep q c | None => None end) s st.

Definition in_text (opened : list tag) : hstate :=
  {| h_mode := HText; h_open := opened |}.

Definition in_attr (opened : list tag) : hstate :=
  {| h_mode := HAttr; h_open := opened |}.

(** The reader ends in a text with every tag closed. *)
Definition telegram_html (s : str) : bool :=
  match hrun (Some (in_text [])) s with
  | Some {| h_mode := HText; h_open := [] |} => true
  | _ => false
  end.

(** The reader goes from [q] to [q'] over [s]. *)
Definition goes (q : hstate) (s : str) (q' : hstate) : Prop :=
  hrun (Some q) s = Some q'.

(** A state that the reader gets to: a tag or an entity still to come
    does not end with white space. *)
Definition hstate_ok (q : hstate) : Prop :=
  match h_mode q with
  | HExpect lit _ => exists b d, lit = b ++ [d] /\ isspace d = false
  | _ => True
  end.

(** *** The records of the parser *)

(** A handle of a buyer: at least three characters, each an ASCII letter,
    an ASCII digit, an underscore, a dot or a hyphen. *)
Definition handle_char (c : Z) : bool :=
  ((65 <=? c) && (c <=? 90)) || ((97 <=? c) && (c <=? 122))
  || ((48 <=? c) && (c <=? 57)) || (c =? 95) || (c =? 46) || (c =? 45).

Definition handle (s : str) : bool :=
  (3 <=? List.length s)%nat && forallb handle_char s.

(** The buyer and the hire note that the scan of a window holds. *)
Definition buyer_ok (b : option str) : Prop :=
  forall x, b = Some x -> handle x = true.

Definition hired_ok (lines : list str) (h : option str) : Prop :=
  forall x, h = Some x -> In x lines /\ contains (u "%") x = true.

(** A record as the scan of [lines] makes it. *)
Definition record_ok {U : UnicodeData} (lines : list str) (p : project) : Prop :=
  (In (title p) lines /\ boilerplate (title p) = false)
  /\ (exists c, category p = Some c /\ In c lines /\ contains (u ">") c = true)
  /\ (exists line, In line lines /\ price_line line = true
                   /\ price p = Some (strip (replace_char ER [ROUBLE] line))
                   /\ truthy (strip (replace_char ER [ROUBLE] line)) = true)
  /\ buyer_ok (buyer p)
  /\ hired_ok lines (hired p)
  /\ url p = None.

(** A pattern without a group. *)
Fixpoint group_free (r : regex) : bool :=
  match r with
  | Group _ => false
  | Seq r1 r2 | Alt r1 r2 => group_free r1 && group_free r2
  | _ => true
  end.

(** The uid of a candidate. *)
Definition uid_of (c : candidate) : Z := snd (fst c).

(** A record without its url. *)
Definition without_url (p : project) : project :=
  {| title := title p; category := category p; buyer := buyer p;
     hired := hired p; price := price p; url := None |}.

(** ** Data of the examples *)


(** 2024-01-02T03:04:05+00:00 *)
Definition now0 : datetime := {| wall := 63839761445000000; tzinfo := utc |}.

Definition hours_before (h : Z) : datetime :=
  {| wall := wall now0 - h * US_PER_HOUR; tzinfo := utc |}.

(** Three candidates in ascending order: one older than the window of 600
    minutes, the one the cursor stands on, and a newer one. *)
Definition c_stale : candidate := (hours_before 11, 5, [1]).
Definition c_seen : candidate := (hours_before 5, 7, [2]).
Definition c_new : candidate := (hours_before 1, 9, [3]).
Definition items0 : list candidate := [c_stale; c_seen; c_new].

(** A system whose time zone is UTC. *)
Definition utc_system (w : Z) : Z := 0.

(** A file system that writes the state file, one that is full, and one
    in which the directory of the state file cannot be made. *)
Definition disk_ok (state : json) (f : file) : disk_answer := Replaced.
Definition disk_full (state : json) (f : file) : disk_answer := NotReplaced.
Definition disk_no_dir (state : json) (f : file) : disk_answer :=
  NoDirectory OSError.

(** A mailbox that holds them: the search gives the uids in another order,
    the dates are as the server gives them, one mail has no content. *)
Definition uids0 : list Z := [9; 5; 6; 7].

Definition fetched0 (uid : Z) : option fetch_item :=
  if uid =? 5 then
    Some {| INTERNALDATE := Some {| wall := wall (hours_before 11); tzinfo := None |};
            RFC822 := Some [1] |}
  else if uid =? 6 then
    Some {| INTERNALDATE := Some (hours_before 6); RFC822 := None |}
  else if uid =? 7 then
    Some {| INTERNALDATE := Some {| wall := wall (hours_before 2);
                                    tzinfo := Some (3 * US_PER_HOUR) |};
            RFC822 := Some [2] |}
  else if uid =? 9 then
    Some {| INTERNALDATE := Some (hours_before 1); RFC822 := Some [3] |}
  else None.

Definition render0 (raw : bytes) : result str := Ok raw.

Definition st_unset : State :=
  {| _last_seen := None; state_file := None; outbox := [] |}.

Definition st_seen : State :=
  {| _last_seen := Some (key_of c_seen);
     state_file := saved (hours_before 5) 7; outbox := [] |}.

(** What a wake of the watcher on [items0] does to the cursor and to the
    state file. *)
Definition wake_meanwhile : others :=
  fun ls f =>
    let st := fst (drain utc_system disk_ok 600 false render0 (fun _ => now0) items0
                         {| _last_seen := ls; state_file := f; outbox := [] |}) in
    (_last_seen st, state_file st).

(** The cursor on the stale mail, and the mailbox as it was before the
    newest mail came. *)
Definition st_behind : State :=
  {| _last_seen := Some (key_of c_stale);
     state_file := saved (hours_before 11) 5; outbox := [] |}.
Definition items_before : list candidate := [c_stale; c_seen].

(** 2024-01-02T03:04:05+03:00 and the same instant in UTC. *)
Definition dt_moscow : datetime :=
  {| wall := 63839761445000000; tzinfo := Some (3 * US_PER_HOUR) |}.
Definition dt_moscow_utc : datetime :=
  {| wall := 63839761445000000 - 3 * US_PER_HOUR; tzinfo := utc |}.

Definition listing_text : str := u "+108 новых подходящих проектов
Название
Покупатель
Цена
Сделать сайт
Разработка > Сайты
v v_ritme 1
Нанято 50%
1 000 Р
Логотип
Дизайн > Логотипы
500 ₽
Текст
Тексты > Статьи
300 ₽
Отписаться".

Definition link1 : str := u "https://kwork.ru/new_offer?project=101".
Definition link2 : str := u "https://kwork.ru/new_offer?project=102".

Definition mail0 : parts :=
  {| p_from := u "news@kwork.ru"; p_subject := u "Kwork"; p_date := [];
     p_plain := []; p_html := u "<html>" |}.

Definition text_of_mail0 (html : str) : str := listing_text.
Definition anchors_of_mail0 (html : str) : list str :=
  [link1; u " https://kwork.ru/new_offer?project=102 "; link1;
   u "https://kwork.ru/settings"].

(** The Cyrillic small letter that [ER] is the capital of. *)
Definition er_small : Z := 1088.

(** A total whose digits are separated by a no-break space, and the price
    of a project written with the lower case letter. *)
Definition total_nbsp_text : str :=
  u "За последние 6 дней на бирже размещено 1" ++ [160] ++ u "886 новых проектов".
Definition lowercase_price_text : str := u "Сделать сайт
Разработка > Сайты
500 р".

(** A channel, a user and two servers. *)
Definition channel0 : chat_id := ChatName (u "@kwork_checker").
Definition user0 : chat_id := ChatInt 42.

Definition api_ok (chat : chat_id) (text : str) : result unit := Ok tt.

(** A server that has no folder [KWORK_PROJECTS] and no folder for all
    mail. *)
Definition inbox_only (folder : str) : result unit :=
  if PyStr.eqb folder INBOX then Ok tt else Raise ValueError.

(** A multipart mail: the container, an attached text, an empty text
    part, the text and the HTML. *)
Definition msg0 : email_message :=
  {| h_subject := u "Kwork"; h_from := u "news@kwork.ru"; h_date := [];
     is_multipart := true;
     walk := [ {| content_type := u "multipart/alternative";
                  content_disposition := []; payload_text := [] |};
               {| content_type := u "text/plain";
                  content_disposition := u "attachment; filename=a.txt";
                  payload_text := u "attached" |};
               {| content_type := u "text/plain";
                  content_disposition := []; payload_text := [] |};
               {| content_type := u "text/plain";
                  content_disposition := u "inline"; payload_text := u "plain" |};
               {| content_type := u "text/html";
                  content_disposition := []; payload_text := u "<p>html</p>" |};
               {| content_type := u "text/plain";
                  content_disposition := []; payload_text := u "later" |} ];
     payload := [] |}.

(** A mail that is not multipart and whose payload is HTML. *)
Definition msg_html_only : email_message :=
  {| h_subject := u "Kwork"; h_from := u "news@kwork.ru"; h_date := [];
     is_multipart := false; walk := [];
     payload := u "<a href='https://kwork.ru/new_offer?project=1'>x</a>" |}.

(** The cursor on the stale mail: two mails of the mailbox are fresh and
    not yet handed over. *)
Definition st_stale : State :=
  {| _last_seen := Some (key_of c_stale);
     state_file := saved (hours_before 11) 5; outbox := [] |}.

(** The state after [/now] sent the newest mail from there. *)
Definition st_after_now : State :=
  {| _last_seen := Some (key_of c_new);
     state_file := saved (hours_before 1) 9; outbox := [([3], true)] |}.

(** The state after a wake of the watcher from [st_stale]. *)
Definition st_after_wake : State :=
  {| _last_seen := Some (key_of c_new);
     state_file := saved (hours_before 1) 9;
     outbox := [([2], false); ([3], false)] |}.

(** A command that leaves the cursor on the newest mail when it is
    behind it, as [/now] does when nobody writes the cursor during it, and
    one that puts the cursor on the mail of uid 7, as [/reset_state] does
    in a mailbox whose newest mail it is. *)
Definition now_of_the_user : others :=
  fun ls f =>
    match ls with
    | Some c => if key_leb c (key_of c_new) then (Some (key_of c_new), f)
                else (Some c, f)
    | None => (Some (key_of c_new), f)
    end.

Definition back_to_seen : others := fun ls f => (Some (key_of c_seen), f).

(** A wake that fetches the mailbox, nobody else writing. *)
Definition wake0 : wake :=
  {| since := alone; during := fun _ => alone;
     clock_of := fun _ => now0; candidates := items0 |}.

(** Two wakes that fetch the same mailbox, with a [/now] between them. *)
Definition wakes0 : list wake :=
  [wake0;
   {| since := now_of_the_user; during := fun _ => alone;
      clock_of := fun _ => now0; candidates := items0 |}].

(** A wake on the same mailbox after the cursor was put back. *)
Definition wake_after_move_back : wake :=
  {| since := back_to_seen; during := fun _ => alone;
     clock_of := fun _ => now0; candidates := items0 |}.

(** A parse result whose fields hold characters of HTML. *)
Definition data_markup : parse_result :=
  {| available := Some 108; total := Some 1886; timeframe := Some (u "6 <дней>");
     projects :=
       [ {| title := u "Сайт <b>под ключ</b> & логотип";
            category := Some (u "Разработка > Сайты");
            buyer := Some (u "v_ritme"); hired := Some (u "Нанято 50%");
            price := Some (u "1 000 ₽");
            url := Some [104; 116; 116; 112; 115; 58; 47; 47; 107; 119; 111; 114;
                         107; 46; 114; 117; 47; 63; 97; 61; 34; 62; 38; 98] |} ] |}.

(** ** The watcher's selection of new candidates *)

Lemma timedelta_minutes_ok (m w : Z) :
  in_range w = true -> in_range (w - m * US_PER_MINUTE) = true ->
  timedelta_minutes m = Ok (m * US_PER_MINUTE).
Proof.
  unfold in_range, timedelta_minutes, MAXORDINAL, US_PER_DAY, US_PER_MINUTE.
  intros Hw Hb.
  apply andb_true_iff in Hw, Hb. destruct Hw as [Hw1 Hw2], Hb as [Hb1 Hb2].
  apply Z.leb_le in Hw1, Hb1. apply Z.ltb_lt in Hw2, Hb2.
  assert (H1 : -999999999 <= m * 60000000 / 86400000000).
  { apply Z.div_le_lower_bound; lia. }
  assert (H2 : m * 60000000 / 86400000000 <= 999999999).
  { apply Z.div_le_upper_bound; lia. }
  apply Z.leb_le in H1, H2. rewrite H1, H2. reflexivity.
Qed.

Lemma is_fresh_eval (M : Z) (now dt : datetime) :
  clock_ok M now -> aware dt = true ->
  _is_fresh M now dt = Ok (fresh_at M now dt).
Proof.
  intros (Hutc & Hnow & Hb) Hdt. unfold _is_fresh, fresh_at.
  rewrite (timedelta_minutes_ok M (wall now) Hnow Hb). cbn [bind].
  unfold sub_timedelta. rewrite Hb. cbn [bind].
  unfold dt_geb, dt_leb, aware, instant in *. cbn [tzinfo wall].
  rewrite Hutc in *. unfold utc.
  destruct (tzinfo dt) as [off|]; [|discriminate].
  cbn. do 2 f_equal. lia.
Qed.

Lemma tuple_le_aware (a b : cursor) :
  aware (fst a) = true -> aware (fst b) = true ->
  tuple_le a b = Ok (key_leb a b).
Proof.
  intros Ha Hb. unfold tuple_le, dt_eqb, dt_leb, key_leb.
  rewrite Ha, Hb. cbn [Bool.eqb andb].
  destruct (Z.eqb_spec (instant (fst a)) (instant (fst b))) as [E|E].
  - rewrite E, Z.ltb_irrefl. reflexivity.
  - f_equal. rewrite andb_false_l, orb_false_r.
    destruct (Z.leb_spec (instant (fst a)) (instant (fst b)));
      destruct (Z.ltb_spec (instant (fst a)) (instant (fst b))); try reflexivity; lia.
Qed.

Lemma key_leb_refl (a : cursor) : key_leb a a = true.
Proof.
  unfold key_leb. rewrite Z.eqb_refl, Z.leb_refl, orb_true_r. reflexivity.
Qed.

Lemma key_leb_spec (a b : cursor) :
  key_leb a b = true <->
  instant (fst a) < instant (fst b)
  \/ (instant (fst a) = instant (fst b) /\ snd a <= snd b).
Proof.
  unfold key_leb. rewrite orb_true_iff, andb_true_iff, Z.ltb_lt, Z.eqb_eq, Z.leb_le.
  reflexivity.
Qed.

Lemma key_leb_trans (a b c : cursor) :
  key_leb a b = true -> key_leb b c = true -> key_leb a c = true.
Proof. rewrite !key_leb_spec. lia. Qed.

Lemma key_ltb_spec (a b : cursor) :
  key_ltb a b = true <->
  instant (fst a) < instant (fst b)
  \/ (instant (fst a) = instant (fst b) /\ snd a < snd b).
Proof.
  unfold key_ltb. rewrite negb_true_iff, <- not_true_iff_false, key_leb_spec. lia.
Qed.

Lemma select_new_eval (M : Z) (clock : nat -> datetime) (ls : option cursor)
      (items : list candidate) :
  (forall k, clock_ok M (clock k)) -> aware_cursor ls ->
  Forall aware_candidate items ->
  forall k, select_new M clock k ls items = Ok (fresh_beyond M clock k ls items).
Proof.
  intros Hclock Hls Hitems. induction Hitems as [|c items Hc _ IH]; intros k.
  - reflexivity.
  - cbn [select_new fresh_beyond].
    rewrite (is_fresh_eval M (clock k) _ (Hclock k) Hc). cbn [bind].
    destruct (fresh_at M (clock k) (fst (fst c))); cbn [negb andb]; [|apply IH].
    destruct ls as [l|]; cbn [beyond].
    + rewrite (tuple_le_aware (key_of c) l Hc Hls). cbn [bind].
      unfold key_ltb. destruct (key_leb (key_of c) l); cbn [negb]; [apply IH|].
      rewrite IH. reflexivity.
    + cbn [bind]. rewrite IH. reflexivity.
Qed.

Lemma fresh_beyond_In (M : Z) (clock : nat -> datetime) (ls : option cursor)
      (items : list candidate) (c : candidate) :
  forall k,
  In c (fresh_beyond M clock k ls items) <->
  exists i, nth_error items i = Some c
            /\ fresh_at M (clock (k + i)%nat) (fst (fst c)) = true
            /\ beyond ls (key_of c) = true.
Proof.
  induction items as [|x items IH]; intros k; cbn [fresh_beyond].
  - split; [intros []|]. intros (i & Hi & _). destruct i; discriminate.
  - destruct (fresh_at M (clock k) (fst (fst x)) && beyond ls (key_of x)) eqn:E.
    + cbn [In]. rewrite IH. split.
      * intros [->|(i & Hi & Hf & Hb)].
        -- exists 0%nat. apply andb_true_iff in E. rewrite Nat.add_0_r. tauto.
        -- exists (S i). rewrite Nat.add_succ_r. cbn. tauto.
      * intros (i & Hi & Hf & Hb). destruct i as [|i].
        -- left. cbn in Hi. congruence.
        -- right. exists i. rewrite Nat.add_succ_r in Hf. cbn in Hi. tauto.
    + rewrite IH. split.
      * intros (i & Hi & Hf & Hb). exists (S i). rewrite Nat.add_succ_r. cbn. tauto.
      * intros (i & Hi & Hf & Hb). destruct i as [|i].
        -- cbn in Hi. injection Hi as ->. rewrite Nat.add_0_r in Hf.
           rewrite Hf, Hb in E. discriminate.
        -- exists i. rewrite Nat.add_succ_r in Hf. cbn in Hi. tauto.
Qed.

Lemma last_item_cons (x : candidate) (items : list candidate) :
  last_item (x :: items) = match items with [] => Some x | _ => last_item items end.
Proof.
  unfold last_item. destruct items as [|y items]; [reflexivity|].
  cbn [List.length]. replace (S (S (List.length items)) - 1)%nat with (S (List.length items)) by lia.
  replace (S (List.length items) - 1)%nat with (List.length items) by lia. reflexivity.
Qed.

Lemma ascending_below_last (items : list candidate) (c : candidate) :
  ascending items -> last_item items = Some c ->
  Forall (fun x => key_leb (key_of x) (key_of c) = true) items.
Proof.
  intros Hs. induction Hs as [|x items Hs IH Hx]; intros Hl.
  - constructor.
  - rewrite last_item_cons in Hl. destruct items as [|y items'].
    + injection Hl as <-. constructor; [apply key_leb_refl|constructor].
    + constructor; [|apply IH, Hl].
      rewrite Forall_forall in Hx. apply Hx.
      unfold last_item in Hl. apply nth_error_In in Hl. exact Hl.
Qed.

Lemma fresh_beyond_none (M : Z) (clock : nat -> datetime) (cur : cursor)
      (items : list candidate) :
  Forall (fun x => key_leb (key_of x) cur = true) items ->
  forall k, fresh_beyond M clock k (Some cur) items = [].
Proof.
  induction 1 as [|x items Hx _ IH]; intros k; cbn [fresh_beyond beyond].
  - reflexivity.
  - unfold key_ltb at 1. rewrite Hx. cbn [negb]. rewrite andb_false_r. apply IH.
Qed.

Lemma key_ltb_trans (a b c : cursor) :
  key_ltb a b = true -> key_ltb b c = true -> key_ltb a c = true.
Proof. rewrite !key_ltb_spec. lia. Qed.

Lemma fresh_at_earlier (M : Z) (now1 now2 dt : datetime) :
  instant now1 <= instant now2 ->
  fresh_at M now2 dt = true -> fresh_at M now1 dt = true.
Proof. unfold fresh_at. rewrite !Z.leb_le. lia. Qed.

Lemma fresh_beyond_Forall (P : candidate -> Prop) (M : Z) (clock : nat -> datetime)
      (ls : option cursor) (items : list candidate) :
  Forall P items -> forall k, Forall P (fresh_beyond M clock k ls items).
Proof.
  induction 1 as [|c items Hc _ IH]; intros k; cbn [fresh_beyond].
  - constructor.
  - destruct (fresh_at M (clock k) (fst (fst c)) && beyond ls (key_of c)).
    + constructor; [exact Hc|apply IH].
    + apply IH.
Qed.

Lemma fresh_beyond_ascending (M : Z) (clock : nat -> datetime)
      (ls : option cursor) (items : list candidate) :
  ascending items -> forall k, ascending (fresh_beyond M clock k ls items).
Proof.
  unfold ascending. induction 1 as [|c items Hs IH Hc]; intros k; cbn [fresh_beyond].
  - constructor.
  - destruct (fresh_at M (clock k) (fst (fst c)) && beyond ls (key_of c)).
    + constructor; [apply IH|]. apply fresh_beyond_Forall, Hc.
    + apply IH.
Qed.

(** What [set_cursor] leaves in memory. *)
Lemma set_cursor_last_seen (local : Z -> Z)
      (disk : json -> file -> disk_answer) (dt : datetime) (uid : Z) (st : State) :
  _last_seen (fst (set_cursor local disk dt uid st)) = Some (dt, uid).
Proof.
  unfold set_cursor. cbn [_last_seen state_file outbox].
  destruct (_state_set_last_seen local disk dt uid (state_file st)); reflexivity.
Qed.

(** After a loop over [new_items] that ends without exception the cursor
    is the key of the last of them. *)
Lemma deliver_done (local : Z -> Z)
      (disk : json -> file -> disk_answer) (to_user : bool) (render : bytes -> result str)
      (new_items : list candidate) :
  forall st st',
  deliver local disk to_user render new_items st = (st', Ok tt) ->
  _last_seen st' = match last_item new_items with
                   | Some c => Some (key_of c)
                   | None => _last_seen st
                   end.
Proof.
  induction new_items as [|x new_items IH]; intros st st'; cbn [deliver].
  - intros [= <-]. reflexivity.
  - destruct x as [[dt uid] raw]. destruct (render raw) as [text|]; [|discriminate].
    pose proof (set_cursor_last_seen local disk dt uid (send text to_user st)) as E.
    destruct (set_cursor local disk dt uid (send text to_user st)) as [st1 [[]|e]];
      [|discriminate].
    cbn [fst] in E. intros D. rewrite (IH st1 st' D), last_item_cons.
    destruct new_items as [|y l]; [exact E|].
    destruct (last_item (y :: l)) eqn:L; [reflexivity|].
    unfold last_item in L. apply nth_error_None in L. cbn in L. lia.
Qed.

Lemma fresh_beyond_nil (M : Z) (clock : nat -> datetime) (ls : option cursor)
      (items : list candidate) :
  (forall i c, nth_error items i = Some c ->
               fresh_at M (clock i) (fst (fst c)) = true ->
               beyond ls (key_of c) = true -> False) ->
  fresh_beyond M clock 0 ls items = [].
Proof.
  intros H. destruct (fresh_beyond M clock 0 ls items) as [|x l] eqn:E;
    [reflexivity|exfalso].
  assert (In x (fresh_beyond M clock 0 ls items)) as I by (rewrite E; left; reflexivity).
  apply fresh_beyond_In in I. destruct I as (i & Hi & Hf & Hb).
  apply (H i x Hi Hf Hb).
Qed.

(** A second run, at later readings of the clock, after a drain that went
    through, selects nothing. *)
Lemma replay_selects_nothing
      (local : Z -> Z)
      (disk : json -> file -> disk_answer) (M : Z) (to_user : bool) (render : bytes -> result str)
      (clock clock2 : nat -> datetime) (items : list candidate) (st st' : State) :
  (forall k, clock_ok M (clock k)) -> (forall k, clock_ok M (clock2 k)) ->
  (forall k, instant (clock k) <= instant (clock2 k)) ->
  aware_cursor (_last_seen st) -> Forall aware_candidate items -> ascending items ->
  drain local disk M to_user render clock items st = (st', Ok tt) ->
  select_new M clock2 0 (_last_seen st') items = Ok [].
Proof.
  intros Hc1 Hc2 Hlater Hls Hitems Hs. unfold drain.
  rewrite (select_new_eval M clock (_last_seen st) items Hc1 Hls Hitems 0%nat).
  set (new_items := fresh_beyond M clock 0 (_last_seen st) items).
  intros D. pose proof (deliver_done local disk to_user render new_items st st' D) as E.
  assert (Hnew : forall c, In c new_items ->
                           aware_candidate c /\ beyond (_last_seen st) (key_of c) = true).
  { intros c I. split.
    - pose proof (fresh_beyond_Forall aware_candidate M clock (_last_seen st)
                    items Hitems 0%nat) as A.
      rewrite Forall_forall in A. apply A, I.
    - apply fresh_beyond_In in I. destruct I as (i & _ & _ & Hb). exact Hb. }
  assert (Hls' : aware_cursor (_last_seen st')).
  { rewrite E. destruct (last_item new_items) as [z|] eqn:L; [|exact Hls].
    apply (Hnew z). unfold last_item in L. apply nth_error_In in L. exact L. }
  rewrite (select_new_eval M clock2 (_last_seen st') items Hc2 Hls' Hitems 0%nat).
  f_equal. apply fresh_beyond_nil. intros i c Hi Hf Hb.
  apply (fresh_at_earlier M (clock i) (clock2 i) _ (Hlater i)) in Hf.
  rewrite E in Hb. destruct (last_item new_items) as [z|] eqn:L.
  - assert (Iz : In z new_items).
    { unfold last_item in L. apply nth_error_In in L. exact L. }
    cbn [beyond] in Hb.
    assert (Hbc : beyond (_last_seen st) (key_of c) = true).
    { destruct (Hnew z Iz) as [_ Hbz]. destruct (_last_seen st) as [l|]; [|reflexivity].
      cbn [beyond] in *. eapply key_ltb_trans; eassumption. }
    assert (Ic : In c new_items).
    { apply fresh_beyond_In. exists i. auto. }
    pose proof (ascending_below_last new_items z
                  (fresh_beyond_ascending M clock (_last_seen st) items Hs 0%nat) L) as B.
    rewrite Forall_forall in B. specialize (B c Ic). cbn beta in B.
    unfold key_ltb in Hb. rewrite B in Hb. discriminate.
  - assert (Ic : In c new_items).
    { apply fresh_beyond_In. exists i. auto. }
    unfold last_item in L. apply nth_error_None in L.
    destruct new_items; [destruct Ic|cbn in L; lia].
Qed.

(** C1. For every cursor and every candidate list in ascending order of
    (timestamp, uid), the loop of the watcher that fills [new_items] returns
    exactly the candidates that are fresh and whose key is strictly beyond
    the cursor, in the order of the list; and once the cursor has reached
    the key of the last candidate, the greatest of the list, or passed it,
    a run over the same list returns none, as does a second run after a
    drain that went through. *)
Theorem drain_selects_fresh_beyond_cursor
        (M : Z) (clock : nat -> datetime) (ls : option cursor)
        (items : list candidate) :
  (forall k, clock_ok M (clock k)) -> aware_cursor ls ->
  Forall aware_candidate items -> ascending items ->
  select_new M clock 0 ls items = Ok (fresh_beyond M clock 0 ls items)
  /\ (forall c, In c (fresh_beyond M clock 0 ls items) <->
                exists i, nth_error items i = Some c
                          /\ fresh_at M (clock i) (fst (fst c)) = true
                          /\ beyond ls (key_of c) = true)
  /\ (forall cur newest,
         ls = Some cur -> last_item items = Some newest ->
         key_leb (key_of newest) cur = true ->
         select_new M clock 0 ls items = Ok [])
  /\ (forall local disk to_user render st st' clock2,
         _last_seen st = ls ->
         drain local disk M to_user render clock items st = (st', Ok tt) ->
         (forall k, clock_ok M (clock2 k)) ->
         (forall k, instant (clock k) <= instant (clock2 k)) ->
         select_new M clock2 0 (_last_seen st') items = Ok []).
Proof.
  intros Hclock Hls Hitems Hs.
  pose proof (select_new_eval M clock ls items Hclock Hls Hitems 0%nat) as Heval.
  split; [exact Heval|]. split; [|split].
  - intros c. apply (fresh_beyond_In M clock ls items c 0%nat).
  - intros cur newest -> Hlast Hle. rewrite Heval. f_equal.
    apply fresh_beyond_none.
    eapply Forall_impl; [|apply (ascending_below_last items newest Hs Hlast)].
    intros x Hx. cbn beta in Hx. eapply key_leb_trans; eassumption.
  - intros local disk to_user render st st' clock2 <- D Hc2 Hlater.
    apply (replay_selects_nothing local disk M to_user render clock clock2 items st st');
      assumption.
Qed.

Lemma drain_witness :
  ((forall k : nat, clock_ok 600 ((fun _ => now0) k))
   /\ aware_cursor (Some (key_of c_seen))
   /\ Forall aware_candidate items0 /\ ascending items0)
  /\ select_new 600 (fun _ => now0) 0 (Some (key_of c_seen)) items0 = Ok [c_new]
  /\ select_new 600 (fun _ => now0) 0
       (_last_seen (fst (drain utc_system disk_ok 600 false render0 (fun _ => now0)
                               items0 st_seen)))
       items0 = Ok [].
Proof.
  assert (H1 : forall k : nat, clock_ok 600 ((fun _ => now0) k)).
  { intros k. repeat split. }
  assert (H2 : aware_cursor (Some (key_of c_seen))) by reflexivity.
  assert (H3 : Forall aware_candidate items0) by (repeat constructor).
  assert (H4 : ascending items0) by (repeat constructor).
  split; [auto|].
  destruct (drain_selects_fresh_beyond_cursor 600 (fun _ => now0)
              (Some (key_of c_seen)) items0 H1 H2 H3 H4) as (E & _ & _ & R).
  split; [rewrite E; reflexivity|].
  apply (R utc_system disk_ok false render0 st_seen _ (fun _ => now0)).
  - reflexivity.
  - reflexivity.
  - exact H1.
  - intros k. apply Z.le_refl.
Defined.

(** ** The freshness bound *)

(** C4. A candidate whose timestamp is exactly
    [now - MAX_EMAIL_AGE_MINUTES] is fresh; a candidate that is a minute
    older than that bound, or more, is not. *)
Theorem is_fresh_boundary (M : Z) (now dt : datetime) :
  clock_ok M now -> aware dt = true ->
  (instant dt = instant now - M * US_PER_MINUTE -> _is_fresh M now dt = Ok true)
  /\ (instant dt <= instant now - M * US_PER_MINUTE - US_PER_MINUTE ->
      _is_fresh M now dt = Ok false).
Proof.
  intros Hnow Hdt. rewrite (is_fresh_eval M now dt Hnow Hdt). unfold fresh_at.
  split; intros H; f_equal.
  - apply Z.leb_le. lia.
  - apply Z.leb_gt. unfold US_PER_MINUTE in *. lia.
Qed.

Lemma is_fresh_witness :
  (clock_ok 600 now0 /\ aware (hours_before 10) = true)
  /\ _is_fresh 600 now0 (hours_before 10) = Ok true
  /\ _is_fresh 600 now0 {| wall := wall (hours_before 10) - US_PER_MINUTE;
                            tzinfo := utc |} = Ok false.
Proof.
  assert (H : clock_ok 600 now0) by (repeat split).
  split; [split; [exact H|reflexivity]|]. split.
  - apply (is_fresh_boundary 600 now0 (hours_before 10) H); reflexivity.
  - apply (is_fresh_boundary 600 now0
             {| wall := wall (hours_before 10) - US_PER_MINUTE; tzinfo := utc |} H).
    + reflexivity.
    + vm_compute. discriminate.
Defined.

(** ** The calendar of [datetime] *)

Lemma check_from_spec (f : Z -> bool) (n : nat) :
  forall i, check_from f n i = true ->
  forall j, i <= j < i + Z.of_nat n -> f j = true.
Proof.
  induction n as [|n IH]; intros i H j Hj; [lia|].
  cbn [check_from] in H. destruct (f i) eqn:E; [|discriminate].
  destruct (Z.eq_dec j i) as [->|Hne]; [exact E|].
  apply (IH (i + 1) H). lia.
Qed.

Lemma month_day_checked (leapyear : bool) (n : Z) :
  0 <= n < 365 -> month_day_ok leapyear n = true.
Proof.
  intros H.
  assert (C : check_from (fun i => month_day_ok true i && month_day_ok false i)
                         365 0 = true) by (vm_compute; reflexivity).
  pose proof (check_from_spec _ _ _ C n ltac:(lia)) as Hn. cbn beta in Hn.
  apply andb_true_iff in Hn. destruct leapyear; tauto.
Qed.

Lemma ord2ymd_eq (n : Z) :
  _ord2ymd n =
  let n400 := (n - 1) / 146097 in
  let r400 := (n - 1) mod 146097 in
  let n100 := r400 / 36524 in
  let r100 := r400 mod 36524 in
  let n4 := r100 / 1461 in
  let r4 := r100 mod 1461 in
  let n1 := r4 / 365 in
  let r1 := r4 mod 365 in
  let year := n400 * 400 + 1 + (n100 * 100 + n4 * 4 + n1) in
  if (n1 =? 4) || (n100 =? 4) then (year - 1, 12, 31)
  else
    let md := month_day r1 ((n1 =? 3) && (negb (n4 =? 24) || (n100 =? 3))) in
    (year, fst md, snd md).
Proof.
  unfold _ord2ymd, month_day, _DI400Y, _DI100Y, _DI4Y. cbv zeta.
  destruct ((_ =? 4) || (_ =? 4)); [reflexivity|].
  destruct (_ >? _); reflexivity.
Qed.

Lemma is_leap_parts (n400 n100 n4 n1 : Z) :
  0 <= n400 -> 0 <= n100 <= 3 -> 0 <= n4 <= 24 -> 0 <= n1 <= 3 ->
  _is_leap (n400 * 400 + 1 + (n100 * 100 + n4 * 4 + n1))
  = (n1 =? 3) && (negb (n4 =? 24) || (n100 =? 3)).
Proof.
  intros H400 H100 H4 H1. unfold _is_leap.
  set (y := n400 * 400 + 1 + (n100 * 100 + n4 * 4 + n1)).
  assert (E4 : y mod 4 = (n1 + 1) mod 4).
  { unfold y. replace (n400 * 400 + 1 + (n100 * 100 + n4 * 4 + n1))
      with (n1 + 1 + (n400 * 100 + n100 * 25 + n4) * 4) by lia.
    apply Z_mod_plus_full. }
  assert (E100 : y mod 100 = (n4 * 4 + n1 + 1) mod 100).
  { unfold y. replace (n400 * 400 + 1 + (n100 * 100 + n4 * 4 + n1))
      with (n4 * 4 + n1 + 1 + (n400 * 4 + n100) * 100) by lia.
    apply Z_mod_plus_full. }
  assert (E400 : y mod 400 = (n100 * 100 + n4 * 4 + n1 + 1) mod 400).
  { unfold y. replace (n400 * 400 + 1 + (n100 * 100 + n4 * 4 + n1))
      with (n100 * 100 + n4 * 4 + n1 + 1 + n400 * 400) by lia.
    apply Z_mod_plus_full. }
  rewrite E4, E100, E400.
  destruct (Z.eqb_spec n1 3) as [->|N1].
  - cbn [andb]. replace ((3 + 1) mod 4) with 0 by reflexivity. cbn [Z.eqb andb].
    destruct (Z.eqb_spec n4 24) as [->|N4]; cbn [negb orb].
    + replace ((24 * 4 + 3 + 1) mod 100) with 0 by reflexivity. cbn [Z.eqb negb orb].
      destruct (Z.eqb_spec n100 3) as [->|N100].
      * reflexivity.
      * apply Z.eqb_neq. rewrite Z.mod_small by lia. lia.
    + assert ((n4 * 4 + 3 + 1) mod 100 <> 0).
      { rewrite Z.mod_small by lia. lia. }
      apply Z.eqb_neq in H. rewrite H. reflexivity.
  - cbn [andb]. assert ((n1 + 1) mod 4 <> 0).
    { rewrite Z.mod_small by lia. lia. }
    apply Z.eqb_neq in H. rewrite H. reflexivity.
Qed.

Lemma days_before_year_parts (n400 n100 n4 n1 : Z) :
  0 <= n400 -> 0 <= n100 <= 3 -> 0 <= n4 <= 24 -> 0 <= n1 <= 3 ->
  _days_before_year (n400 * 400 + 1 + (n100 * 100 + n4 * 4 + n1))
  = n400 * 146097 + n100 * 36524 + n4 * 1461 + n1 * 365.
Proof.
  intros H400 H100 H4 H1. unfold _days_before_year. cbv zeta.
  replace (n400 * 400 + 1 + (n100 * 100 + n4 * 4 + n1) - 1)
    with (n400 * 400 + n100 * 100 + n4 * 4 + n1) by lia.
  assert (Q4 : (n400 * 400 + n100 * 100 + n4 * 4 + n1) / 4
               = n400 * 100 + n100 * 25 + n4).
  { symmetry. apply (Z.div_unique _ 4 _ n1); lia. }
  assert (Q100 : (n400 * 400 + n100 * 100 + n4 * 4 + n1) / 100
                 = n400 * 4 + n100).
  { symmetry. apply (Z.div_unique _ 100 _ (n4 * 4 + n1)); lia. }
  assert (Q400 : (n400 * 400 + n100 * 100 + n4 * 4 + n1) / 400 = n400).
  { symmetry. apply (Z.div_unique _ 400 _ (n100 * 100 + n4 * 4 + n1)); lia. }
  rewrite Q4, Q100, Q400. lia.
Qed.

Lemma days_before_year_end (n400 : Z) :
  0 <= n400 -> _days_before_year ((n400 + 1) * 400) = n400 * 146097 + 146097 - 366.
Proof.
  intros H. 
  replace ((n400 + 1) * 400) with (n400 * 400 + 1 + (3 * 100 + 24 * 4 + 3)) by lia.
  rewrite days_before_year_parts by lia. lia.
Qed.

Lemma ord2ymd_ok (n : Z) :
  1 <= n ->
  let '(y, m, d) := _ord2ymd n in
  1 <= y /\ 1 <= m <= 12 /\ 1 <= d <= _days_in_month y m /\ _ymd2ord y m d = n.
Proof.
  intros Hn. rewrite ord2ymd_eq. cbv zeta.
  pose proof (Z.div_mod (n - 1) 146097 ltac:(lia)) as D400.
  pose proof (Z.mod_pos_bound (n - 1) 146097 ltac:(lia)) as B400.
  assert (P400 : 0 <= (n - 1) / 146097) by (apply Z.div_pos; lia).
  set (n400 := (n - 1) / 146097) in *. set (r400 := (n - 1) mod 146097) in *.
  pose proof (Z.div_mod r400 36524 ltac:(lia)) as D100.
  pose proof (Z.mod_pos_bound r400 36524 ltac:(lia)) as B100.
  assert (P100 : 0 <= r400 / 36524 <= 4).
  { split; [apply Z.div_pos; lia|].
    enough (r400 / 36524 < 5) by lia. apply Z.div_lt_upper_bound; lia. }
  set (n100 := r400 / 36524) in *. set (r100 := r400 mod 36524) in *.
  pose proof (Z.div_mod r100 1461 ltac:(lia)) as D4.
  pose proof (Z.mod_pos_bound r100 1461 ltac:(lia)) as B4.
  assert (P4 : 0 <= r100 / 1461 <= 24).
  { split; [apply Z.div_pos; lia|].
    enough (r100 / 1461 < 25) by lia. apply Z.div_lt_upper_bound; lia. }
  set (n4 := r100 / 1461) in *. set (r4 := r100 mod 1461) in *.
  pose proof (Z.div_mod r4 365 ltac:(lia)) as D1.
  pose proof (Z.mod_pos_bound r4 365 ltac:(lia)) as B1.
  assert (P1 : 0 <= r4 / 365 <= 4).
  { split; [apply Z.div_pos; lia|].
    enough (r4 / 365 < 5) by lia. apply Z.div_lt_upper_bound; lia. }
  set (n1 := r4 / 365) in *. set (r1 := r4 mod 365) in *.
  destruct (Z.eqb_spec n1 4) as [E1|E1]; cbn [orb].
  - (* the last day of a leap year that ends a cycle of four years *)
    assert (r1 = 0) by lia. 
    replace (n400 * 400 + 1 + (n100 * 100 + n4 * 4 + n1) - 1)
      with (n400 * 400 + 1 + (n100 * 100 + n4 * 4 + 3)) by lia.
    assert (n100 <= 3) by lia.
    unfold _ymd2ord, _days_in_month, _days_before_month.
    rewrite is_leap_parts, days_before_year_parts by lia.
    change (12 =? 2) with false. change (12 >? 2) with true.
    rewrite Z.eqb_refl. cbn [andb].
    replace (_DAYS_IN_MONTH 12) with 31 by reflexivity.
    replace (_DAYS_BEFORE_MONTH 12) with 334 by reflexivity.
    assert (n4 <> 24 \/ n100 = 3) by lia.
    assert (L : negb (n4 =? 24) || (n100 =? 3) = true).
    { destruct H1 as [H1|H1]; [apply Z.eqb_neq in H1 | apply Z.eqb_eq in H1];
        rewrite H1; cbn; auto using orb_true_r. }
    rewrite L. lia.
  - destruct (Z.eqb_spec n100 4) as [E100|E100].
    + (* the last day of a cycle of 400 years *)
      assert (r100 = 0) by lia. assert (n4 = 0) by (unfold n4; rewrite H; reflexivity).
      assert (r4 = 0) by (unfold r4; rewrite H; reflexivity).
      assert (n1 = 0) by (unfold n1; rewrite H1; reflexivity).
      replace (n400 * 400 + 1 + (n100 * 100 + n4 * 4 + n1) - 1)
        with (n400 * 400 + 1 + (3 * 100 + 24 * 4 + 3)) by lia.
      unfold _ymd2ord, _days_in_month, _days_before_month.
      rewrite is_leap_parts, days_before_year_parts by lia.
      change (12 =? 2) with false. change (12 >? 2) with true.
      change (3 =? 3) with true. change (24 =? 24) with true.
      cbn [andb orb negb].
      replace (_DAYS_IN_MONTH 12) with 31 by reflexivity.
      replace (_DAYS_BEFORE_MONTH 12) with 334 by reflexivity.
      lia.
    + (* any other day *)
      set (leapyear := (n1 =? 3) && (negb (n4 =? 24) || (n100 =? 3))).
      pose proof (month_day_checked leapyear r1 ltac:(lia)) as C.
      unfold month_day_ok in C. destruct (month_day r1 leapyear) as [m d].
      cbn [fst snd].
      repeat (apply andb_true_iff in C; destruct C as [C ?]).
      unfold _ymd2ord, _days_in_month, _days_before_month.
      rewrite is_leap_parts, days_before_year_parts by lia.
      fold leapyear.
      apply Z.leb_le in C, H1, H0, H2. apply Z.eqb_eq in H.
      lia.
Qed.

(** ** [fromisoformat] reads what [isoformat] writes *)

Lemma ascii_digit_digit (k : Z) : 0 <= k <= 9 -> ascii_digit (digit k) = Some k.
Proof.
  intros H. unfold ascii_digit, digit.
  replace (48 <=? 48 + k) with true by (symmetry; apply Z.leb_le; lia).
  replace (48 + k <=? 57) with true by (symmetry; apply Z.leb_le; lia).
  cbn [andb]. f_equal. lia.
Qed.

Lemma digits_value_fmt2 (n acc : Z) (r : str) :
  0 <= n < 100 ->
  digits_value (fmt2 n ++ r) acc = digits_value r (acc * 100 + n).
Proof.
  intros H. unfold fmt2. cbn [app digits_value].
  rewrite !ascii_digit_digit.
  - f_equal. pose proof (Z.div_mod n 10 ltac:(lia)). lia.
  - pose proof (Z.mod_pos_bound n 10 ltac:(lia)). lia.
  - split; [apply Z.div_pos; lia|].
    enough (n / 10 < 10) by lia. apply Z.div_lt_upper_bound; lia.
Qed.

Lemma number_fmt2 (n : Z) : 0 <= n < 100 -> number (fmt2 n) = Ok n.
Proof.
  intros H. pose proof (digits_value_fmt2 n 0 [] H) as E.
  rewrite app_nil_r in E. unfold fmt2 in *. unfold number. rewrite E. reflexivity.
Qed.

Lemma two_fmt2 (n : Z) (r : str) : 0 <= n < 100 -> two (fmt2 n ++ r) = Ok (n, r).
Proof.
  intros H. pose proof (number_fmt2 n H) as E. unfold fmt2 in *.
  cbn [app two]. rewrite E. reflexivity.
Qed.

Lemma number_fmt4 (n : Z) : 0 <= n < 10000 -> number (fmt4 n) = Ok n.
Proof.
  intros H.
  assert (B1 : 0 <= n / 100 < 100).
  { split; [apply Z.div_pos; lia|]. apply Z.div_lt_upper_bound; lia. }
  pose proof (Z.mod_pos_bound n 100 ltac:(lia)) as B2.
  assert (E : digits_value (fmt4 n) 0 = Some n).
  { unfold fmt4. rewrite digits_value_fmt2 by exact B1.
    rewrite <- (app_nil_r (fmt2 (n mod 100))).
    rewrite digits_value_fmt2 by exact B2. cbn [digits_value].
    pose proof (Z.div_mod n 100 ltac:(lia)). f_equal. lia. }
  unfold fmt4, fmt2 in *. cbn [app] in *. unfold number. rewrite E. reflexivity.
Qed.

Lemma number_fmt6 (n : Z) : 0 <= n < 1000000 -> number (fmt6 n) = Ok n.
Proof.
  intros H.
  assert (B1 : 0 <= n / 10000 < 100).
  { split; [apply Z.div_pos; lia|]. apply Z.div_lt_upper_bound; lia. }
  pose proof (Z.mod_pos_bound n 10000 ltac:(lia)) as B2.
  assert (B3 : 0 <= n mod 10000 / 100 < 100).
  { split; [apply Z.div_pos; lia|]. apply Z.div_lt_upper_bound; lia. }
  pose proof (Z.mod_pos_bound (n mod 10000) 100 ltac:(lia)) as B4.
  assert (E : digits_value (fmt6 n) 0 = Some n).
  { unfold fmt6, fmt4. rewrite digits_value_fmt2 by exact B1.
    rewrite digits_value_fmt2 by exact B3.
    rewrite <- (app_nil_r (fmt2 (n mod 10000 mod 100))).
    rewrite digits_value_fmt2 by exact B4. cbn [digits_value].
    pose proof (Z.div_mod n 10000 ltac:(lia)).
    pose proof (Z.div_mod (n mod 10000) 100 ltac:(lia)). f_equal. lia. }
  unfold fmt6, fmt4, fmt2 in *. cbn [app] in *. unfold number. rewrite E.
  reflexivity.
Qed.

Lemma parse_isoformat_date_fmt (y m d : Z) :
  0 <= y < 10000 -> 0 <= m < 100 -> 0 <= d < 100 ->
  _parse_isoformat_date (fmt4 y ++ [45] ++ fmt2 m ++ [45] ++ fmt2 d) = Ok (y, m, d).
Proof.
  intros Hy Hm Hd.
  pose proof (number_fmt4 y Hy) as Ey. pose proof (number_fmt2 m Hm) as Em.
  pose proof (number_fmt2 d Hd) as Ed.
  unfold fmt4, fmt2 in *. cbn [app] in *. unfold _parse_isoformat_date.
  rewrite Z.eqb_refl. cbn [andb]. rewrite Ey, Em, Ed. reflexivity.
Qed.

Lemma fraction_fmt (us : Z) :
  0 <= us < 1000000 -> fraction (fraction_text us) = Ok us.
Proof.
  intros H. unfold fraction_text. destruct (Z.eqb_spec us 0) as [->|N].
  - reflexivity.
  - pose proof (number_fmt6 us H) as E. unfold fmt6, fmt4, fmt2 in *.
    cbn [app] in *. unfold fraction. rewrite Z.eqb_refl.
    cbn [List.length Nat.eqb]. exact E.
Qed.

Lemma parse_hh_mm_ss_ff_fmt (hh mm ss us : Z) :
  0 <= hh < 100 -> 0 <= mm < 100 -> 0 <= ss < 100 -> 0 <= us < 1000000 ->
  _parse_hh_mm_ss_ff (_format_time hh mm ss us) = Ok (hh, mm, ss, us).
Proof.
  intros Hh Hm Hs Hus. unfold _parse_hh_mm_ss_ff, _format_time.
  rewrite two_fmt2 by exact Hh. cbn [bind snd fst app]. rewrite Z.eqb_refl.
  rewrite two_fmt2 by exact Hm. cbn [bind snd fst app]. rewrite Z.eqb_refl.
  rewrite two_fmt2 by exact Hs. cbn [bind snd fst app].
  change (if us =? 0 then [] else 46 :: fmt6 us) with (fraction_text us).
  rewrite fraction_fmt by exact Hus. reflexivity.
Qed.

Lemma find_absent (c : Z) (s : str) :
  Forall (fun x => x <> c) s -> find c s = None.
Proof.
  induction 1 as [|x s Hx _ IH]; [reflexivity|].
  cbn [find]. apply Z.eqb_neq in Hx. rewrite Hx, IH. reflexivity.
Qed.

Lemma find_first (c : Z) (s r : str) :
  Forall (fun x => x <> c) s -> find c (s ++ c :: r) = Some (List.length s).
Proof.
  induction 1 as [|x s Hx _ IH]; cbn [app find List.length].
  - rewrite Z.eqb_refl. reflexivity.
  - apply Z.eqb_neq in Hx. rewrite Hx, IH. reflexivity.
Qed.

Lemma fmt2_chars (n : Z) (c : Z) :
  0 <= n < 100 -> c < 48 -> Forall (fun x => x <> c) (fmt2 n).
Proof.
  intros H Hc. unfold fmt2, digit.
  assert (0 <= n / 10) by (apply Z.div_pos; lia).
  pose proof (Z.mod_pos_bound n 10 ltac:(lia)).
  repeat constructor; lia.
Qed.

Lemma fmt6_chars (n : Z) (c : Z) :
  0 <= n < 1000000 -> c < 48 -> Forall (fun x => x <> c) (fmt6 n).
Proof.
  intros H Hc. unfold fmt6, fmt4.
  assert (B1 : 0 <= n / 10000 < 100).
  { split; [apply Z.div_pos; lia|]. apply Z.div_lt_upper_bound; lia. }
  pose proof (Z.mod_pos_bound n 10000 ltac:(lia)) as B2.
  assert (B3 : 0 <= n mod 10000 / 100 < 100).
  { split; [apply Z.div_pos; lia|]. apply Z.div_lt_upper_bound; lia. }
  pose proof (Z.mod_pos_bound (n mod 10000) 100 ltac:(lia)) as B4.
  repeat (apply Forall_app; split); apply fmt2_chars; assumption.
Qed.

Lemma format_time_chars (hh mm ss us c : Z) :
  0 <= hh < 100 -> 0 <= mm < 100 -> 0 <= ss < 100 -> 0 <= us < 1000000 ->
  c = 43 \/ c = 45 ->
  Forall (fun x => x <> c) (_format_time hh mm ss us).
Proof.
  intros Hh Hm Hs Hus Hc. unfold _format_time.
  assert (c < 48) by lia.
  repeat (apply Forall_app; split); try (apply fmt2_chars; assumption).
  - repeat constructor; lia.
  - repeat constructor; lia.
  - destruct (us =? 0); [constructor|].
    apply Forall_app; split; [repeat constructor; lia|].
    apply fmt6_chars; assumption.
Qed.

Lemma format_time_length (hh mm ss us : Z) :
  (2 <= List.length (_format_time hh mm ss us))%nat.
Proof. unfold _format_time, fmt2. cbn [app List.length]. lia. Qed.

Lemma skipn_past {A : Type} (l r : list A) (x : A) :
  skipn (S (List.length l)) (l ++ x :: r) = r.
Proof. induction l as [|a l IH]; [reflexivity|exact IH]. Qed.

Lemma parse_isoformat_time_utc (hh mm ss us : Z) :
  0 <= hh < 100 -> 0 <= mm < 100 -> 0 <= ss < 100 -> 0 <= us < 1000000 ->
  _parse_isoformat_time (_format_time hh mm ss us ++ _format_offset utc)
  = Ok (hh, mm, ss, us, utc).
Proof.
  intros Hh Hm Hs Hus.
  set (ft := _format_time hh mm ss us).
  change (_format_offset utc) with (43 :: u "00:00").
  unfold _parse_isoformat_time.
  assert (L : Nat.ltb (List.length (ft ++ 43 :: u "00:00")) 2 = false).
  { apply Nat.ltb_ge. rewrite length_app.
    pose proof (format_time_length hh mm ss us). fold ft in H. lia. }
  rewrite L.
  rewrite (find_absent 45).
  2:{ apply Forall_app; split.
      - apply format_time_chars; auto.
      - change (u "00:00") with [48; 48; 58; 48; 48]. repeat constructor; lia. }
  rewrite (find_first 43) by (apply format_time_chars; auto).
  rewrite firstn_app, firstn_all, Nat.sub_diag, firstn_O, app_nil_r.
  unfold ft at 1. rewrite parse_hh_mm_ss_ff_fmt by assumption. cbn [bind].
  rewrite skipn_past, nth_middle.
  reflexivity.
Qed.

Lemma days_before_month_nonneg (y m : Z) :
  1 <= m <= 12 -> 0 <= _days_before_month y m.
Proof.
  intros H. unfold _days_before_month.
  assert (0 <= _DAYS_BEFORE_MONTH m).
  { assert (m = 1 \/ m = 2 \/ m = 3 \/ m = 4 \/ m = 5 \/ m = 6 \/ m = 7
            \/ m = 8 \/ m = 9 \/ m = 10 \/ m = 11 \/ m = 12) as C by lia.
    repeat (destruct C as [->|C]; [vm_compute; discriminate|]).
    subst m. vm_compute. discriminate. }
  destruct ((m >? 2) && _is_leap y); lia.
Qed.

Lemma days_in_month_table (m : Z) :
  1 <= m <= 12 -> 28 <= _DAYS_IN_MONTH m <= 31.
Proof.
  intros H.
  assert (m = 1 \/ m = 2 \/ m = 3 \/ m = 4 \/ m = 5 \/ m = 6 \/ m = 7
          \/ m = 8 \/ m = 9 \/ m = 10 \/ m = 11 \/ m = 12) as C by lia.
  repeat (destruct C as [->|C]; [vm_compute; split; discriminate|]).
  subst m. vm_compute. split; discriminate.
Qed.

Lemma year_bound (y m d : Z) :
  1 <= m <= 12 -> 1 <= d -> _ymd2ord y m d <= MAXORDINAL -> y <= 9999.
Proof.
  intros Hm Hd H. unfold _ymd2ord, MAXORDINAL in H.
  pose proof (days_before_month_nonneg y m Hm).
  unfold _days_before_year in H. cbv zeta in H.
  destruct (Z_le_gt_dec y 9999) as [|G]; [assumption|exfalso].
  pose proof (Z.div_mod (y - 1) 4 ltac:(lia)).
  pose proof (Z.mod_pos_bound (y - 1) 4 ltac:(lia)).
  pose proof (Z.div_mod (y - 1) 100 ltac:(lia)).
  pose proof (Z.mod_pos_bound (y - 1) 100 ltac:(lia)).
  pose proof (Z.div_mod (y - 1) 400 ltac:(lia)).
  pose proof (Z.mod_pos_bound (y - 1) 400 ltac:(lia)).
  lia.
Qed.


(** A bound check of the source that the hypotheses settle. *)
Ltac holds b := replace b with true by (symmetry; apply Z.leb_le; lia).

(** The fields of a datetime in range are those of a date and a time of
    day, and they give back its reading. *)
Lemma fields_ok (w : Z) :
  in_range w = true ->
  let '(y, m, d) := _ord2ymd (w / US_PER_DAY + 1) in
  let hh := w mod US_PER_DAY / US_PER_HOUR in
  let mm := w mod US_PER_HOUR / US_PER_MINUTE in
  let ss := w mod US_PER_MINUTE / US_PER_SECOND in
  let us := w mod US_PER_SECOND in
  (1 <= y <= 9999 /\ 1 <= m <= 12 /\ 1 <= d <= _days_in_month y m)
  /\ (0 <= hh <= 23 /\ 0 <= mm <= 59 /\ 0 <= ss <= 59 /\ 0 <= us <= 999999)
  /\ (_ymd2ord y m d - 1) * US_PER_DAY + hh * US_PER_HOUR + mm * US_PER_MINUTE
     + ss * US_PER_SECOND + us = w.
Proof.
  unfold in_range, MAXORDINAL, US_PER_DAY, US_PER_HOUR, US_PER_MINUTE, US_PER_SECOND.
  intros H. apply andb_true_iff in H. destruct H as [H0 H1].
  apply Z.leb_le in H0. apply Z.ltb_lt in H1.
  assert (Hn : 1 <= w / 86400000000 + 1 <= 3652059).
  { assert (0 <= w / 86400000000) by (apply Z.div_pos; lia).
    assert (w / 86400000000 < 3652059) by (apply Z.div_lt_upper_bound; lia).
    lia. }
  pose proof (ord2ymd_ok (w / 86400000000 + 1) ltac:(lia)) as C.
  destruct (_ord2ymd (w / 86400000000 + 1)) as [[y m] d].
  destruct C as (Cy & Cm & Cd & Co). cbv zeta.
  assert (y <= 9999).
  { apply (year_bound y m d); unfold MAXORDINAL; lia. }
  rewrite Co.
  pose proof (Z.div_mod w 86400000000 ltac:(lia)) as Dd.
  pose proof (Z.mod_pos_bound w 86400000000 ltac:(lia)) as Bd.
  pose proof (Z.div_mod w 3600000000 ltac:(lia)) as Dh.
  pose proof (Z.mod_pos_bound w 3600000000 ltac:(lia)) as Bh.
  pose proof (Z.div_mod w 60000000 ltac:(lia)) as Dm.
  pose proof (Z.mod_pos_bound w 60000000 ltac:(lia)) as Bm.
  pose proof (Z.div_mod w 1000000 ltac:(lia)) as Ds.
  pose proof (Z.mod_pos_bound w 1000000 ltac:(lia)) as Bs.
  pose proof (Z.div_mod (w mod 86400000000) 3600000000 ltac:(lia)) as D1.
  pose proof (Z.mod_pos_bound (w mod 86400000000) 3600000000 ltac:(lia)) as B1.
  pose proof (Z.div_mod (w mod 3600000000) 60000000 ltac:(lia)) as D2.
  pose proof (Z.mod_pos_bound (w mod 3600000000) 60000000 ltac:(lia)) as B2.
  pose proof (Z.div_mod (w mod 60000000) 1000000 ltac:(lia)) as D3.
  pose proof (Z.mod_pos_bound (w mod 60000000) 1000000 ltac:(lia)) as B3.
  assert (E1 : (w mod 86400000000) mod 3600000000 = w mod 3600000000).
  { apply Z.mod_mod_divide. exists 24. reflexivity. }
  assert (E2 : (w mod 3600000000) mod 60000000 = w mod 60000000).
  { apply Z.mod_mod_divide. exists 60. reflexivity. }
  assert (E3 : (w mod 60000000) mod 1000000 = w mod 1000000).
  { apply Z.mod_mod_divide. exists 60. reflexivity. }
  rewrite E1 in D1, B1. rewrite E2 in D2, B2. rewrite E3 in D3, B3.
  lia.
Qed.

Lemma isoformat_shape (dt : datetime) :
  isoformat dt =
  (let '(y, m, d) := ymd dt in fmt4 y ++ [45] ++ fmt2 m ++ [45] ++ fmt2 d)
  ++ 84 :: (_format_time (hour dt) (minute dt) (second dt) (microsecond dt)
            ++ _format_offset (tzinfo dt)).
Proof.
  unfold isoformat. destruct (ymd dt) as [[y m] d].
  rewrite <- !app_assoc. reflexivity.
Qed.

Lemma fromisoformat_isoformat (dt : datetime) :
  in_range (wall dt) = true -> tzinfo dt = utc ->
  fromisoformat (isoformat dt) = Ok dt.
Proof.
  intros Hr Hutc. rewrite isoformat_shape. rewrite Hutc.
  pose proof (fields_ok (wall dt) Hr) as F.
  unfold ymd, hour, minute, second, microsecond.
  destruct (_ord2ymd (wall dt / US_PER_DAY + 1)) as [[y m] d].
  cbv zeta in F. destruct F as ((Fy & Fm & Fd) & (Fh & Fmi & Fs & Fus) & Fw).
  set (hh := wall dt mod US_PER_DAY / US_PER_HOUR) in *.
  set (mm := wall dt mod US_PER_HOUR / US_PER_MINUTE) in *.
  set (ss := wall dt mod US_PER_MINUTE / US_PER_SECOND) in *.
  set (us := wall dt mod US_PER_SECOND) in *.
  assert (Hd31 : d <= 31).
  { unfold _days_in_month in Fd. destruct ((m =? 2) && _is_leap y); [lia|].
    pose proof (days_in_month_table m Fm). lia. }
  set (date := fmt4 y ++ [45] ++ fmt2 m ++ [45] ++ fmt2 d).
  set (tstr := _format_time hh mm ss us ++ _format_offset utc).
  assert (Ld : List.length date = 10%nat) by reflexivity.
  unfold fromisoformat.
  replace (firstn 10 (date ++ 84 :: tstr)) with date.
  2:{ rewrite <- Ld, firstn_app, firstn_all, Nat.sub_diag, firstn_O, app_nil_r.
      reflexivity. }
  replace (skipn 11 (date ++ 84 :: tstr)) with tstr.
  2:{ change 11%nat with (S 10). rewrite <- Ld, skipn_past. reflexivity. }
  unfold date. rewrite parse_isoformat_date_fmt by lia. cbn [bind].
  assert (Et : _parse_isoformat_time tstr = Ok (hh, mm, ss, us, utc)).
  { apply parse_isoformat_time_utc; lia. }
  destruct tstr as [|c tstr'] eqn:E.
  { exfalso. apply (f_equal (@List.length Z)) in E.
    unfold tstr in E. rewrite length_app in E.
    pose proof (format_time_length hh mm ss us). cbn [List.length] in E. lia. }
  rewrite Et. cbn [bind].
  unfold make.
  holds (1 <=? y).
  holds (y <=? 9999).
  holds (1 <=? m).
  holds (m <=? 12).
  holds (1 <=? d).
  holds (d <=? _days_in_month y m).
  holds (0 <=? hh).
  holds (hh <=? 23).
  holds (0 <=? mm).
  holds (mm <=? 59).
  holds (0 <=? ss).
  holds (ss <=? 59).
  holds (0 <=? us).
  holds (us <=? 999999).
  cbn [andb utc]. change ((- US_PER_DAY <? 0) && (0 <? US_PER_DAY)) with true.
  cbn match. rewrite Fw. destruct dt as [w tz]. cbn [wall tzinfo] in *.
  rewrite Hutc. reflexivity.
Qed.

(** ** The persisted cursor *)

Lemma astimezone_utc_ok (local : Z -> Z) (dt dt' : datetime) :
  in_range (wall dt) = true -> astimezone_utc local dt = Ok dt' ->
  utc_datetime dt'.
Proof.
  intros Hr. unfold astimezone_utc, sub_timedelta, utc_datetime.
  destruct (tzinfo dt) as [off|] eqn:E.
  - destruct (Z.eqb_spec off 0) as [->|N].
    + intros [= <-]. auto.
    + destruct (in_range (wall dt - off)) eqn:R; cbn [bind]; [|discriminate].
      intros [= <-]. cbn. auto.
  - destruct (in_range (wall dt - local (wall dt))) eqn:R; cbn [bind]; [|discriminate].
    intros [= <-]. cbn. auto.
Qed.

Lemma astimezone_utc_tz (local : Z -> Z) (dt dt' : datetime) :
  astimezone_utc local dt = Ok dt' -> tzinfo dt' = utc.
Proof.
  unfold astimezone_utc, sub_timedelta.
  destruct (tzinfo dt) as [off|] eqn:E.
  - destruct (Z.eqb_spec off 0) as [->|N].
    + intros [= <-]. exact E.
    + destruct (in_range (wall dt - off)); cbn [bind]; [|discriminate].
      intros [= <-]. reflexivity.
  - destruct (in_range (wall dt - local (wall dt))); cbn [bind]; [|discriminate].
    intros [= <-]. reflexivity.
Qed.

Lemma astimezone_utc_id (local : Z -> Z) (dt : datetime) :
  tzinfo dt = utc -> astimezone_utc local dt = Ok dt.
Proof. intros H. unfold astimezone_utc. rewrite H. reflexivity. Qed.

Lemma isoformat_truthy (dt : datetime) : truthy (isoformat dt) = true.
Proof.
  rewrite isoformat_shape. destruct (ymd dt) as [[y m] d]. reflexivity.
Qed.

Lemma state_get_saved {U : UnicodeData} (local : Z -> Z) (dt : datetime) (uid : Z) :
  utc_datetime dt ->
  _state_get_last_seen local (saved dt uid) = Ok (Some (dt, uid)).
Proof.
  intros [Hutc Hr]. unfold _state_get_last_seen, saved, cursor_json, _load_state, dict_get.
  cbn [bind].
  change (lookup (u "last_dt_iso") _) with (JStr (isoformat dt)).
  change (lookup (u "last_uid") _) with (JInt uid).
  cbn [json_truthy is_none]. rewrite isoformat_truthy. cbn [negb orb].
  unfold fromisoformat_value. rewrite (fromisoformat_isoformat dt Hr Hutc).
  cbn [bind]. rewrite Hutc. unfold utc at 1.
  rewrite (astimezone_utc_id local dt Hutc). reflexivity.
Qed.

(** [_state_set_last_seen] of a UTC datetime, by what the file system
    answers. *)
Lemma state_set_utc (local : Z -> Z)
      (disk : json -> file -> disk_answer) (dt : datetime) (uid : Z) (f : file) :
  tzinfo dt = utc ->
  _state_set_last_seen local disk dt uid f
  = match disk (cursor_json dt uid) f with
    | Replaced => Ok (saved dt uid)
    | NotReplaced => Ok f
    | NoDirectory e => Raise e
    end.
Proof.
  intros H. unfold _state_set_last_seen. rewrite (astimezone_utc_id local dt H).
  reflexivity.
Qed.

Lemma state_get_utc {U : UnicodeData} (local : Z -> Z) (f : file) (c : cursor) :
  _state_get_last_seen local f = Ok (Some c) -> tzinfo (fst c) = utc.
Proof.
  unfold _state_get_last_seen.
  destruct (dict_get (_load_state f) (u "last_dt_iso")) as [dt_iso|]; [|discriminate].
  cbn [bind].
  destruct (dict_get (_load_state f) (u "last_uid")) as [uid|]; [|discriminate].
  cbn [bind].
  destruct (negb (json_truthy dt_iso) || is_none uid); [discriminate|].
  destruct (fromisoformat_value dt_iso) as [d|]; cbn [bind except_all]; [|discriminate].
  destruct (tzinfo d) as [off|] eqn:E.
  - destruct (astimezone_utc local d) as [d'|] eqn:A; cbn [bind except_all];
      [|discriminate].
    destruct (int_value uid); cbn [bind except_all]; [|discriminate].
    intros [= <-]. cbn [fst]. apply (astimezone_utc_tz local d d' A).
  - cbn [bind]. destruct (int_value uid); cbn [bind except_all]; [|discriminate].
    intros [= <-]. reflexivity.
Qed.

(** C10. Saving a cursor [(dt, uid)] and loading the state file gives
    [(dt converted to UTC, uid)] when the file system writes the state
    file; when it does not, [_save_state] leaves the state file as it was,
    without an exception unless the directory cannot be made. Every cursor
    that is loaded carries [timezone.utc]; and a timestamp stored without a
    time zone is loaded as the same reading in UTC. *)
Theorem cursor_persistence_roundtrip {U : UnicodeData} (local : Z -> Z)
        (disk : json -> file -> disk_answer)
        (dt dt_utc : datetime) (uid : Z) (f : file) :
  in_range (wall dt) = true ->
  astimezone_utc local dt = Ok dt_utc ->
  (disk (cursor_json dt_utc uid) f = Replaced ->
   exists f', _state_set_last_seen local disk dt uid f = Ok f'
              /\ _state_get_last_seen local f' = Ok (Some (dt_utc, uid)))
  /\ (disk (cursor_json dt_utc uid) f = NotReplaced ->
      _state_set_last_seen local disk dt uid f = Ok f)
  /\ (forall e, disk (cursor_json dt_utc uid) f = NoDirectory e ->
                _state_set_last_seen local disk dt uid f = Raise e)
  /\ tzinfo dt_utc = utc
  /\ (forall f0 c, _state_get_last_seen local f0 = Ok (Some c) ->
                   tzinfo (fst c) = utc)
  /\ (forall d s naive n,
         lookup (u "last_dt_iso") d = JStr s ->
         lookup (u "last_uid") d = JInt n ->
         fromisoformat s = Ok naive -> tzinfo naive = None ->
         _state_get_last_seen local (Some (JDict d))
         = Ok (Some (replace_tzinfo naive utc, n))).
Proof.
  intros Hr Hconv.
  pose proof (astimezone_utc_ok local dt dt_utc Hr Hconv) as Hu.
  assert (Hset : _state_set_last_seen local disk dt uid f
                 = _save_state disk (cursor_json dt_utc uid) f).
  { unfold _state_set_last_seen. rewrite Hconv. reflexivity. }
  rewrite Hset. unfold _save_state.
  split; [|split; [|split; [|split; [apply Hu|split]]]].
  - intros ->. exists (saved dt_utc uid). split; [reflexivity|].
    apply state_get_saved, Hu.
  - intros ->. reflexivity.
  - intros e ->. reflexivity.
  - intros f0 c. apply state_get_utc.
  - intros d s naive n Hs Hn Hp Hz.
    unfold _state_get_last_seen, _load_state, dict_get. cbn [bind].
    rewrite Hs, Hn. cbn [json_truthy is_none].
    assert (truthy s = true) as ->.
    { destruct s; [discriminate Hp|reflexivity]. }
    cbn [negb orb]. unfold fromisoformat_value. rewrite Hp. cbn [bind].
    rewrite Hz. reflexivity.
Qed.

Lemma roundtrip_witness :
  (in_range (wall dt_moscow) = true
   /\ astimezone_utc utc_system dt_moscow = Ok dt_moscow_utc
   /\ disk_ok (cursor_json dt_moscow_utc 42) None = Replaced)
  /\ exists f',
      _state_set_last_seen utc_system disk_ok dt_moscow 42 None = Ok f'
      /\ _state_get_last_seen utc_system f'
         = Ok (Some (dt_moscow_utc, 42)).
Proof.
  split; [repeat split|].
  exact (proj1 (cursor_persistence_roundtrip utc_system disk_ok
                  dt_moscow dt_moscow_utc 42 None eq_refl eq_refl) eq_refl).
Defined.

(** ** Candidates as they are fetched *)

Lemma to_utc_ok (local : Z -> Z) (dt d : datetime) :
  in_range (wall dt) = true -> _to_utc local dt = Ok d -> utc_datetime d.
Proof.
  intros Hr. unfold _to_utc. destruct (tzinfo dt) eqn:E.
  - apply astimezone_utc_ok, Hr.
  - intros [= <-]. split; [reflexivity|exact Hr].
Qed.

Lemma insert_item_Forall (P : candidate -> Prop) (c : candidate)
      (items : list candidate) :
  P c -> Forall P items -> Forall P (insert_item c items).
Proof.
  intros Hc. induction 1 as [|x items Hx H IH]; cbn [insert_item].
  - constructor; [exact Hc|constructor].
  - destruct (key_ltb (key_of x) (key_of c)).
    + constructor; assumption.
    + constructor; [exact Hc|]. constructor; assumption.
Qed.

Lemma insert_item_ascending (c : candidate) (items : list candidate) :
  ascending items -> ascending (insert_item c items).
Proof.
  unfold ascending. induction 1 as [|x items Hs IH Hx]; cbn [insert_item].
  - constructor; constructor.
  - destruct (key_ltb (key_of x) (key_of c)) eqn:E.
    + constructor; [exact IH|]. apply insert_item_Forall; [|exact Hx].
      apply key_ltb_spec in E. apply key_leb_spec. lia.
    + assert (L : key_leb (key_of c) (key_of x) = true).
      { unfold key_ltb in E. apply negb_false_iff in E. exact E. }
      constructor; [constructor; assumption|].
      constructor; [exact L|].
      eapply Forall_impl; [|exact Hx]. intros y Hy. cbn beta in Hy.
      eapply key_leb_trans; eassumption.
Qed.

Lemma sort_items_ascending (items : list candidate) : ascending (sort_items items).
Proof.
  unfold sort_items. induction items as [|c items IH]; cbn [fold_right].
  - constructor.
  - apply insert_item_ascending, IH.
Qed.

Lemma sort_items_Forall (P : candidate -> Prop) (items : list candidate) :
  Forall P items -> Forall P (sort_items items).
Proof.
  unfold sort_items. induction 1 as [|c items Hc _ IH]; cbn [fold_right].
  - constructor.
  - apply insert_item_Forall; assumption.
Qed.

Lemma collect_utc (local : Z -> Z) (fetched : Z -> option fetch_item) :
  (forall uid item dt, fetched uid = Some item -> INTERNALDATE item = Some dt ->
                       in_range (wall dt) = true) ->
  forall tail items,
  collect local fetched tail = Ok items -> Forall utc_candidate items.
Proof.
  intros Hdt. induction tail as [|uid tail IH]; intros items; cbn [collect].
  - intros [= <-]. constructor.
  - destruct (fetched uid) as [[[dt|] [[|b raw]|]]|] eqn:E; try apply IH.
    destruct (_to_utc local dt) as [d|] eqn:T; cbn [bind]; [|discriminate].
    destruct (collect local fetched tail) as [rest|]; cbn [bind]; [|discriminate].
    intros [= <-]. constructor; [|apply IH; reflexivity].
    apply (to_utc_ok local dt d); [|exact T].
    apply (Hdt uid _ dt E). reflexivity.
Qed.

(** The candidates of [_fetch_candidates] are in ascending order of
    [(dt, uid)] and carry UTC datetimes. *)
Lemma fetch_candidates_ok (local : Z -> Z) (uids : list Z)
      (fetched : Z -> option fetch_item) (items : list candidate) :
  (forall uid item dt, fetched uid = Some item -> INTERNALDATE item = Some dt ->
                       in_range (wall dt) = true) ->
  _fetch_candidates local uids fetched = Ok items ->
  ascending items /\ Forall utc_candidate items /\ Forall aware_candidate items.
Proof.
  intros Hdt. unfold _fetch_candidates.
  assert (A : forall l, Forall utc_candidate l -> Forall aware_candidate l).
  { intros l. apply Forall_impl. intros c [H _]. unfold aware_candidate, aware.
    rewrite H. reflexivity. }
  destruct uids as [|uid uids].
  - intros [= <-]. repeat split; constructor.
  - destruct (collect local fetched (last80 (uid :: uids))) as [l|] eqn:C;
      cbn [bind]; [|discriminate].
    intros [= <-]. pose proof (collect_utc local fetched Hdt _ _ C) as Hu.
    split; [apply sort_items_ascending|]. split.
    + apply sort_items_Forall, Hu.
    + apply A, sort_items_Forall, Hu.
Qed.

(** The mailbox of the examples gives [items0]. *)
Lemma fetch_example :
  _fetch_candidates utc_system uids0 fetched0 = Ok items0.
Proof. reflexivity. Qed.

(** ** The cursor under the watcher and the commands *)

(** [set_cursor] on a UTC datetime, by what the file system answers:
    the cursor in memory is set in every case. *)
Lemma set_cursor_by_disk {U : UnicodeData} (local : Z -> Z)
      (disk : json -> file -> disk_answer) (dt : datetime) (uid : Z)
      (st : State) :
  utc_datetime dt ->
  set_cursor local disk dt uid st
  = match disk (cursor_json dt uid) (state_file st) with
    | Replaced =>
        ({| _last_seen := Some (dt, uid); state_file := saved dt uid;
            outbox := outbox st |}, Ok tt)
    | NotReplaced =>
        ({| _last_seen := Some (dt, uid); state_file := state_file st;
            outbox := outbox st |}, Ok tt)
    | NoDirectory e =>
        ({| _last_seen := Some (dt, uid); state_file := state_file st;
            outbox := outbox st |}, Raise e)
    end.
Proof.
  intros [Hutc _]. unfold set_cursor. cbn [state_file _last_seen outbox].
  rewrite (state_set_utc local disk dt uid _ Hutc).
  destruct (disk (cursor_json dt uid) (state_file st)); reflexivity.
Qed.

Lemma last_item_Forall (P : candidate -> Prop) (items : list candidate)
      (x : candidate) :
  Forall P items -> last_item items = Some x -> P x.
Proof.
  intros H E. unfold last_item in E. apply nth_error_In in E.
  rewrite Forall_forall in H. apply (H x E).
Qed.

(** C2. The first step of a session tests the cursor in memory, which the
    start of the process reads from the state file: with no cursor there,
    there is none in memory. With none in memory, the first step makes the
    key of the newest candidate the cursor in memory and hands nothing
    over, whatever the file system answers; the state file holds that key
    when the file system writes it, and is as it was when it does not.
    With no candidate the state stays as it is, the cursor unset. *)
Theorem first_run_sets_cursor_without_delivery {U : UnicodeData}
        (local : Z -> Z) (disk : json -> file -> disk_answer)
        (items : list candidate) (st : State) :
  _last_seen st = None ->
  Forall utc_candidate items ->
  (forall dt0 uid0 raw,
      last_item items = Some (dt0, uid0, raw) ->
      exists st' r,
        init_cursor local disk items st = (st', r)
        /\ _last_seen st' = Some (dt0, uid0)
        /\ outbox st' = outbox st
        /\ (disk (cursor_json dt0 uid0) (state_file st) = Replaced ->
            r = Ok tt
            /\ _state_get_last_seen local (state_file st') = Ok (Some (dt0, uid0)))
        /\ (disk (cursor_json dt0 uid0) (state_file st) = NotReplaced ->
            r = Ok tt /\ state_file st' = state_file st)
        /\ (forall e, disk (cursor_json dt0 uid0) (state_file st) = NoDirectory e ->
                      r = Raise e /\ state_file st' = state_file st))
  /\ (items = [] -> init_cursor local disk items st = (st, Ok tt))
  /\ (forall f st0,
         startup local f = Ok st0 ->
         _state_get_last_seen local f = Ok None ->
         _last_seen st0 = None /\ state_file st0 = f /\ outbox st0 = []).
Proof.
  intros Hnone Hitems. split; [|split].
  - intros dt0 uid0 raw E.
    pose proof (last_item_Forall utc_candidate items _ Hitems E) as Hu.
    unfold init_cursor. rewrite Hnone, E.
    rewrite (set_cursor_by_disk local disk dt0 uid0 st Hu).
    destruct (disk (cursor_json dt0 uid0) (state_file st)) as [| |e0];
      eexists; eexists; (split; [reflexivity|]);
      cbn [_last_seen state_file outbox];
      (split; [reflexivity|]); (split; [reflexivity|]);
      (split; [|split]);
      try (intros H; discriminate H); try (intros e H; discriminate H).
    + intros _. split; [reflexivity|]. apply state_get_saved, Hu.
    + intros _. split; reflexivity.
    + intros e [= <-]. split; reflexivity.
  - intros ->. unfold init_cursor. rewrite Hnone. reflexivity.
  - intros f st0. unfold startup. intros S G. rewrite G in S. cbn [bind] in S.
    injection S as <-. repeat split.
Qed.

(** *** The cursor in memory and the state file *)

Section Saved.

Context {U : UnicodeData}.

Variable local : Z -> Z.
Variable disk : json -> file -> disk_answer.

Hypothesis can_write : writable disk.

Lemma set_cursor_utc (dt : datetime) (uid : Z) (st : State) :
  utc_datetime dt ->
  set_cursor local disk dt uid st
  = ({| _last_seen := Some (dt, uid); state_file := saved dt uid;
        outbox := outbox st |}, Ok tt).
Proof.
  intros Hu. rewrite (set_cursor_by_disk local disk dt uid st Hu).
  rewrite can_write. reflexivity.
Qed.

Lemma startup_saved (f : file) (st : State) :
  startup local f = Ok st -> cursor_saved local st.
Proof.
  unfold startup. destruct (_state_get_last_seen local f) as [ls|] eqn:E;
    cbn [bind]; [|discriminate].
  intros [= <-] c. cbn [_last_seen state_file]. intros ->. exact E.
Qed.

Lemma set_cursor_saved (dt : datetime) (uid : Z) (st : State) :
  utc_datetime dt -> cursor_saved local (fst (set_cursor local disk dt uid st)).
Proof.
  intros Hu. rewrite (set_cursor_utc dt uid st Hu). cbn [fst].
  intros c. cbn [_last_seen state_file]. intros [= <-].
  apply state_get_saved, Hu.
Qed.

Lemma send_saved (text : str) (to_user : bool) (st : State) :
  cursor_saved local st -> cursor_saved local (send text to_user st).
Proof. intros H c. cbn [send _last_seen state_file]. apply H. Qed.

Lemma select_new_Forall (P : candidate -> Prop) (M : Z) (clock : nat -> datetime)
      (ls : option cursor) (items : list candidate) :
  Forall P items ->
  forall k new_items,
  select_new M clock k ls items = Ok new_items -> Forall P new_items.
Proof.
  induction 1 as [|c items Hc _ IH]; intros k new_items; cbn [select_new].
  - intros [= <-]. constructor.
  - destruct (_is_fresh M (clock k) (fst (fst c))) as [fresh|]; cbn [bind];
      [|discriminate].
    destruct fresh; cbn [negb]; [|apply IH].
    destruct (match ls with Some l => tuple_le (key_of c) l | None => Ok false end)
      as [seen|]; cbn [bind]; [|discriminate].
    destruct seen; [apply IH|].
    destruct (select_new M clock (S k) ls items) as [l|] eqn:R; cbn [bind];
      [|discriminate].
    intros [= <-]. constructor; [exact Hc|apply (IH (S k) l R)].
Qed.

Lemma deliver_saved (to_user : bool) (render : bytes -> result str)
      (new_items : list candidate) :
  Forall utc_candidate new_items ->
  forall st, cursor_saved local st ->
             cursor_saved local (fst (deliver local disk to_user render new_items st)).
Proof.
  induction 1 as [|x new_items Hx _ IH]; intros st Hst; cbn [deliver].
  - exact Hst.
  - destruct x as [[dt uid] raw]. destruct (render raw) as [text|]; [|exact Hst].
    pose proof (set_cursor_saved dt uid (send text to_user st) Hx) as S1.
    rewrite (set_cursor_utc dt uid (send text to_user st) Hx) in *.
    cbn [fst] in S1. apply IH, S1.
Qed.

Lemma send_newest_saved (render : bytes -> result str) (sending : result unit)
      (x : candidate) (st : State) :
  utc_candidate x -> cursor_saved local st ->
  cursor_saved local (fst (send_newest local disk render sending x st)).
Proof.
  intros Hx Hst. unfold send_newest. destruct x as [[dt uid] raw].
  destruct (render raw) as [text|]; [|exact Hst].
  destruct sending as [[]|]; [|apply send_saved, Hst].
  pose proof (set_cursor_saved dt uid (send text true st) Hx) as S1.
  destruct (set_cursor local disk dt uid (send text true st)) as [st' [[]|e]]; exact S1.
Qed.

(** Started from the state file and fed with candidates of
    [_fetch_candidates], the watcher and the commands keep the cursor in
    memory and the state file in step, as long as the file system writes
    the state file. *)
Lemma cursor_saved_kept (M : Z) (to_user : bool) (render : bytes -> result str)
      (items : list candidate) (st : State) :
  Forall utc_candidate items -> cursor_saved local st ->
  cursor_saved local (fst (init_cursor local disk items st))
  /\ (forall clock, cursor_saved local (fst (drain local disk M to_user render clock items st)))
  /\ (forall clock sending,
         cursor_saved local (fst (now local disk M render clock sending items st)))
  /\ (forall sending, cursor_saved local (fst (now_force local disk render sending items st)))
  /\ cursor_saved local (fst (reset_state local disk items st)).
Proof.
  intros Hitems Hst. split; [|split; [|split; [|split]]].
  - unfold init_cursor. destruct (_last_seen st); [exact Hst|].
    destruct (last_item items) as [[[dt uid] raw]|] eqn:E; [|exact Hst].
    apply set_cursor_saved. apply (last_item_Forall utc_candidate items _ Hitems E).
  - intros clock. unfold drain.
    destruct (select_new M clock 0 (_last_seen st) items) as [new_items|] eqn:R;
      [|exact Hst].
    apply deliver_saved; [|exact Hst].
    apply (select_new_Forall utc_candidate M clock _ items Hitems 0%nat _ R).
  - intros clock sending. unfold now.
    destruct (last_item items) as [x|] eqn:E; [|exact Hst].
    pose proof (last_item_Forall utc_candidate items x Hitems E) as Hx.
    destruct (_is_fresh M clock (fst (fst x))) as [[|]|]; try exact Hst.
    destruct (_last_seen st) as [ls|].
    + destruct (tuple_le (key_of x) ls) as [[|]|]; try exact Hst.
      apply send_newest_saved; assumption.
    + apply send_newest_saved; assumption.
  - intros sending. unfold now_force.
    destruct (last_item items) as [x|] eqn:E; [|exact Hst].
    apply send_newest_saved; [|exact Hst].
    apply (last_item_Forall utc_candidate items x Hitems E).
  - unfold reset_state.
    destruct (last_item items) as [[[dt uid] raw]|] eqn:E; [|exact Hst].
    pose proof (set_cursor_saved dt uid st
                  (last_item_Forall utc_candidate items _ Hitems E)) as S1.
    destruct (set_cursor local disk dt uid st) as [st' [[]|e]]; exact S1.
Qed.

End Saved.

(** *** The cursor under the four operations *)

Lemma tuple_le_false (a b : cursor) :
  tuple_le a b = Ok false -> key_leb a b = false.
Proof.
  unfold tuple_le, dt_eqb, dt_leb, key_leb.
  destruct (Bool.eqb (aware (fst a)) (aware (fst b))); cbn [andb].
  - destruct (Z.eqb_spec (instant (fst a)) (instant (fst b))) as [E|E].
    + intros [= H]. rewrite E, Z.ltb_irrefl, H. reflexivity.
    + intros [= H]. apply Z.leb_gt in H. cbn [andb]. rewrite orb_false_r.
      apply Z.ltb_ge. lia.
  - discriminate.
Qed.

Lemma key_leb_of_not (a b : cursor) : key_leb a b = false -> key_leb b a = true.
Proof.
  intros H. apply key_leb_spec. apply not_true_iff_false in H.
  rewrite key_leb_spec in H. lia.
Qed.

Lemma select_new_beyond (M : Z) (clock : nat -> datetime) (ls : cursor)
      (items : list candidate) :
  forall k new_items,
  select_new M clock k (Some ls) items = Ok new_items ->
  Forall (fun c => key_leb ls (key_of c) = true) new_items.
Proof.
  induction items as [|c items IH]; intros k new_items; cbn [select_new].
  - intros [= <-]. constructor.
  - destruct (_is_fresh M (clock k) (fst (fst c))) as [fresh|]; cbn [bind];
      [|discriminate].
    destruct fresh; cbn [negb]; [|apply IH].
    destruct (tuple_le (key_of c) ls) as [seen|] eqn:T; cbn [bind]; [|discriminate].
    destruct seen; [apply IH|].
    destruct (select_new M clock (S k) (Some ls) items) as [l|] eqn:R; cbn [bind];
      [|discriminate].
    intros [= <-]. constructor; [|apply (IH (S k) l R)].
    apply key_leb_of_not, tuple_le_false, T.
Qed.

Lemma deliver_cursor (local : Z -> Z)
      (disk : json -> file -> disk_answer) (to_user : bool) (render : bytes -> result str)
      (ls : cursor) (new_items : list candidate) :
  Forall (fun c => key_leb ls (key_of c) = true) new_items ->
  forall st c, _last_seen st = Some c -> key_leb ls c = true ->
  exists c', _last_seen (fst (deliver local disk to_user render new_items st)) = Some c'
             /\ key_leb ls c' = true.
Proof.
  induction 1 as [|x new_items Hx _ IH]; intros st c Hc Hle; cbn [deliver].
  - exists c. auto.
  - destruct x as [[dt uid] raw]. destruct (render raw) as [text|].
    + pose proof (set_cursor_last_seen local disk dt uid (send text to_user st)) as E.
      destruct (set_cursor local disk dt uid (send text to_user st)) as [st' [[]|e]];
        cbn [fst] in E.
      * apply (IH st' (dt, uid) E Hx).
      * exists (dt, uid). auto.
    + exists c. auto.
Qed.

Lemma send_newest_cursor (local : Z -> Z)
      (disk : json -> file -> disk_answer) (render : bytes -> result str)
      (sending : result unit) (x : candidate) (st : State) :
  _last_seen (fst (send_newest local disk render sending x st)) = _last_seen st
  \/ _last_seen (fst (send_newest local disk render sending x st)) = Some (key_of x).
Proof.
  unfold send_newest. destruct x as [[dt uid] raw].
  destruct (render raw) as [text|]; [|left; reflexivity].
  destruct sending as [[]|]; [|left; reflexivity].
  pose proof (set_cursor_last_seen local disk dt uid (send text true st)) as E.
  destruct (set_cursor local disk dt uid (send text true st)) as [st' [[]|e]];
    cbn [fst] in *; right; exact E.
Qed.

(** Nobody else writing, the operations among the others are the
    operations. *)
Lemma meanwhile_alone (st : State) : meanwhile alone st = st.
Proof. destruct st. reflexivity. Qed.

Lemma deliver_alone {U : UnicodeData} (local : Z -> Z)
      (disk : json -> file -> disk_answer) (to_user : bool)
      (render : bytes -> result str) (new_items : list candidate) :
  forall k st,
  deliver_among local disk to_user render (fun _ => alone) k new_items st
  = deliver local disk to_user render new_items st.
Proof.
  induction new_items as [|[[dt uid] raw] rest IH]; intros k st;
    cbn [deliver_among deliver]; [reflexivity|].
  destruct (render raw) as [text|e]; [|reflexivity].
  rewrite meanwhile_alone.
  destruct (set_cursor local disk dt uid (send text to_user st)) as [st' [[]|e]];
    [apply IH|reflexivity].
Qed.

Lemma drain_alone {U : UnicodeData} (local : Z -> Z)
      (disk : json -> file -> disk_answer) (M : Z) (to_user : bool)
      (render : bytes -> result str) (clock : nat -> datetime)
      (items : list candidate) (st : State) :
  drain_among local disk M to_user render (fun _ => alone) clock items st
  = drain local disk M to_user render clock items st.
Proof.
  unfold drain_among, drain.
  destruct (select_new M clock 0 (_last_seen st) items); [|reflexivity].
  apply deliver_alone.
Qed.

Lemma now_alone {U : UnicodeData} (local : Z -> Z)
      (disk : json -> file -> disk_answer) (M : Z)
      (render : bytes -> result str) (clock : datetime) (sending : result unit)
      (items : list candidate) (st : State) :
  now_among local disk M render alone clock sending items st
  = now local disk M render clock sending items st.
Proof.
  unfold now_among, now, send_newest_among, send_newest. reflexivity.
Qed.

(** The candidates that the watcher takes as new are candidates strictly
    beyond the cursor that it read. *)
Lemma select_new_strictly_beyond {U : UnicodeData} (M : Z)
      (clock : nat -> datetime) (ls : option cursor) (items : list candidate) :
  forall k new_items,
  select_new M clock k ls items = Ok new_items ->
  Forall (fun c => In c items /\ beyond ls (key_of c) = true) new_items.
Proof.
  induction items as [|c items IH]; intros k new_items; cbn [select_new].
  - intros [= <-]. constructor.
  - assert (Hrest : forall l, select_new M clock (S k) ls items = Ok l ->
                              Forall (fun c0 => In c0 (c :: items)
                                                /\ beyond ls (key_of c0) = true) l).
    { intros l R. eapply Forall_impl; [|apply (IH (S k) l R)].
      intros x [Hx Hb]. split; [right; exact Hx|exact Hb]. }
    destruct (_is_fresh M (clock k) (fst (fst c))) as [fresh|]; cbn [bind];
      [|discriminate].
    destruct fresh; cbn [negb]; [|apply Hrest].
    destruct (match ls with Some l => tuple_le (key_of c) l | None => Ok false end)
      as [seen|] eqn:T; cbn [bind]; [|discriminate].
    destruct seen; [apply Hrest|].
    destruct (select_new M clock (S k) ls items) as [l|] eqn:R; cbn [bind];
      [|discriminate].
    intros [= <-]. constructor; [|apply (Hrest l eq_refl)].
    split; [left; reflexivity|].
    destruct ls as [l0|]; cbn [beyond]; [|reflexivity].
    unfold key_ltb. rewrite (tuple_le_false _ _ T). reflexivity.
Qed.

(** Whatever the others do, the loop over [new_items] leaves the cursor
    where it was, when it writes nothing, or on one of [new_items]. *)
Lemma deliver_among_cursor {U : UnicodeData} (local : Z -> Z)
      (disk : json -> file -> disk_answer) (to_user : bool)
      (render : bytes -> result str) (during : nat -> others)
      (new_items : list candidate) :
  forall k st,
  _last_seen (fst (deliver_among local disk to_user render during k new_items st))
  = _last_seen st
  \/ exists c, In c new_items
               /\ _last_seen (fst (deliver_among local disk to_user render during
                                                 k new_items st))
                  = Some (key_of c).
Proof.
  induction new_items as [|[[dt uid] raw] rest IH]; intros k st;
    cbn [deliver_among]; [left; reflexivity|].
  destruct (render raw) as [text|e]; [|left; reflexivity].
  pose proof (set_cursor_last_seen local disk dt uid
                (meanwhile (during k) (send text to_user st))) as E.
  destruct (set_cursor local disk dt uid
              (meanwhile (during k) (send text to_user st))) as [st' [[]|e]];
    cbn [fst] in E.
  - right. destruct (IH (S k) st') as [H|(c & Hc & H)].
    + exists (dt, uid, raw). split; [left; reflexivity|].
      rewrite H. exact E.
    + exists c. split; [right; exact Hc|exact H].
  - right. exists (dt, uid, raw). split; [left; reflexivity|exact E].
Qed.

Lemma send_newest_among_cursor {U : UnicodeData} (local : Z -> Z)
      (disk : json -> file -> disk_answer) (render : bytes -> result str)
      (during : others) (sending : result unit) (x : candidate) (st : State) :
  _last_seen (fst (send_newest_among local disk render during sending x st))
  = _last_seen st
  \/ _last_seen (fst (send_newest_among local disk render during sending x st))
     = Some (key_of x).
Proof.
  unfold send_newest_among. destruct x as [[dt uid] raw].
  destruct (render raw) as [text|]; [|left; reflexivity].
  destruct sending as [[]|]; [|left; reflexivity].
  pose proof (set_cursor_last_seen local disk dt uid
                (meanwhile during (send text true st))) as E.
  destruct (set_cursor local disk dt uid (meanwhile during (send text true st)))
    as [st' [[]|e]]; cbn [fst] in *; right; exact E.
Qed.

(** A key beyond a cursor is not below it. *)
Lemma beyond_not_below (c k : cursor) :
  beyond (Some c) k = true -> key_leb c k = true.
Proof.
  cbn [beyond]. unfold key_ltb. intros H. apply key_leb_of_not.
  destruct (key_leb k c); [discriminate|reflexivity].
Qed.

(** C3, as the code has it. Whatever the others do between the read of
    the cursor and the writes, a wake of the watcher and [/now] leave the
    cursor where it was or on a candidate strictly beyond the cursor that
    they read, so that a cursor that is set stays set; when nobody else
    writes the cursor between their read and their writes, they leave it
    greater than or equal to what it was. [/now_force] and [/reset_state]
    leave the cursor as it was or make it the key of the newest candidate,
    whatever that key is: they do not move it back when the newest
    candidate is not older than the cursor. *)
Theorem cursor_under_operations {U : UnicodeData}
        (local : Z -> Z) (disk : json -> file -> disk_answer)
        (M : Z) (to_user : bool) (render : bytes -> result str) :
  (forall during clock items st st' r,
      drain_among local disk M to_user render during clock items st = (st', r) ->
      _last_seen st' = _last_seen st
      \/ exists c, In c items /\ beyond (_last_seen st) (key_of c) = true
                   /\ _last_seen st' = Some (key_of c))
  /\ (forall during clock sending items st st' r,
         now_among local disk M render during clock sending items st = (st', r) ->
         _last_seen st' = _last_seen st
         \/ exists newest, last_item items = Some newest
                           /\ beyond (_last_seen st) (key_of newest) = true
                           /\ _last_seen st' = Some (key_of newest))
  /\ (forall during clock items,
         (forall k, cursor_untouched (during k)) ->
         never_decreases
           (fun st => fst (drain_among local disk M to_user render during clock
                                       items st)))
  /\ (forall during clock sending items,
         cursor_untouched during ->
         never_decreases
           (fun st => fst (now_among local disk M render during clock sending
                                     items st)))
  /\ (forall sending items st c,
         _last_seen st = Some c ->
         _last_seen (fst (now_force local disk render sending items st)) = Some c
         \/ exists newest, last_item items = Some newest
                           /\ _last_seen (fst (now_force local disk render sending items st))
                              = Some (key_of newest))
  /\ (forall items st c,
         _last_seen st = Some c ->
         _last_seen (fst (reset_state local disk items st)) = Some c
         \/ exists newest, last_item items = Some newest
                           /\ _last_seen (fst (reset_state local disk items st))
                              = Some (key_of newest))
  /\ (forall sending items newest st c,
         _last_seen st = Some c ->
         last_item items = Some newest -> key_leb c (key_of newest) = true ->
         (exists c', _last_seen (fst (now_force local disk render sending items st)) = Some c'
                     /\ key_leb c c' = true)
         /\ (exists c', _last_seen (fst (reset_state local disk items st)) = Some c'
                        /\ key_leb c c' = true)).
Proof.
  assert (Hsame : forall c : cursor,
             exists c', Some c = Some c' /\ key_leb c c' = true).
  { intros c. exists c. split; [reflexivity|apply key_leb_refl]. }
  assert (Hdrain : forall during clock items st st' r,
             drain_among local disk M to_user render during clock items st = (st', r) ->
             _last_seen st' = _last_seen st
             \/ exists c, In c items /\ beyond (_last_seen st) (key_of c) = true
                          /\ _last_seen st' = Some (key_of c)).
  { intros during clock items st st' r. unfold drain_among.
    destruct (select_new M clock 0 (_last_seen st) items) as [new_items|] eqn:R.
    - intros D.
      pose proof (select_new_strictly_beyond M clock _ items 0%nat new_items R) as Hn.
      destruct (deliver_among_cursor local disk to_user render during new_items
                  0%nat st) as [H|(c & Hc & H)]; rewrite D in H; cbn [fst] in H.
      + left. exact H.
      + right. exists c. rewrite Forall_forall in Hn. destruct (Hn c Hc) as [Hi Hb].
        auto.
    - intros [= <- <-]. left. reflexivity. }
  assert (Hnow : forall during clock sending items st st' r,
             now_among local disk M render during clock sending items st = (st', r) ->
             _last_seen st' = _last_seen st
             \/ exists newest, last_item items = Some newest
                               /\ beyond (_last_seen st) (key_of newest) = true
                               /\ _last_seen st' = Some (key_of newest)).
  { intros during clock sending items st st' r. unfold now_among.
    destruct (last_item items) as [x|]; [|intros [= <- <-]; left; reflexivity].
    destruct (_is_fresh M clock (fst (fst x))) as [[|]|];
      try (intros [= <- <-]; left; reflexivity).
    assert (Hsend : beyond (_last_seen st) (key_of x) = true ->
                    send_newest_among local disk render during sending x st = (st', r) ->
                    _last_seen st' = _last_seen st
                    \/ exists newest, Some x = Some newest
                                      /\ beyond (_last_seen st) (key_of newest) = true
                                      /\ _last_seen st' = Some (key_of newest)).
    { intros Hb D.
      destruct (send_newest_among_cursor local disk render during sending x st)
        as [H|H]; rewrite D in H; cbn [fst] in H; [left; exact H|].
      right. exists x. auto. }
    remember (_last_seen st) as ls0 eqn:Els. destruct ls0 as [ls|].
    - destruct (tuple_le (key_of x) ls) as [[|]|] eqn:T;
        try (intros [= <- <-]; left; symmetry; exact Els).
      apply Hsend. cbn [beyond]. unfold key_ltb.
      rewrite (tuple_le_false _ _ T). reflexivity.
    - apply Hsend. reflexivity. }
  assert (Hforce : forall sending items st c,
             _last_seen st = Some c ->
             _last_seen (fst (now_force local disk render sending items st)) = Some c
             \/ exists newest, last_item items = Some newest
                               /\ _last_seen (fst (now_force local disk render sending items st))
                                  = Some (key_of newest)).
  { intros sending items st c Hc. unfold now_force.
    destruct (last_item items) as [x|]; [|left; exact Hc].
    destruct (send_newest_cursor local disk render sending x st) as [E|E].
    - left. rewrite E. exact Hc.
    - right. exists x. auto. }
  assert (Hreset : forall items st c,
             _last_seen st = Some c ->
             _last_seen (fst (reset_state local disk items st)) = Some c
             \/ exists newest, last_item items = Some newest
                               /\ _last_seen (fst (reset_state local disk items st))
                                  = Some (key_of newest)).
  { intros items st c Hc. unfold reset_state.
    destruct (last_item items) as [[[dt uid] raw]|]; [|left; exact Hc].
    right. exists (dt, uid, raw). split; [reflexivity|].
    pose proof (set_cursor_last_seen local disk dt uid st) as E.
    destruct (set_cursor local disk dt uid st) as [st' [[]|e]]; exact E. }
  split; [exact Hdrain|]. split; [exact Hnow|].
  split; [|split; [|split; [exact Hforce|split; [exact Hreset|]]]].
  - intros during clock items _ st c Hc.
    destruct (drain_among local disk M to_user render during clock items st)
      as [st' r] eqn:D.
    destruct (Hdrain _ _ _ _ _ _ D) as [H|(x & _ & Hb & H)]; cbn [fst]; rewrite H.
    + rewrite Hc. apply Hsame.
    + exists (key_of x). split; [reflexivity|]. rewrite Hc in Hb.
      apply beyond_not_below, Hb.
  - intros during clock sending items _ st c Hc.
    destruct (now_among local disk M render during clock sending items st)
      as [st' r] eqn:D.
    destruct (Hnow _ _ _ _ _ _ _ D) as [H|(x & _ & Hb & H)]; cbn [fst]; rewrite H.
    + rewrite Hc. apply Hsame.
    + exists (key_of x). split; [reflexivity|]. rewrite Hc in Hb.
      apply beyond_not_below, Hb.
  - intros sending items newest st c Hc Hn Hle. split.
    + destruct (Hforce sending items st c Hc) as [E|(n' & Hn' & E)]; rewrite E;
        [apply Hsame|].
      rewrite Hn in Hn'. injection Hn' as <-.
      exists (key_of newest). split; [reflexivity|exact Hle].
    + destruct (Hreset items st c Hc) as [E|(n' & Hn' & E)]; rewrite E;
        [apply Hsame|].
      rewrite Hn in Hn'. injection Hn' as <-.
      exists (key_of newest). split; [reflexivity|exact Hle].
Qed.

(** What the wording above leaves open. [/now] fetches a mailbox whose
    newest mail has uid 7 and reads the cursor; while it sends, the mail of
    uid 9 comes and a wake of the watcher moves the cursor to it; [/now]
    then writes the key of the mail of uid 7, and the cursor is back on
    uid 7: the next wake hands the mail of uid 9 over again. *)
Lemma late_write_of_now :
  _last_seen (meanwhile wake_meanwhile st_behind) = Some (key_of c_new)
  /\ now_among utc_system disk_ok 600 render0 wake_meanwhile now0 (Ok tt)
               items_before st_behind
     = ({| _last_seen := Some (key_of c_seen);
           state_file := saved (hours_before 5) 7;
           outbox := [([2], true)] |}, Done)
  /\ outbox (fst (drain utc_system disk_ok 600 false render0 (fun _ => now0) items0
                        {| _last_seen := Some (key_of c_seen);
                           state_file := saved (hours_before 5) 7;
                           outbox := [] |}))
     = [([3], false)].
Proof. repeat split; vm_compute; reflexivity. Qed.

Lemma first_run_witness :
  (_last_seen st_unset = None
   /\ Forall utc_candidate items0
   /\ last_item items0 = Some c_new
   /\ disk_ok (cursor_json (hours_before 1) 9) (state_file st_unset) = Replaced)
  /\ exists st',
      init_cursor utc_system disk_ok items0 st_unset = (st', Ok tt)
      /\ _last_seen st' = Some (key_of c_new)
      /\ _state_get_last_seen utc_system (state_file st') = Ok (Some (key_of c_new))
      /\ outbox st' = outbox st_unset.
Proof.
  assert (H2 : Forall utc_candidate items0) by (repeat constructor).
  split; [repeat split; assumption|].
  destruct (proj1 (first_run_sets_cursor_without_delivery
                     utc_system disk_ok items0 st_unset eq_refl H2)
              (hours_before 1) 9 [3] eq_refl)
    as (st' & r & E & Hc & Ho & Hw & _).
  destruct (Hw eq_refl) as [-> Hf].
  exists st'. repeat split; assumption.
Defined.

Lemma cursor_operations_witness :
  (_last_seen st_seen = Some (key_of c_seen)
   /\ forall k : nat, cursor_untouched ((fun _ => alone) k))
  /\ (exists c', _last_seen (fst (drain_among utc_system disk_ok 600 false render0
                                               (fun _ => alone) (fun _ => now0)
                                               items0 st_seen)) = Some c'
                  /\ key_leb (key_of c_seen) c' = true)
  /\ _last_seen (fst (drain_among utc_system disk_ok 600 false render0
                                  (fun _ => alone) (fun _ => now0) items0 st_seen))
     = Some (key_of c_new).
Proof.
  assert (H : forall k : nat, cursor_untouched ((fun _ => alone) k)).
  { intros k ls f. reflexivity. }
  split; [split; [reflexivity|exact H]|]. split.
  - exact (proj1 (proj2 (proj2 (cursor_under_operations utc_system disk_ok 600
                                  false render0)))
             (fun _ => alone) (fun _ => now0) items0 H st_seen (key_of c_seen)
             eq_refl).
  - reflexivity.
Defined.

(** C3 does not hold of [/reset_state] and [/now_force]: with the cursor
    on a mail of five hours ago and a mailbox whose newest mail is eleven
    hours old, both move the cursor back. *)
Lemma reset_and_force_move_cursor_back :
  ~ never_decreases (fun st => fst (reset_state utc_system disk_ok [c_stale] st))
  /\ ~ never_decreases (fun st => fst (now_force utc_system disk_ok render0 (Ok tt) [c_stale] st)).
Proof.
  split; intros H; destruct (H st_seen (key_of c_seen) eq_refl) as (c' & E & L);
    vm_compute in E; injection E as <-; vm_compute in L; discriminate.
Qed.

(** ** The scan of the lines *)

Section ParserFacts.

Context {U : UnicodeData}.

(** *** The inner loop *)

Lemma scan_window_spec (lines : list str) (limit : nat) :
  forall fuel j buyer hired,
  let w := scan_window fuel lines limit j buyer hired in
  match w_price w with
  | Some p =>
      (j <= w_j w < limit)%nat /\ (w_j w < j + fuel)%nat
      /\ price_line (nth (w_j w) lines []) = true
      /\ p = strip (replace_char ER [ROUBLE] (nth (w_j w) lines []))
      /\ (forall j', (j <= j' < w_j w)%nat -> price_line (nth j' lines []) = false)
  | None =>
      forall j', (j <= j' < limit)%nat -> (j' < j + fuel)%nat ->
                 price_line (nth j' lines []) = false
  end.
Proof.
  induction fuel as [|fuel IH]; intros j buyer hired; cbv zeta; cbn [scan_window].
  - cbn [w_price]. intros j' H1 H2. lia.
  - cbv zeta. fold (price_line (nth j lines [])).
    destruct (Nat.ltb_spec j limit) as [Hlt|Hge].
    + destruct (price_line (nth j lines [])) eqn:P.
      * cbn [w_price w_j]. split; [lia|]. split; [lia|]. split; [exact P|].
        split; [reflexivity|]. intros j' Hj'. lia.
      * specialize (IH (S j)
          (bare_buyer (prefixed_buyer buyer (split (nth j lines [])) (lower (nth j lines [])))
                      (split (nth j lines [])) (lower (nth j lines [])))
          (if contains (u "%") (nth j lines []) && contains (u "нанят") (lower (nth j lines []))
           then Some (nth j lines []) else hired)).
        cbv zeta in IH.
        destruct (w_price (scan_window fuel lines limit (S j) _ _)) as [p|].
        -- destruct IH as (A & B & C & D & E).
           split; [lia|]. split; [lia|]. split; [exact C|]. split; [exact D|].
           intros j' Hj'. destruct (Nat.eq_dec j' j) as [->|N]; [exact P|].
           apply E. lia.
        -- intros j' H1 H2. destruct (Nat.eq_dec j' j) as [->|N]; [exact P|].
           apply IH; lia.
    + cbn [w_price]. intros j' H1 H2. lia.
Qed.

(** The window of a title, read as a whole. *)
Lemma window_of_spec (lines : list str) (i : nat) :
  let limit := Nat.min (List.length lines) (i + 20) in
  let w := window_of lines i in
  match w_price w with
  | Some p =>
      (i < w_j w < limit)%nat
      /\ price_line (nth (w_j w) lines []) = true
      /\ p = strip (replace_char ER [ROUBLE] (nth (w_j w) lines []))
      /\ (forall j', (i < j' < w_j w)%nat -> price_line (nth j' lines []) = false)
  | None =>
      forall j', (i < j' < limit)%nat -> price_line (nth j' lines []) = false
  end.
Proof.
  cbv zeta. unfold window_of.
  pose proof (scan_window_spec lines (Nat.min (List.length lines) (i + 20))
                (Nat.min (List.length lines) (i + 20) - (i + 1)) (i + 1) None None) as H.
  cbv zeta in H.
  destruct (w_price (scan_window _ lines _ (i + 1) None None)) as [p|].
  - destruct H as (A & B & C & D & E).
    split; [lia|]. split; [exact C|]. split; [exact D|].
    intros j' Hj'. apply E. lia.
  - intros j' Hj'. apply H; lia.
Qed.

(** *** One turn of the outer loop *)




End ParserFacts.


(** ** What makes a record *)

Lemma lstrip_keeps_last (l : str) (c : Z) :
  isspace c = false -> exists l', lstrip (l ++ [c]) = l' ++ [c].
Proof.
  intros Hc. induction l as [|x l IH]; cbn [app lstrip].
  - rewrite Hc. exists []. reflexivity.
  - destruct (isspace x); [exact IH|]. exists (x :: l). reflexivity.
Qed.

Lemma strip_head (c : Z) (r : str) :
  isspace c = false -> exists r', strip (c :: r) = c :: r'.
Proof.
  intros Hc. unfold strip, rstrip. cbn [lstrip]. rewrite Hc. cbn [rev].
  destruct (lstrip_keeps_last (rev r) c Hc) as [l' E]. rewrite E.
  rewrite rev_app_distr. exists (rev l'). reflexivity.
Qed.

Lemma lstrip_stripped (s : str) : lstrip s = [] \/ stripped_line (lstrip s).
Proof.
  induction s as [|c s IH]; cbn [lstrip]; [left; reflexivity|].
  destruct (isspace c) eqn:E; [exact IH|]. right. exists c, s. auto.
Qed.

Lemma strip_stripped (s : str) : strip s = [] \/ stripped_line (strip s).
Proof.
  unfold strip. destruct (lstrip_stripped s) as [E|(c & r & E & Hc)].
  - rewrite E. left. reflexivity.
  - rewrite E. right. destruct (strip_head c r Hc) as [r' E'].
    unfold strip in E'. cbn [lstrip] in E'. rewrite Hc in E'.
    exists c, r'. auto.
Qed.

Lemma lines_of_stripped (text : str) : Forall stripped_line (lines_of text).
Proof.
  unfold lines_of. apply Forall_forall. intros l Hl.
  apply filter_In in Hl. destruct Hl as [Hl Ht].
  apply in_map_iff in Hl. destruct Hl as (s & <- & _).
  destruct (strip_stripped s) as [E|E]; [rewrite E in Ht; discriminate|exact E].
Qed.

Lemma nth_stripped (lines : list str) (j : nat) :
  Forall stripped_line lines -> (j < List.length lines)%nat ->
  stripped_line (nth j lines []).
Proof.
  intros H Hj. rewrite Forall_forall in H. apply H. apply nth_In. exact Hj.
Qed.

(** The stored price of a kept line is not empty. *)
Lemma stored_price_truthy (line : str) :
  stripped_line line -> truthy (strip (replace_char ER [ROUBLE] line)) = true.
Proof.
  intros (c & r & -> & Hc). unfold replace_char. cbn [flat_map].
  destruct (c =? ER).
  - cbn [app]. destruct (strip_head ROUBLE (flat_map (fun c0 => if c0 =? ER then [ROUBLE] else [c0]) r)
                           eq_refl) as [r' E].
    rewrite E. reflexivity.
  - cbn [app]. destruct (strip_head c (flat_map (fun c0 => if c0 =? ER then [ROUBLE] else [c0]) r)
                           Hc) as [r' E].
    rewrite E. reflexivity.
Qed.

Section PatternFacts.

Context {U : UnicodeData}.

Lemma lit_match_startswith (p : str) :
  forall pv s,
  match lit_match no_flags p pv s with Some _ => true | None => false end
  = startswith p s.
Proof.
  induction p as [|a p IH]; intros pv s; cbn [lit_match startswith].
  - destruct s; reflexivity.
  - destruct s as [|c s]; [reflexivity|].
    unfold lit_eq. cbn [IGNORECASE no_flags].
    destruct (a =? c); cbn [andb]; [apply IH|reflexivity].
Qed.

(** [re.search] of a literal is the test [in]. *)
Lemma search_literal (p s : str) :
  is_match (re_search no_flags (Lit p) s) = contains p s.
Proof.
  unfold re_search. generalize (@None Z) as pv.
  induction s as [|c s IH]; intros pv; cbn [search_from rmatch contains prev rest caps].
  - pose proof (lit_match_startswith p pv []) as L.
    destruct (lit_match no_flags p pv []) as [[pv' s']|]; rewrite <- L; reflexivity.
  - pose proof (lit_match_startswith p pv (c :: s)) as L.
    destruct (lit_match no_flags p pv (c :: s)) as [[pv' s']|]; rewrite <- L.
    + reflexivity.
    + cbn [orb]. apply IH.
Qed.

Lemma category_of_spec (lines : list str) (i : nat) :
  Forall stripped_line lines ->
  truthy_opt (category_of lines i)
  = ((i + 1 <? List.length lines)%nat && contains (u ">") (nth (i + 1) lines [])).
Proof.
  intros Hs. unfold category_of, cat_re. rewrite search_literal.
  destruct (Nat.ltb_spec (i + 1) (List.length lines)) as [Hlt|Hge]; cbn [andb];
    [|reflexivity].
  destruct (contains (u ">") (nth (i + 1) lines [])); [|reflexivity].
  destruct (nth_stripped lines (i + 1) Hs Hlt) as (c & r & E & _).
  cbn [truthy_opt]. rewrite E. reflexivity.
Qed.

(** C5, as the code has it. On the lines of a text, a turn of the scan
    appends a record exactly when the title is not boilerplate, the next
    line holds [>] (the category) and a price line stands in the window. The
    record holds that title, that category and the price of the first price
    line; the buyer and the hire note play no part, and no url is set
    yet. *)
Theorem record_needs_category_and_price (text : str) (i : nat) :
  let lines := lines_of text in
  ((exists p, fst (scan_step lines i) = Some p) <->
   boilerplate (nth i lines []) = false
   /\ ((i + 1 < List.length lines)%nat
       /\ contains (u ">") (nth (i + 1) lines []) = true)
   /\ (exists j, (i < j < Nat.min (List.length lines) (i + 20))%nat
                 /\ price_line (nth j lines []) = true))
  /\ (forall p, fst (scan_step lines i) = Some p ->
        title p = nth i lines []
        /\ category p = Some (nth (i + 1) lines [])
        /\ (exists j, (i < j < Nat.min (List.length lines) (i + 20))%nat
                      /\ price_line (nth j lines []) = true
                      /\ price p
                         = Some (strip (replace_char ER [ROUBLE] (nth j lines []))))
        /\ url p = None).
Proof.
  cbv zeta. set (lines := lines_of text).
  pose proof (lines_of_stripped text) as Hs. fold lines in Hs.
  pose proof (window_of_spec lines i) as W. cbv zeta in W.
  pose proof (category_of_spec lines i Hs) as C.
  split; [split|].
  - intros [p Hp]. unfold scan_step in Hp.
    destruct (boilerplate (nth i lines [])); [discriminate|]. cbn [fst] in Hp.
    destruct (truthy_opt (category_of lines i) && truthy_opt (w_price (window_of lines i)))
      eqn:E; [|discriminate].
    apply andb_true_iff in E. destruct E as [E1 E2]. rewrite C in E1.
    apply andb_true_iff in E1. destruct E1 as [E1 E3]. apply Nat.ltb_lt in E1.
    destruct (w_price (window_of lines i)); [|discriminate].
    split; [reflexivity|]. split; [auto|].
    exists (w_j (window_of lines i)). tauto.
  - intros (Hb & (Hlt & Hc) & (j & Hj & Hp)). unfold scan_step. rewrite Hb.
    rewrite C. apply Nat.ltb_lt in Hlt. rewrite Hlt, Hc. cbn [andb].
    destruct (w_price (window_of lines i)) as [p|] eqn:P.
    + destruct W as (A & B & D & _). subst p. cbn [truthy_opt].
      rewrite (stored_price_truthy (nth (w_j (window_of lines i)) lines [])).
      * cbn [truthy_opt fst]. eexists. reflexivity.
      * apply nth_stripped; [exact Hs|lia].
    + rewrite (W j Hj) in Hp. discriminate.
  - intros p Hp. unfold scan_step in Hp.
    destruct (boilerplate (nth i lines [])); [discriminate|]. cbn [fst] in Hp.
    destruct (truthy_opt (category_of lines i) && truthy_opt (w_price (window_of lines i)))
      eqn:E; [|discriminate].
    injection Hp as <-. cbn [title category price url].
    apply andb_true_iff in E. destruct E as [E1 E2].
    unfold category_of in *.
    destruct ((i + 1 <? List.length lines)%nat
              && is_match (re_search no_flags cat_re (nth (i + 1) lines [])));
      [|discriminate].
    destruct (w_price (window_of lines i)) as [pr|]; [|discriminate].
    destruct W as (A & B & D & _). subst pr.
    split; [reflexivity|]. split; [reflexivity|]. split; [|reflexivity].
    exists (w_j (window_of lines i)). auto.
Qed.

End PatternFacts.

(** C5 does not hold as stated: a title followed by a price line, with no
    category line between them, gives no record. *)
Lemma title_and_price_without_category :
  let text := u "Сделать сайт
500 ₽" in
  let lines := lines_of text in
  lines = [u "Сделать сайт"; u "500 ₽"]
  /\ boilerplate (nth 0 lines []) = false
  /\ price_line (nth 1 lines []) = true
  /\ w_price (window_of lines 0) = Some (u "500 ₽")
  /\ scan_step lines 0 = (None, 1%nat)
  /\ parse_from_text text
     = Ok {| available := None; total := None; timeframe := None; projects := [] |}.
Proof. vm_compute. repeat split. Qed.

Lemma record_witness :
  let lines := lines_of listing_text in
  (exists p, fst (scan_step lines 9) = Some p)
  /\ buyer (nth 1 (match parse_from_text listing_text with
                   | Ok d => projects d | Raise _ => [] end)
                {| title := []; category := None; buyer := Some []; hired := Some [];
                   price := None; url := None |}) = None.
Proof.
  cbv zeta. split.
  - apply (proj1 (record_needs_category_and_price listing_text 9)).
    split; [vm_compute; reflexivity|].
    split; [split; [vm_compute; lia|vm_compute; reflexivity]|].
    exists 11%nat. split; [split; vm_compute; lia|vm_compute; reflexivity].
  - vm_compute. reflexivity.
Defined.

(** ** Hyperlinks *)

Lemma eqb_eq (a b : str) : PyStr.eqb a b = true <-> a = b.
Proof.
  revert b. induction a as [|x a IH]; intros [|y b]; cbn [PyStr.eqb];
    try (split; [discriminate|discriminate]); [tauto|].
  rewrite andb_true_iff, Z.eqb_eq, IH. split; [intros [-> ->]; reflexivity|].
  intros [= -> ->]. auto.
Qed.

Lemma eqb_refl (a : str) : PyStr.eqb a a = true.
Proof. apply eqb_eq. reflexivity. Qed.

Lemma eqb_sym (a b : str) : PyStr.eqb a b = PyStr.eqb b a.
Proof.
  destruct (PyStr.eqb a b) eqn:E.
  - apply eqb_eq in E. subst. symmetry. apply eqb_refl.
  - destruct (PyStr.eqb b a) eqn:E'; [|reflexivity].
    apply eqb_eq in E'. subst. rewrite eqb_refl in E. discriminate.
Qed.

Lemma dedup_n_fuel (n : nat) :
  forall m l, (List.length l <= n)%nat -> (List.length l <= m)%nat ->
              dedup_n n l = dedup_n m l.
Proof.
  induction n as [|n IH]; intros m l Hn Hm.
  - destruct l; [destruct m; reflexivity|cbn in Hn; lia].
  - destruct l as [|x l]; [destruct m; reflexivity|].
    destruct m as [|m]; [cbn in Hm; lia|]. cbn [dedup_n]. f_equal.
    cbn [List.length] in Hn, Hm.
    pose proof (filter_length_le (fun y => negb (PyStr.eqb x y)) l) as F.
    apply IH; lia.
Qed.

Lemma dedup_n_enough (n : nat) (l : list str) :
  (List.length l <= n)%nat -> dedup_n n l = dedup l.
Proof. intros H. unfold dedup. apply dedup_n_fuel; lia. Qed.

Lemma dedup_cons (x : str) (l : list str) :
  dedup (x :: l) = x :: dedup (filter (fun y => negb (PyStr.eqb x y)) l).
Proof.
  unfold dedup at 1. cbn [List.length dedup_n]. f_equal.
  apply dedup_n_enough. apply filter_length_le.
Qed.

Lemma filter_filter {A : Type} (f g : A -> bool) (l : list A) :
  filter f (filter g l) = filter (fun x => g x && f x) l.
Proof.
  induction l as [|x l IH]; [reflexivity|]. cbn [filter].
  destruct (g x); cbn [filter andb]; [destruct (f x)|]; rewrite IH; reflexivity.
Qed.

Lemma keep_unseen_dedup (l : list str) :
  forall seen,
  keep_unseen seen l = dedup (filter (fun y => negb (mem y seen)) l).
Proof.
  induction l as [|x l IH]; intros seen; [reflexivity|].
  cbn [keep_unseen filter]. destruct (mem x seen); cbn [negb]; [apply IH|].
  rewrite dedup_cons. f_equal. rewrite IH, filter_filter. f_equal.
  apply filter_ext. intros y. unfold mem. cbn [existsb].
  rewrite negb_orb, andb_comm. f_equal. f_equal. apply eqb_sym.
Qed.

Lemma links_step_eq (acc : list str * list str) (a : str) :
  links_step acc a
  = if is_project_link (strip a) && negb (mem (strip a) (snd acc))
    then (fst acc ++ [strip a], strip a :: snd acc)
    else acc.
Proof.
  unfold links_step, is_project_link.
  destruct (contains (u "kwork.ru") (strip a)); cbn [negb andb]; [|reflexivity].
  destruct (contains (u "new_offer?project=") (strip a)
            || contains (u "project=") (strip a)); cbn [andb]; [|reflexivity].
  destruct (mem (strip a) (snd acc)); reflexivity.
Qed.

Lemma links_fold (hrefs : list str) :
  forall urls seen,
  fst (fold_left links_step hrefs (urls, seen))
  = urls ++ keep_unseen seen (filter is_project_link (map strip hrefs)).
Proof.
  induction hrefs as [|a hrefs IH]; intros urls seen; cbn [fold_left map filter].
  - cbn [fst keep_unseen]. rewrite app_nil_r. reflexivity.
  - rewrite links_step_eq. cbn [fst snd].
    destruct (is_project_link (strip a)); cbn [andb]; [|apply IH].
    cbn [keep_unseen]. destruct (mem (strip a) seen); cbn [negb]; [apply IH|].
    rewrite IH, <- app_assoc. reflexivity.
Qed.

Lemma links_of_anchors_spec (hrefs : list str) :
  links_of_anchors hrefs = project_links hrefs.
Proof.
  unfold links_of_anchors, project_links. rewrite links_fold. cbn [app].
  rewrite keep_unseen_dedup. f_equal.
  induction (filter is_project_link (map strip hrefs)) as [|x l IH]; [reflexivity|].
  cbn [filter mem existsb negb]. f_equal. exact IH.
Qed.

Lemma dedup_n_In (n : nat) :
  forall l x, In x (dedup_n n l) -> In x l.
Proof.
  induction n as [|n IH]; intros l x; [intros []|].
  destruct l as [|y l]; [intros []|]. cbn [dedup_n In].
  intros [->|H]; [left; reflexivity|].
  right. apply IH in H. apply filter_In in H. tauto.
Qed.

Lemma dedup_n_NoDup (n : nat) : forall l, NoDup (dedup_n n l).
Proof.
  induction n as [|n IH]; intros l; [constructor|].
  destruct l as [|y l]; [constructor|]. cbn [dedup_n]. constructor; [|apply IH].
  intros H. apply dedup_n_In, filter_In in H. destruct H as [_ H].
  rewrite eqb_refl in H. discriminate.
Qed.

Lemma attach_urls_nth (links : list str) (ps : list project) :
  forall idx i p,
  nth_error ps i = Some p ->
  nth_error (attach_urls links idx ps) i
  = Some (if (idx + i <? List.length links)%nat
          then set_url p (nth (idx + i) links [])
          else p).
Proof.
  induction ps as [|q ps IH]; intros idx i p H; [destruct i; discriminate|].
  destruct i as [|i]; cbn [attach_urls nth_error] in *.
  - injection H as <-. rewrite Nat.add_0_r. reflexivity.
  - rewrite (IH (S idx) i p H). rewrite Nat.add_succ_r. reflexivity.
Qed.

Lemma attach_urls_length (links : list str) (ps : list project) :
  forall idx, List.length (attach_urls links idx ps) = List.length ps.
Proof.
  induction ps as [|q ps IH]; intros idx; cbn [attach_urls List.length];
    [reflexivity|]. rewrite IH. reflexivity.
Qed.

Section LinkFacts.

Context {U : UnicodeData}.

Lemma scan_step_url (lines : list str) (i : nat) (p : project) :
  fst (scan_step lines i) = Some p -> url p = None.
Proof.
  unfold scan_step. destruct (boilerplate (nth i lines [])); [discriminate|].
  destruct (truthy_opt (category_of lines i) && truthy_opt (w_price (window_of lines i)));
    [|discriminate].
  cbn [fst]. intros [= <-]. reflexivity.
Qed.

Lemma scan_lines_url (lines : list str) :
  forall fuel i acc,
  Forall (fun p => url p = None) acc ->
  Forall (fun p => url p = None) (scan_lines fuel lines i acc).
Proof.
  induction fuel as [|fuel IH]; intros i acc H; cbn [scan_lines]; [exact H|].
  destruct (i <? List.length lines)%nat; [|exact H].
  pose proof (scan_step_url lines i) as S.
  destruct (scan_step lines i) as [[p|] i']; cbn [fst] in S; apply IH; [|exact H].
  apply Forall_app. split; [exact H|]. constructor; [auto|constructor].
Qed.

Lemma parse_from_text_url (text : str) (data : parse_result) :
  parse_from_text text = Ok data -> Forall (fun p => url p = None) (projects data).
Proof.
  unfold parse_from_text.
  destruct (parse_available text); cbn [bind]; [|discriminate].
  destruct (parse_total text); cbn [bind]; [|discriminate].
  intros [= <-]. cbn [projects]. apply scan_lines_url. constructor.
Qed.

(** C6. The extracted links are the matching targets of the anchors in
    document order, each kept at its first occurrence only; and for a mail
    with an HTML part the record of index [i] gets the link of index [i]
    when there is one, and stays without url otherwise. *)
Theorem links_in_order_attached_by_position
        (get_text : str -> str) (anchors_href : str -> list str)
        (parts : parts) (data : parse_result) :
  truthy (p_html parts) = true ->
  parse_from_text (get_text (p_html parts)) = Ok data ->
  let links := extract_project_links_ordered anchors_href (p_html parts) in
  links = project_links (anchors_href (p_html parts))
  /\ NoDup links
  /\ exists data',
      parse_kwork_email get_text anchors_href parts = Ok data'
      /\ List.length (projects data') = List.length (projects data)
      /\ forall i p,
          nth_error (projects data) i = Some p ->
          url p = None
          /\ nth_error (projects data') i
             = Some (if (i <? List.length links)%nat
                     then set_url p (nth i links [])
                     else p).
Proof.
  intros Hhtml Hparse. cbv zeta.
  unfold extract_project_links_ordered.
  split; [apply links_of_anchors_spec|]. split.
  { rewrite links_of_anchors_spec. unfold project_links, dedup. apply dedup_n_NoDup. }
  unfold parse_kwork_email. rewrite Hhtml, Hparse. cbn [bind].
  unfold extract_project_links_ordered.
  set (links := links_of_anchors (anchors_href (p_html parts))).
  pose proof (parse_from_text_url _ _ Hparse) as Hurl.
  rewrite Forall_forall in Hurl.
  destruct links as [|l links'] eqn:El.
  - exists data. split; [reflexivity|]. split; [reflexivity|].
    intros i p Hp. split; [apply Hurl; eapply nth_error_In; eauto|].
    cbn [List.length]. exact Hp.
  - destruct (projects data) as [|q ps] eqn:Ep.
    + exists data. split; [reflexivity|]. split; [rewrite Ep; reflexivity|].
      intros i p Hp. destruct i; discriminate.
    + eexists. split; [reflexivity|]. cbn [projects with_projects].
      split; [apply attach_urls_length|].
      intros i p Hp. split; [apply Hurl; eapply nth_error_In; eauto|].
      apply (attach_urls_nth (l :: links') (q :: ps) 0 i p Hp).
Qed.

End LinkFacts.

Lemma links_witness :
  (truthy (p_html mail0) = true
   /\ exists data, parse_from_text (text_of_mail0 (p_html mail0)) = Ok data
                   /\ List.length (projects data) = 3%nat)
  /\ extract_project_links_ordered anchors_of_mail0 (p_html mail0) = [link1; link2]
  /\ exists data',
      parse_kwork_email text_of_mail0 anchors_of_mail0 mail0 = Ok data'
      /\ map url (projects data') = [Some link1; Some link2; None].
Proof.
  destruct (parse_from_text (text_of_mail0 (p_html mail0)))
    as [data|e] eqn:E; [|vm_compute in E; discriminate].
  split; [split; [reflexivity|]|].
  { exists data. split; [reflexivity|]. vm_compute in E. injection E as <-. reflexivity. }
  destruct (links_in_order_attached_by_position
              text_of_mail0 anchors_of_mail0 mail0 data eq_refl E)
    as (_ & _ & data' & Hd & _ & _).
  split; [vm_compute; reflexivity|].
  exists data'. split; [exact Hd|].
  vm_compute in Hd. injection Hd as <-. vm_compute. reflexivity.
Defined.

(** ** The notice of [compose_message] *)

Lemma startswith_app (p r : str) : startswith p (p ++ r) = true.
Proof.
  induction p as [|a p IH]; cbn [app startswith]; [destruct r; reflexivity|].
  rewrite Z.eqb_refl, IH. reflexivity.
Qed.

Lemma contains_suffix (p s : str) : contains p (s ++ p) = true.
Proof.
  induction s as [|c s IH]; cbn [app].
  - destruct p as [|a p]; [reflexivity|].
    cbn [contains]. rewrite <- (app_nil_r (a :: p)) at 2.
    rewrite startswith_app. reflexivity.
  - cbn [contains]. rewrite IH. apply orb_true_r.
Qed.

Lemma strip_between (c d : Z) (s : str) :
  isspace c = false -> isspace d = false ->
  strip (c :: s ++ [d]) = c :: s ++ [d].
Proof.
  intros Hc Hd. unfold strip, rstrip. cbn [lstrip]. rewrite Hc.
  change (c :: s ++ [d]) with ((c :: s) ++ [d]).
  rewrite rev_app_distr. cbn [rev app lstrip]. rewrite Hd.
  change (d :: rev s ++ [c]) with ([d] ++ rev (c :: s)).
  rewrite rev_app_distr, rev_involutive. reflexivity.
Qed.

Lemma header_of_head (meta : parts) (data : parse_result) :
  exists r, header_of meta data = 128236 :: r.
Proof.
  unfold header_of.
  assert (H : exists r, u "📬 <b>Kwork: новые проекты</b>" = 128236 :: r).
  { eexists. vm_compute. reflexivity. }
  destruct H as [r0 ->].
  destruct (available data) as [a|]; [destruct (total data) as [t|];
    [destruct (truthy_opt (timeframe data))|]|];
    destruct (truthy (p_subject meta)); cbn [app]; eexists; reflexivity.
Qed.

Lemma strip_framed (h n r n0 : str) (c d : Z) :
  h = c :: r -> n = n0 ++ [d] -> isspace c = false -> isspace d = false ->
  strip (h ++ 10 :: 10 :: n) = h ++ 10 :: 10 :: n.
Proof.
  intros -> -> Hc Hd.
  assert (E : (c :: r) ++ 10 :: 10 :: n0 ++ [d] = c :: (r ++ 10 :: 10 :: n0) ++ [d]).
  { cbn [app]. rewrite <- app_assoc. reflexivity. }
  rewrite E. apply strip_between; assumption.
Qed.

Lemma join_three (sep a b c : str) :
  join sep [a; b; c] = a ++ sep ++ b ++ sep ++ c.
Proof. reflexivity. Qed.

Lemma notice_last : NOTICE = removelast NOTICE ++ [46].
Proof. vm_compute. reflexivity. Qed.

(** With no project to show, the text ends with the notice that the mail
    could not be parsed, whatever [MAX_ITEMS] is. *)
Lemma compose_message_notice (MAX_ITEMS : Z) (meta : parts) (data : parse_result) :
  projects data = [] ->
  compose_message MAX_ITEMS meta data = Ok (header_of meta data ++ 10 :: 10 :: NOTICE)
  /\ contains NOTICE (header_of meta data ++ 10 :: 10 :: NOTICE) = true.
Proof.
  intros Hp. split.
  - unfold compose_message. rewrite Hp.
    assert (E : upto MAX_ITEMS (@nil project) = []).
    { unfold upto. destruct (MAX_ITEMS <? 0); apply firstn_nil. }
    rewrite E. unfold projects_lines, bind.
    change (([header_of meta data; []] ++ []) ++ [NOTICE])
      with [header_of meta data; []; NOTICE].
    rewrite join_three.
    change (header_of meta data ++ [10] ++ [] ++ [10] ++ NOTICE)
      with (header_of meta data ++ 10 :: 10 :: NOTICE).
    destruct (header_of_head meta data) as [r Hh].
    rewrite (strip_framed (header_of meta data) NOTICE r (removelast NOTICE)
               128236 46 Hh notice_last eq_refl eq_refl).
    reflexivity.
  - change (10 :: 10 :: NOTICE) with ([10; 10] ++ NOTICE).
    rewrite app_assoc. apply contains_suffix.
Qed.

(** ** Two texts the parser mishandles *)

Section PriceLines.

Context {U : UnicodeData}.

(** A repetition hands over to what follows it at a suffix of the text. *)
Lemma rep_match_rest (fl : flags) (cs : cset) (min : nat) (greedy : bool)
      (cp : list str) (k : mstate -> option (list str)) (g : list str) (s : str) :
  forall count pv,
  rep_match fl cs min greedy cp k count pv s = Some g ->
  exists pre s' pv', s = pre ++ s'
                     /\ k {| prev := pv'; rest := s'; caps := cp |} = Some g.
Proof.
  induction s as [|c s IH]; intros count pv H; cbn [rep_match] in H.
  - exists [], [], pv. split; [reflexivity|].
    destruct greedy; destruct (min <=? count)%nat; try discriminate;
      destruct (k {| prev := pv; rest := []; caps := cp |}); try discriminate;
      exact H.
  - assert (Hmore : forall count', rep_match fl cs min greedy cp k count' (Some c) s = Some g ->
                      exists pre s' pv', c :: s = pre ++ s'
                        /\ k {| prev := pv'; rest := s'; caps := cp |} = Some g).
    { intros count' R. destruct (IH _ _ R) as (pre & s' & pv' & -> & K).
      exists (c :: pre), s', pv'. auto. }
    assert (Hstop : k {| prev := pv; rest := c :: s; caps := cp |} = Some g ->
                    exists pre s' pv', c :: s = pre ++ s'
                      /\ k {| prev := pv'; rest := s'; caps := cp |} = Some g).
    { intros K. exists [], (c :: s), pv. auto. }
    destruct greedy.
    + destruct (cset_mem fl cs c).
      * destruct (rep_match fl cs min true cp k (S count) (Some c) s) eqn:R.
        -- injection H as ->. apply (Hmore _ R).
        -- destruct (min <=? count)%nat; [apply Hstop, H|discriminate].
      * destruct (min <=? count)%nat; [apply Hstop, H|discriminate].
    + destruct (min <=? count)%nat.
      * destruct (k {| prev := pv; rest := c :: s; caps := cp |}) eqn:K.
        -- injection H as ->. apply Hstop. reflexivity.
        -- destruct (cset_mem fl cs c); [apply (Hmore _ H)|discriminate].
      * destruct (cset_mem fl cs c); [apply (Hmore _ H)|discriminate].
Qed.

(** A line that [price_re] accepts ends with a character that the letter
    or the sign of the pattern matches when case is ignored, a line feed
    after it apart. *)
Lemma price_line_end (line : str) :
  price_line line = true ->
  exists body c tail,
    line = body ++ c :: tail
    /\ (ignorecase_eq ER c || ignorecase_eq ROUBLE c) = true
    /\ (tail = [] \/ tail = [10]).
Proof.
  unfold price_line, re_match, price_re, star. cbn [cat rmatch prev rest caps].
  destruct line as [|c0 s0]; [discriminate|].
  destruct (cset_mem ignorecase CDigit c0); [|discriminate].
  intros H.
  match type of H with
  | is_match ?m = true => destruct m as [g|] eqn:R; [clear H|discriminate]
  end.
  apply rep_match_rest in R. destruct R as (pre1 & s1 & pv1 & -> & R).
  cbn [rmatch prev rest caps] in R.
  apply rep_match_rest in R. destruct R as (pre2 & s2 & pv2 & -> & R).
  cbn [rmatch prev rest caps lit_match] in R.
  assert (E : exists c tail, s2 = c :: tail
                /\ (ignorecase_eq ER c || ignorecase_eq ROUBLE c) = true
                /\ (tail = [] \/ tail = [10])).
  { destruct s2 as [|c tail]; [discriminate|].
    unfold lit_eq in R. cbn [IGNORECASE ignorecase] in R.
    change (u "Р") with [ER] in R. change (u "₽") with [ROUBLE] in R.
    cbn [lit_match] in R. unfold lit_eq in R. cbn [IGNORECASE ignorecase] in R.
    exists c, tail. split; [reflexivity|].
    assert (T : forall (o : option (list str)) (g' : list str),
               match tail with
               | [] => o
               | [c1] => if c1 =? 10 then o else None
               | _ => None
               end = Some g' -> tail = [] \/ tail = [10]).
    { intros o g'. destruct tail as [|c1 [|c2 t]]; [auto| |discriminate].
      destruct (Z.eqb_spec c1 10) as [->|]; [auto|discriminate]. }
    destruct (ignorecase_eq ER c) eqn:A.
    - split; [reflexivity|].
      cbn [prev rest caps] in R.
      destruct (match tail with [] => _ | _ => _ end) eqn:K in R.
      + eapply T. exact K.
      + destruct (ignorecase_eq ROUBLE c); [|discriminate].
        cbn [prev rest caps] in R. eapply T. exact R.
    - destruct (ignorecase_eq ROUBLE c); [|discriminate].
      split; [reflexivity|].
      cbn [prev rest caps] in R. eapply T. exact R. }
  destruct E as (c & tail & -> & Hc & Ht).
  exists (c0 :: pre1 ++ pre2), c, tail. split; [|auto].
  cbn [app]. rewrite <- app_assoc. reflexivity.
Qed.

Lemma strip_keeps_last (l : str) (c : Z) :
  isspace c = false -> exists l', strip (l ++ [c]) = l' ++ [c].
Proof.
  intros Hc. unfold strip, rstrip.
  destruct (lstrip_keeps_last l c Hc) as [l' ->]. exists l'.
  rewrite rev_app_distr. cbn [rev app lstrip]. rewrite Hc.
  change (c :: rev l') with ([c] ++ rev l').
  rewrite rev_app_distr, rev_involutive. reflexivity.
Qed.

(** A line of [lines_of] ends with a character that is not white space. *)
Lemma lines_of_end (text line : str) :
  In line (lines_of text) -> exists b d, line = b ++ [d] /\ isspace d = false.
Proof.
  unfold lines_of. intros Hl. apply filter_In in Hl. destruct Hl as [Hl Ht].
  apply in_map_iff in Hl. destruct Hl as (s & <- & _).
  unfold strip, rstrip in *.
  destruct (lstrip_stripped (rev (lstrip s))) as [E|(d & r & E & Hd)]; rewrite E in *.
  - discriminate.
  - exists (rev r), d. auto.
Qed.

(** What is stored for a price line of the text: the line ends with a
    character that the letter or the sign matches when case is ignored, and
    the stored price ends with the sign when that character is the capital
    letter, and with that character otherwise. *)
Lemma stored_price_end (text line : str) :
  In line (lines_of text) -> price_line line = true ->
  exists body c stored,
    line = body ++ [c]
    /\ (ignorecase_eq ER c || ignorecase_eq ROUBLE c) = true
    /\ strip (replace_char ER [ROUBLE] line)
       = stored ++ [if c =? ER then ROUBLE else c].
Proof.
  intros Hl Hp.
  destruct (lines_of_end text line Hl) as (b & d & E & Hd).
  destruct (price_line_end line Hp) as (body & c & tail & E' & Hc & [->| ->]).
  - assert (c = d).
    { rewrite E in E'. apply (f_equal (@rev Z)) in E'.
      rewrite !rev_app_distr in E'. cbn in E'. congruence. }
    subst d. exists body, c.
    assert (Hs : isspace (if c =? ER then ROUBLE else c) = false).
    { destruct (c =? ER); [reflexivity|exact Hd]. }
    destruct (strip_keeps_last (replace_char ER [ROUBLE] body) _ Hs) as [stored Es].
    exists stored. split; [exact E'|]. split; [exact Hc|].
    rewrite E'. unfold replace_char in *. rewrite flat_map_app. cbn [flat_map].
    rewrite app_nil_r.
    destruct (c =? ER); exact Es.
  - assert (d = 10).
    { rewrite E in E'. apply (f_equal (@rev Z)) in E'.
      rewrite !rev_app_distr in E'. cbn in E'. congruence. }
    subst d. discriminate.
Qed.

End PriceLines.

(** With the tables of [basic_tables], the last character of a price line
    is the capital letter, the small letter or the sign. *)
Lemma price_letters (c : Z) :
  (ignorecase_eq ER c || ignorecase_eq ROUBLE c) = true
  <-> c = ER \/ c = er_small \/ c = ROUBLE.
Proof.
  unfold ignorecase_eq, basic_tables, lower_cp, ER, ROUBLE, er_small.
  cbn [andb Z.leb Z.compare Pos.compare Pos.compare_cont].
  rewrite orb_true_iff, !Z.eqb_eq.
  destruct (Z.leb_spec 65 c); destruct (Z.leb_spec c 90);
    destruct (Z.leb_spec 1040 c); destruct (Z.leb_spec c 1071);
    destruct (Z.leb_spec 1024 c); destruct (Z.leb_spec c 1039);
    cbn [andb]; lia.
Qed.

(** With these tables, the stored price of a price line ends with the
    sign, except for a line that ends with the small letter: there it ends
    with that letter. *)
Lemma stored_price_letter (text line : str) :
  In line (lines_of text) -> price_line line = true ->
  exists body c stored,
    line = body ++ [c]
    /\ (c = ER \/ c = er_small \/ c = ROUBLE)
    /\ strip (replace_char ER [ROUBLE] line)
       = stored ++ [if c =? er_small then er_small else ROUBLE].
Proof.
  intros Hl Hp.
  destruct (stored_price_end text line Hl Hp) as (body & c & stored & E & Hc & Es).
  exists body, c, stored. split; [exact E|].
  apply price_letters in Hc. split; [exact Hc|].
  rewrite Es. destruct Hc as [->|[->| ->]]; reflexivity.
Qed.

(** C8. The price pattern, which ignores case, accepts the line [500 р]
    with the lower case letter; [replace] rewrites the capital letter only,
    and the stored price keeps the letter. *)
Lemma lowercase_abbreviation_is_kept :
  price_line (u "500 р") = true
  /\ parse_from_text lowercase_price_text
     = Ok {| available := None; total := None; timeframe := None;
             projects := [{| title := u "Сделать сайт";
                             category := Some (u "Разработка > Сайты");
                             buyer := None; hired := None;
                             price := Some (u "500 р"); url := None |}] |}
  /\ last (u "500 р") 0 = 1088 /\ ROUBLE = 8381 /\ ER = 1056.
Proof. vm_compute. repeat split. Qed.

(** C9. [parse_from_text] raises [ValueError] on a total whose digits are
    separated by a no-break space: the pattern takes the space into the
    group, [replace] removes plain spaces only and [int] refuses the
    rest. *)
Lemma total_with_inner_space_raises :
  re_search ignorecase_dotall total_re total_nbsp_text
  = Some [u "6 дней"; [49; 160; 56; 56; 54]]
  /\ py_int (replace_char 32 [] [49; 160; 56; 56; 54]) = Raise ValueError
  /\ parse_from_text total_nbsp_text = Raise ValueError.
Proof. vm_compute. repeat split. Qed.

Lemma parse_total_nbsp : parse_from_text total_nbsp_text = Raise ValueError.
Proof. vm_compute. reflexivity. Qed.

(** A mail with such a total stops the watcher: nothing is sent for it,
    the cursor stays where it was, and the wake ends with the exception,
    which restarts the session. *)
Lemma drain_stops_at_such_total
      (extract_parts : bytes -> result parts) (get_text : str -> str)
      (anchors_href : str -> list str) (MAX_ITEMS : Z)
      (local : Z -> Z)
      (disk : json -> file -> disk_answer) (M : Z) (to_user : bool) (clock : nat -> datetime)
      (dt : datetime) (uid : Z) (raw : bytes) (mail : parts)
      (rest : list candidate) (st : State) :
  extract_parts raw = Ok mail ->
  p_html mail = [] ->
  p_plain mail = total_nbsp_text ->
  select_new M clock 0 (_last_seen st) ((dt, uid, raw) :: rest)
  = Ok ((dt, uid, raw) :: rest) ->
  drain local disk M to_user (render_mail extract_parts get_text anchors_href MAX_ITEMS)
        clock ((dt, uid, raw) :: rest) st
  = (st, Raise ValueError).
Proof.
  intros He Hh Hp Hs. unfold drain. rewrite Hs. cbn [deliver].
  unfold render_mail, parse_kwork_email. rewrite He. cbn [bind]. rewrite Hh, Hp.
  cbn [truthy]. rewrite parse_total_nbsp. reflexivity.
Qed.

(** * Further properties of the code *)

(** ** The chat ids *)

Lemma strip_id (s b r : str) (c d : Z) :
  s = c :: r -> s = b ++ [d] -> isspace c = false -> isspace d = false ->
  strip s = s.
Proof.
  intros E1 E2 Hc Hd. unfold strip, rstrip.
  rewrite E1. cbn [lstrip]. rewrite Hc. rewrite <- E1, E2.
  rewrite rev_app_distr. cbn [rev app lstrip]. rewrite Hd.
  change (d :: rev b) with ([d] ++ rev b).
  rewrite rev_app_distr, rev_involutive. reflexivity.
Qed.

(** [int] drops no white space from a text that has none at its ends. *)
Lemma int_strip_id (s b r : str) (c d : Z) :
  s = c :: r -> s = b ++ [d] -> isspace c = false -> isspace d = false ->
  int_strip s = s.
Proof.
  intros E1 E2 Hc Hd. unfold int_strip.
  assert (Ic : int_space c = false) by (unfold int_space; rewrite Hc; reflexivity).
  assert (Id : int_space d = false) by (unfold int_space; rewrite Hd; reflexivity).
  rewrite E1. cbn [int_lstrip]. rewrite Ic. rewrite <- E1, E2.
  rewrite rev_app_distr. cbn [rev app int_lstrip]. rewrite Id.
  change (d :: rev b) with ([d] ++ rev b).
  rewrite rev_app_distr, rev_involutive. reflexivity.
Qed.

(** A text of at most 4300 characters is within the bound that [int]
    puts on the digits. *)
Lemma within_digit_limit {U : UnicodeData} (s : str) :
  (List.length s <= 4300)%nat ->
  (MAX_STR_DIGITS <? Z.of_nat (List.length (filter is_digit s))) = false.
Proof.
  intros H. apply Z.ltb_ge. pose proof (filter_length_le is_digit s) as L.
  unfold MAX_STR_DIGITS. lia.
Qed.

(** The digits that [str] writes for a number that is not negative: as
    many as the number needs. *)
Lemma digits_before_spec (fuel : nat) :
  forall n acc,
  0 <= n < 2 * 2 ^ Z.of_nat fuel ->
  exists ds, digits_before (S fuel) n acc = ds ++ acc
             /\ ds <> []
             /\ Forall (fun c => 48 <= c <= 57) ds
             /\ (forall a, digits_number ds a = a * 10 ^ Z.of_nat (List.length ds) + n)
             /\ (List.length ds = 1%nat
                 \/ 10 ^ (Z.of_nat (List.length ds) - 1) <= n).
Proof.
  induction fuel as [|fuel IH]; intros n acc Hn;
    pose proof (Z.mod_pos_bound n 10 ltac:(lia)) as Hm;
    pose proof (Z.div_mod n 10 ltac:(lia)) as Hd.
  - change (2 ^ Z.of_nat 0) with 1 in Hn.
    assert (E : n / 10 = 0) by (apply Z.div_small; lia).
    exists [48 + n mod 10]. split.
    { cbn [digits_before]. destruct (n / 10 =? 0); reflexivity. }
    split; [discriminate|]. split; [|split].
    + repeat constructor; lia.
    + intros a. unfold digits_number. cbn [fold_left List.length].
      change (Z.of_nat 1) with 1. rewrite Z.pow_1_r. lia.
    + left. reflexivity.
  - change (digits_before (S (S fuel)) n acc)
      with (if n / 10 =? 0 then (48 + n mod 10) :: acc
            else digits_before (S fuel) (n / 10) ((48 + n mod 10) :: acc)).
    destruct (Z.eqb_spec (n / 10) 0) as [E|E].
    + exists [48 + n mod 10]. split; [reflexivity|]. split; [discriminate|].
      split; [|split].
      * repeat constructor; lia.
      * intros a. unfold digits_number. cbn [fold_left List.length].
        change (Z.of_nat 1) with 1. rewrite Z.pow_1_r. lia.
      * left. reflexivity.
    + assert (Hq : 0 <= n / 10 < 2 * 2 ^ Z.of_nat fuel).
      { split; [apply Z.div_pos; lia|].
        apply Z.div_lt_upper_bound; [lia|].
        rewrite Nat2Z.inj_succ, Z.pow_succ_r in Hn by lia. lia. }
      destruct (IH (n / 10) ((48 + n mod 10) :: acc) Hq)
        as (ds & Eds & Hne & Hall & Hval & Hlen).
      exists (ds ++ [48 + n mod 10]). rewrite Eds, <- app_assoc. split; [reflexivity|].
      split; [destruct ds; discriminate|]. split; [|split].
      * apply Forall_app. split; [exact Hall|]. repeat constructor; lia.
      * intros a. unfold digits_number in *. rewrite fold_left_app. cbn [fold_left].
        rewrite Hval. rewrite length_app. cbn [List.length].
        rewrite Nat2Z.inj_add. change (Z.of_nat 1) with 1.
        rewrite Z.pow_add_r by lia. lia.
      * right. rewrite length_app. cbn [List.length]. rewrite Nat2Z.inj_add.
        change (Z.of_nat 1) with 1.
        replace (Z.of_nat (List.length ds) + 1 - 1)
          with (Z.succ (Z.of_nat (List.length ds) - 1)) by lia.
        assert (Hpos : 0 <= Z.of_nat (List.length ds) - 1).
        { destruct ds; [contradiction|cbn [List.length]; lia]. }
        rewrite Z.pow_succ_r by exact Hpos.
        destruct Hlen as [L|L].
        -- rewrite L. change (10 ^ (Z.of_nat 1 - 1)) with 1. lia.
        -- lia.
Qed.

Lemma log2_fuel (n : Z) : 0 <= n -> 0 <= n < 2 * 2 ^ Z.of_nat (Z.to_nat (Z.log2 n)).
Proof.
  intros Hn. rewrite Z2Nat.id by apply Z.log2_nonneg.
  destruct (Z.eq_dec n 0) as [->|Hz]; [cbn; lia|].
  pose proof (Z.log2_spec n ltac:(lia)) as [_ H].
  rewrite Z.pow_succ_r in H by apply Z.log2_nonneg. lia.
Qed.

(** [str(n)] is a sign, when [n] is negative, and the ASCII digits that
    write the absolute value of [n], as many as it needs. *)
Lemma str_of_int_spec (n : Z) :
  exists ds, str_of_int n = (if n <? 0 then [45] else []) ++ ds
             /\ ds <> []
             /\ Forall (fun c => 48 <= c <= 57) ds
             /\ digits_number ds 0 = Z.abs n
             /\ (List.length ds = 1%nat
                 \/ 10 ^ (Z.of_nat (List.length ds) - 1) <= Z.abs n).
Proof.
  unfold str_of_int. destruct (Z.ltb_spec n 0) as [Hn|Hn].
  - destruct (digits_before_spec (Z.to_nat (Z.log2 (- n))) (- n) []
                (log2_fuel (- n) ltac:(lia))) as (ds & E & Hne & Hall & Hval & Hlen).
    exists ds. rewrite E, app_nil_r. repeat split; auto.
    + rewrite Hval. lia.
    + replace (Z.abs n) with (- n) by lia. exact Hlen.
  - destruct (digits_before_spec (Z.to_nat (Z.log2 n)) n []
                (log2_fuel n Hn)) as (ds & E & Hne & Hall & Hval & Hlen).
    exists ds. rewrite E, app_nil_r. repeat split; auto.
    + rewrite Hval. lia.
    + replace (Z.abs n) with n by lia. exact Hlen.
Qed.

(** A number below [10 ^ 4300] is written with at most 4300 digits. *)
Lemma digits_within_limit (ds : str) (n : Z) :
  List.length ds = 1%nat \/ 10 ^ (Z.of_nat (List.length ds) - 1) <= n ->
  n < 10 ^ MAX_STR_DIGITS ->
  (List.length ds <= 4300)%nat.
Proof.
  intros [L|L] Hn; [rewrite L; apply Nat.leb_le; reflexivity|].
  destruct (Z_le_gt_dec (Z.of_nat (List.length ds)) MAX_STR_DIGITS) as [H|H].
  - unfold MAX_STR_DIGITS in H. lia.
  - exfalso.
    assert (P : 10 ^ MAX_STR_DIGITS <= 10 ^ (Z.of_nat (List.length ds) - 1)).
    { apply Z.pow_le_mono_r; [lia|]. lia. }
    lia.
Qed.

(** What a repetition has read when it hands over: characters of its
    set, at least [min] of them with those counted before. *)
Lemma rep_match_run {U : UnicodeData} (fl : flags) (cs : cset) (min : nat)
      (greedy : bool) (cp : list str) (k : mstate -> option (list str))
      (g : list str) (s : str) :
  forall count pv,
  rep_match fl cs min greedy cp k count pv s = Some g ->
  exists pre s' pv',
    s = pre ++ s'
    /\ Forall (fun c => cset_mem fl cs c = true) pre
    /\ (min <= count + List.length pre)%nat
    /\ k {| prev := pv'; rest := s'; caps := cp |} = Some g.
Proof.
  induction s as [|c s IH]; intros count pv H; cbn [rep_match] in H.
  - exists [], [], pv. cbn [app List.length].
    destruct (Nat.leb_spec min count) as [Hm|Hm].
    + split; [reflexivity|]. split; [constructor|]. split; [lia|].
      destruct greedy; [exact H|].
      destruct (k {| prev := pv; rest := []; caps := cp |}); [exact H|discriminate].
    + destruct greedy; discriminate.
  - assert (Hmore : cset_mem fl cs c = true ->
                    forall count', count' = S count ->
                    rep_match fl cs min greedy cp k count' (Some c) s = Some g ->
                    exists pre s' pv',
                      c :: s = pre ++ s'
                      /\ Forall (fun c => cset_mem fl cs c = true) pre
                      /\ (min <= count + List.length pre)%nat
                      /\ k {| prev := pv'; rest := s'; caps := cp |} = Some g).
    { intros Hc count' -> R.
      destruct (IH _ _ R) as (pre & s' & pv' & -> & Hpre & Hn & K).
      exists (c :: pre), s', pv'. split; [reflexivity|].
      split; [constructor; assumption|]. split; [cbn [List.length]; lia|exact K]. }
    assert (Hstop : (min <= count)%nat ->
                    k {| prev := pv; rest := c :: s; caps := cp |} = Some g ->
                    exists pre s' pv',
                      c :: s = pre ++ s'
                      /\ Forall (fun c => cset_mem fl cs c = true) pre
                      /\ (min <= count + List.length pre)%nat
                      /\ k {| prev := pv'; rest := s'; caps := cp |} = Some g).
    { intros Hm K. exists [], (c :: s), pv. split; [reflexivity|].
      split; [constructor|]. split; [cbn [List.length]; lia|exact K]. }
    destruct greedy.
    + destruct (cset_mem fl cs c) eqn:Hc.
      * destruct (rep_match fl cs min true cp k (S count) (Some c) s) eqn:R.
        -- injection H as ->. apply (Hmore eq_refl _ eq_refl R).
        -- destruct (Nat.leb_spec min count); [apply Hstop; assumption|discriminate].
      * destruct (Nat.leb_spec min count); [apply Hstop; assumption|discriminate].
    + destruct (Nat.leb_spec min count) as [Hm|Hm].
      * destruct (k {| prev := pv; rest := c :: s; caps := cp |}) eqn:K.
        -- injection H as ->. apply Hstop; [exact Hm|reflexivity].
        -- destruct (cset_mem fl cs c) eqn:Hc; [apply (Hmore eq_refl _ eq_refl H)|discriminate].
      * destruct (cset_mem fl cs c) eqn:Hc; [apply (Hmore eq_refl _ eq_refl H)|discriminate].
Qed.

Section ChatIds.

Context {U : UnicodeData}.

Hypothesis tables : digits_plain U.

(** [int] reads a sequence of ASCII digits as the number it writes. *)
Lemma int_digits_ascii (ds : str) :
  Forall (fun c => 48 <= c <= 57) ds ->
  forall acc b, int_digits ds acc b
                = if b || negb (Nat.eqb (List.length ds) 0)
                  then Some (digits_number ds acc) else None.
Proof.
  destruct tables as [Hascii _].
  induction 1 as [|c ds Hc Hds IH]; intros acc b; cbn [int_digits].
  - rewrite orb_false_r. destruct b; reflexivity.
  - replace c with (48 + (c - 48)) at 1 by lia.
    rewrite (Hascii (c - 48)) by lia. rewrite IH. cbn. rewrite orb_true_r.
    reflexivity.
Qed.

(** The repetition [\d+] takes a sequence of digits that ends the text. *)
Lemma digits_to_the_end (cp : list str) (ds : str) :
  Forall (fun c => is_digit c = true) ds ->
  forall count pv,
  (1 <= count + List.length ds)%nat ->
  rep_match no_flags CDigit 1 true cp
            (fun st => match rest st with [] => Some (caps st) | _ => None end)
            count pv ds = Some cp.
Proof.
  induction 1 as [|c ds Hc Hds IH]; intros count pv Hn; cbn [rep_match].
  - cbn in Hn. destruct (Nat.leb_spec 1 count); [reflexivity|lia].
  - unfold is_digit in Hc. cbn [cset_mem].
    destruct (decimal_value c); [|discriminate].
    rewrite IH by (cbn [List.length]; lia). reflexivity.
Qed.

Lemma ascii_digit_is_digit (c : Z) : 48 <= c <= 57 -> is_digit c = true.
Proof.
  intros Hc. destruct tables as [Hascii _]. unfold is_digit.
  replace c with (48 + (c - 48)) by lia. rewrite (Hascii (c - 48)) by lia.
  reflexivity.
Qed.

Lemma digit_not_space (c : Z) : is_digit c = true -> isspace c = false.
Proof.
  unfold is_digit. destruct (decimal_value c) as [d|] eqn:E; [|discriminate].
  intros _. destruct tables as [_ H]. apply (H c d E).
Qed.

(** [int] drops nothing from a text made of an optional minus sign and of
    digits. *)
Lemma signed_digits_ends (sign ds : str) :
  sign = [] \/ sign = [45] ->
  ds <> [] -> Forall (fun c => is_digit c = true) ds ->
  int_strip (sign ++ ds) = sign ++ ds.
Proof.
  intros Hsign Hne Hds.
  destruct ds as [|c0 ds0]; [contradiction|clear Hne].
  destruct (exists_last (l := c0 :: ds0) ltac:(discriminate)) as (b & d & Eb).
  assert (Hd : is_digit d = true).
  { rewrite Forall_forall in Hds. apply Hds. rewrite Eb. apply in_or_app.
    right. left. reflexivity. }
  pose proof (Forall_inv Hds) as Hc0. cbn beta in Hc0.
  destruct Hsign as [-> | ->]; cbn [app].
  - apply (int_strip_id _ b ds0 c0 d eq_refl Eb);
      apply digit_not_space; assumption.
  - apply (int_strip_id _ (45 :: b) (c0 :: ds0) 45 d eq_refl).
    + rewrite Eb. reflexivity.
    + reflexivity.
    + apply digit_not_space; assumption.
Qed.

(** A text made of an optional minus sign and of digits is left as it is
    by [strip] and matches [-?\d+] to its end. *)
Lemma signed_digits_match (sign ds : str) :
  sign = [] \/ sign = [45] ->
  ds <> [] -> Forall (fun c => is_digit c = true) ds ->
  strip (sign ++ ds) = sign ++ ds
  /\ is_match (re_fullmatch no_flags chat_id_re (sign ++ ds)) = true.
Proof.
  intros Hsign Hne Hds.
  destruct ds as [|c0 ds0]; [contradiction|clear Hne].
  assert (Hlast : exists b d, c0 :: ds0 = b ++ [d] /\ is_digit d = true).
  { destruct (exists_last (l := c0 :: ds0) ltac:(discriminate)) as (b & d & E).
    exists b, d. split; [exact E|].
    rewrite Forall_forall in Hds. apply Hds. rewrite E. apply in_or_app.
    right. left. reflexivity. }
  destruct Hlast as (b & d & Eb & Hd).
  pose proof (Forall_inv Hds) as Hc0. cbn beta in Hc0.
  split.
  - destruct Hsign as [-> | ->]; cbn [app].
    + apply (strip_id _ b ds0 c0 d eq_refl Eb);
        apply digit_not_space; assumption.
    + apply (strip_id _ (45 :: b) (c0 :: ds0) 45 d eq_refl).
      * rewrite Eb. reflexivity.
      * reflexivity.
      * apply digit_not_space; assumption.
  - unfold re_fullmatch, chat_id_re, plus. cbn [cat rmatch prev rest caps].
    change (u "-") with [45].
    destruct Hsign as [-> | ->]; cbn [app lit_match].
    + unfold lit_eq. cbn [IGNORECASE no_flags].
      assert (E : (45 =? c0) = false).
      { apply Z.eqb_neq. intros <-. destruct tables as [_ H].
        unfold is_digit in Hc0. destruct (decimal_value 45) as [v|] eqn:Ev;
          [|discriminate].
        destruct (H 45 v Ev) as (_ & _ & Hx & _). apply Hx. reflexivity. }
      rewrite E. cbn [prev rest caps].
      rewrite digits_to_the_end by (auto; cbn [List.length]; lia).
      reflexivity.
    + unfold lit_eq. cbn [IGNORECASE no_flags]. rewrite Z.eqb_refl.
      cbn [prev rest caps].
      rewrite digits_to_the_end by (auto; cbn [List.length]; lia).
      reflexivity.
Qed.

Lemma all_digits_spec (s : str) :
  all_digits s = true <-> s <> [] /\ Forall (fun c => is_digit c = true) s.
Proof.
  unfold all_digits. rewrite andb_true_iff, forallb_forall, Forall_forall.
  destruct s; cbn [truthy]; split; intros [H1 H2]; split; auto; discriminate.
Qed.

(** The pattern [-?\d+] accepts, to their end, the texts that are digits
    after an optional minus sign, and no other. *)
Lemma chat_id_re_spec (v : str) :
  is_match (re_fullmatch no_flags chat_id_re v) = signed_digits v.
Proof.
  destruct (signed_digits v) eqn:S.
  - destruct v as [|c ds]; [discriminate|]. cbn [signed_digits] in S.
    destruct (Z.eqb_spec c 45) as [->|Hc]; apply all_digits_spec in S;
      destruct S as [Hne Hds].
    + apply (signed_digits_match [45] ds); auto.
    + apply (signed_digits_match [] (c :: ds)); auto.
  - destruct (is_match (re_fullmatch no_flags chat_id_re v)) eqn:M; [|reflexivity].
    exfalso. revert M. unfold re_fullmatch, chat_id_re, plus.
    cbn [cat rmatch prev rest caps]. change (u "-") with [45].
    assert (K : forall pv s cp g,
               rep_match no_flags CDigit 1 true cp
                 (fun st => match rest st with [] => Some (caps st) | _ => None end)
                 0 pv s = Some g -> all_digits s = true).
    { intros pv s cp g R. apply rep_match_run in R.
      destruct R as (pre & s' & pv' & -> & Hpre & Hn & R).
      cbn [rest] in R. destruct s'; [|discriminate]. rewrite app_nil_r.
      apply all_digits_spec. split; [destruct pre; [cbn in Hn; lia|discriminate]|].
      exact Hpre. }
    intros M.
    match type of M with
    | is_match ?m = true => destruct m as [g|] eqn:R; [clear M|discriminate]
    end.
    destruct v as [|c ds]; cbn [signed_digits] in S.
    + cbn [lit_match prev rest caps] in R.
      apply K in R. discriminate.
    + cbn [lit_match] in R. unfold lit_eq in R. cbn [IGNORECASE no_flags] in R.
      destruct (Z.eqb_spec 45 c) as [<-|Hc].
      * cbn [prev rest caps] in R. rewrite Z.eqb_refl in S.
        destruct (rep_match no_flags CDigit 1 true [] _ 0 (Some 45) ds) eqn:R1 in R.
        -- apply K in R1. congruence.
        -- apply K in R.
           destruct tables as [_ H]. unfold all_digits in R. cbn [truthy forallb] in R.
           unfold is_digit in R at 1.
           destruct (decimal_value 45) as [d|] eqn:E; [|discriminate].
           destruct (H 45 d E) as (_ & _ & Hx & _). apply Hx. reflexivity.
      * replace (c =? 45) with false in S by (symmetry; apply Z.eqb_neq; lia).
        cbn [prev rest caps] in R. apply K in R. congruence.
Qed.

(** [int] of such a text does not raise, when the text is within the
    bound on the digits. *)
Lemma py_int_signed_digits (v : str) :
  signed_digits v = true -> (List.length v <= 4300)%nat ->
  exists n, py_int v = Ok n.
Proof.
  intros S Hlen.
  assert (D : forall ds, Forall (fun c => is_digit c = true) ds ->
                         forall acc, exists n, int_digits ds acc true = Some n).
  { induction 1 as [|c ds Hc Hds IH]; intros acc; cbn [int_digits].
    - eauto.
    - unfold is_digit in Hc. destruct (decimal_value c); [apply IH|discriminate]. }
  assert (D1 : forall ds, all_digits ds = true ->
                          exists n, int_digits ds 0 false = Some n).
  { intros ds Hd. apply all_digits_spec in Hd. destruct Hd as [Hne Hd].
    destruct ds as [|c ds]; [contradiction|]. cbn [int_digits].
    pose proof (Forall_inv Hd) as Hc. cbn beta in Hc. unfold is_digit in Hc.
    destruct (decimal_value c); [|discriminate].
    apply D. apply (Forall_inv_tail Hd). }
  assert (Hs : int_strip v = v).
  { destruct v as [|c ds]; [discriminate|]. cbn [signed_digits] in S.
    destruct (Z.eqb_spec c 45) as [->|Hc]; apply all_digits_spec in S;
      destruct S as [Hne Hds].
    - apply (signed_digits_ends [45] ds); auto.
    - apply (signed_digits_ends [] (c :: ds)); auto. }
  unfold py_int. rewrite Hs.
  destruct v as [|c ds]; [discriminate|]. cbn [signed_digits] in S.
  destruct (Z.eqb_spec c 45) as [->|Hc].
  - cbn [snd fst]. destruct (D1 ds S) as [n ->].
    rewrite within_digit_limit by (cbn [List.length] in Hlen; lia). eauto.
  - assert (Hp : (c =? 43) = false).
    { apply Z.eqb_neq. intros ->. apply all_digits_spec in S. destruct S as [_ S].
      pose proof (Forall_inv S) as Hc'. cbn beta in Hc'. unfold is_digit in Hc'.
      destruct (decimal_value 43) as [d|] eqn:E; [|discriminate].
      destruct tables as [_ H]. destruct (H 43 d E) as (_ & _ & _ & Hx).
      apply Hx. reflexivity. }
    rewrite Hp. cbn [snd fst]. destruct (D1 (c :: ds) S) as [n ->].
    rewrite within_digit_limit by exact Hlen. eauto.
Qed.

End ChatIds.

(** X1. A chat id written as a number, negative or not, is read as that
    number: [_parse_chat_id(str(n)) == n] for every integer [n] of at most
    4300 digits, the bound beyond which [str] and [int] raise. *)
Theorem parse_chat_id_of_number {U : UnicodeData} (n : Z) :
  digits_plain U ->
  Z.abs n < 10 ^ MAX_STR_DIGITS ->
  _parse_chat_id (str_of_int n) = Ok (ChatInt n).
Proof.
  intros tables Hbound.
  destruct (str_of_int_spec n) as (ds & E & Hne & Hall & Hval & Hlen).
  pose proof (digits_within_limit ds (Z.abs n) Hlen Hbound) as Hshort.
  assert (Hds : Forall (fun c => is_digit c = true) ds).
  { eapply Forall_impl; [|exact Hall]. intros c Hc.
    apply (ascii_digit_is_digit tables c Hc). }
  assert (Hsign : (if n <? 0 then [45] else []) = [] \/ (if n <? 0 then [45] else []) = [45]).
  { destruct (n <? 0); auto. }
  destruct (signed_digits_match tables _ ds Hsign Hne Hds) as [Hs Hm].
  pose proof (signed_digits_ends tables _ ds Hsign Hne Hds) as Hi.
  unfold _parse_chat_id. rewrite E, Hs, Hm.
  unfold py_int. rewrite Hi.
  destruct ds as [|c0 ds0]; [contradiction|].
  pose proof (Forall_inv Hall) as Hc0. cbn beta in Hc0.
  destruct (Z.ltb_spec n 0) as [Hn|Hn]; cbn [app].
  - rewrite Z.eqb_refl. cbn [fst snd].
    rewrite (int_digits_ascii tables _ Hall). cbn [orb negb Nat.eqb List.length].
    rewrite within_digit_limit by exact Hshort.
    rewrite Hval. cbn [bind]. f_equal. f_equal. lia.
  - replace (c0 =? 45) with false by (symmetry; apply Z.eqb_neq; lia).
    replace (c0 =? 43) with false by (symmetry; apply Z.eqb_neq; lia).
    cbn [fst snd].
    rewrite (int_digits_ascii tables _ Hall). cbn [orb negb Nat.eqb List.length].
    rewrite within_digit_limit by exact Hshort.
    rewrite Hval. cbn [bind]. f_equal. f_equal. lia.
Qed.

(** X2. [_parse_chat_id] reads a value as a number exactly when the
    value, without the white space around it, is digits after an optional
    minus sign; every other value, a name such as [@kwork_checker] or the
    empty text, is returned as text, without the white space around it. *)
Theorem parse_chat_id_cases {U : UnicodeData} (v : str) :
  digits_plain U ->
  (signed_digits (strip v) = true ->
   (List.length (strip v) <= 4300)%nat ->
   exists n, _parse_chat_id v = Ok (ChatInt n))
  /\ (signed_digits (strip v) = false ->
      _parse_chat_id v = Ok (ChatName (strip v))).
Proof.
  intros tables. unfold _parse_chat_id. rewrite (chat_id_re_spec tables). split.
  - intros S Hlen. rewrite S.
    destruct (py_int_signed_digits tables _ S Hlen) as [n ->]. exists n. reflexivity.
  - intros S. rewrite S. reflexivity.
Qed.

(** The tables of the examples are as [digits_plain] asks. *)
Lemma basic_tables_plain : digits_plain basic_tables.
Proof.
  split.
  - intros k Hk. unfold decimal_value, basic_tables, basic_digit.
    replace ((48 <=? 48 + k) && (48 + k <=? 57)) with true.
    + f_equal. lia.
    + symmetry. apply andb_true_iff. split; apply Z.leb_le; lia.
  - intros c d. unfold decimal_value, basic_tables, basic_digit.
    destruct (Z.leb_spec 48 c); destruct (Z.leb_spec c 57); cbn [andb];
      try discriminate.
    intros [= <-]. split; [lia|]. split; [|lia].
    unfold isspace.
    repeat match goal with
           | |- context [?a <=? ?b] =>
               destruct (Z.leb_spec a b); try lia
           | |- context [?a =? ?b] =>
               destruct (Z.eqb_spec a b); try lia
           end; reflexivity.
Qed.

Lemma parse_chat_id_of_number_witness :
  Z.abs (-1001234567890) < 10 ^ MAX_STR_DIGITS
  /\ _parse_chat_id (str_of_int (-1001234567890)) = Ok (ChatInt (-1001234567890)).
Proof.
  assert (H : Z.abs (-1001234567890) < 10 ^ MAX_STR_DIGITS)
    by (vm_compute; reflexivity).
  split; [exact H|].
  exact (parse_chat_id_of_number (-1001234567890) basic_tables_plain H).
Defined.

Lemma parse_chat_id_cases_witness :
  (exists n, _parse_chat_id (u " -100 ") = Ok (ChatInt n))
  /\ _parse_chat_id (u " @kwork_checker ") = Ok (ChatName (u "@kwork_checker")).
Proof.
  split.
  - apply (proj1 (parse_chat_id_cases (u " -100 ") basic_tables_plain)).
    + reflexivity.
    + apply Nat.leb_le. reflexivity.
  - exact (proj2 (parse_chat_id_cases (u " @kwork_checker ") basic_tables_plain)
                 eq_refl).
Defined.

(** ** Telegram, the folder and the pauses *)

Lemma nth_error_snoc {A : Type} (l : list A) (x : A) (i : nat) :
  nth_error (l ++ [x]) i
  = if (i <? List.length l)%nat then nth_error l i
    else if (i =? List.length l)%nat then Some x else None.
Proof.
  destruct (Nat.ltb_spec i (List.length l)) as [H|H].
  - apply nth_error_app1. exact H.
  - rewrite nth_error_app2 by exact H.
    destruct (Nat.eqb_spec i (List.length l)) as [->|Hn].
    + rewrite Nat.sub_diag. reflexivity.
    + destruct (i - List.length l)%nat as [|k] eqn:E; [lia|].
      cbn. destruct k; reflexivity.
Qed.

(** X3. [send_to_targets] sends the text to the channel first and to the
    user only after the channel took it: it keeps the messages that
    Telegram took such that one to another chat always comes right after
    the same text to the channel. Without [force_user] and with
    [SEND_WATCHER_TO_USER] off, only the channel gets the text. *)
Theorem send_to_targets_channel_first
        (api : chat_id -> str -> result unit) (channel : chat_id)
        (to_user no_preview : bool) (text : str) (user_chat_id : option chat_id)
        (force_user : bool) (sent : list message) :
  channel_first channel sent ->
  let r := send_to_targets api channel to_user no_preview text user_chat_id
                           force_user sent in
  channel_first channel (fst r)
  /\ (force_user = false -> to_user = false ->
      fst r = sent
      \/ fst r = sent ++ [{| m_chat := channel; m_text := text;
                             m_no_preview := no_preview |}]).
Proof.
  intros [Hl Hf].
  set (mc := {| m_chat := channel; m_text := text; m_no_preview := no_preview |}).
  assert (Hcases :
    let r := send_to_targets api channel to_user no_preview text user_chat_id
                             force_user sent in
    fst r = sent \/ fst r = sent ++ [mc]
    \/ (exists user, (force_user || to_user) = true
                     /\ fst r = (sent ++ [mc])
                                ++ [{| m_chat := user; m_text := text;
                                       m_no_preview := no_preview |}])).
  { unfold send_to_targets, send_message. cbv zeta.
    destruct (api channel text); [|left; reflexivity].
    destruct user_chat_id as [user|]; [|right; left; reflexivity].
    destruct (force_user || to_user) eqn:F; [|right; left; reflexivity].
    destruct (api user text); [|right; left; reflexivity].
    right. right. exists user. split; reflexivity. }
  cbv zeta in *.
  assert (Hkeep : channel_first channel (sent ++ [mc])).
  { split.
    - intros m. rewrite nth_error_snoc.
      destruct sent; cbn [List.length Nat.ltb Nat.leb Nat.eqb].
      + intros [= <-]. reflexivity.
      + cbn [nth_error]. intros [= <-]. apply Hl. reflexivity.
    - intros i m. rewrite !nth_error_snoc.
      destruct (Nat.ltb_spec (S i) (List.length sent)).
      + destruct (Nat.ltb_spec i (List.length sent)); [|lia]. apply Hf.
      + destruct (Nat.eqb_spec (S i) (List.length sent)); [|discriminate].
        intros [= <-] Hm. exfalso. apply Hm. reflexivity. }
  assert (Huser : forall user,
             channel_first channel
               ((sent ++ [mc]) ++ [{| m_chat := user; m_text := text;
                                      m_no_preview := no_preview |}])).
  { intros user. destruct Hkeep as [Hl' Hf']. split.
    - intros m. destruct sent; cbn; intros [= <-]; [reflexivity|].
      apply Hl. reflexivity.
    - intros i m. rewrite !(nth_error_snoc (sent ++ [mc])).
      rewrite length_app. cbn [List.length].
      destruct (Nat.ltb_spec (S i) (List.length sent + 1)).
      + destruct (Nat.ltb_spec i (List.length sent + 1)); [|lia]. apply Hf'.
      + destruct (Nat.eqb_spec (S i) (List.length sent + 1)); [|discriminate].
        intros [= <-] _.
        destruct (Nat.ltb_spec i (List.length sent + 1)); [|lia].
        exists mc. rewrite nth_error_snoc.
        destruct (Nat.ltb_spec i (List.length sent)); [lia|].
        destruct (Nat.eqb_spec i (List.length sent)); [|lia].
        repeat split. }
  split.
  - destruct Hcases as [-> | [-> | (user & _ & ->)]];
      [split; assumption|exact Hkeep|apply Huser].
  - intros -> ->. destruct Hcases as [E | [E | (user & F & _)]]; auto.
    discriminate.
Qed.

Lemma send_to_targets_witness :
  channel_first channel0
    [{| m_chat := channel0; m_text := u "text"; m_no_preview := true |};
     {| m_chat := user0; m_text := u "text"; m_no_preview := true |}].
Proof.
  assert (H0 : channel_first channel0 []).
  { split; [intros m|intros i m]; discriminate. }
  exact (proj1 (send_to_targets_channel_first api_ok channel0 false true (u "text")
                  (Some user0) true [] H0)).
Defined.

(** X4. [_select_folder_smart] asks for [FOLDER], then for the folder of
    all mail, then for [INBOX], and stops at the first one that the server
    accepts: the folder it returns is the last one asked for and the
    server accepted it, the ones asked for before were refused. It raises
    only when the server refuses all three, with the exception of
    [INBOX]. *)
Theorem select_folder_smart_first_accepted
        (server : str -> result unit) (FOLDER : str) (tried : list str) :
  match _select_folder_smart server FOLDER tried with
  | (tried', Ok f) =>
      server f = Ok tt
      /\ exists refused later,
           tried' = tried ++ refused ++ [f]
           /\ refused ++ [f] ++ later = [FOLDER; ALL_MAIL; INBOX]
           /\ Forall (fun g => exists e, server g = Raise e) refused
  | (tried', Raise e) =>
      tried' = tried ++ [FOLDER; ALL_MAIL; INBOX]
      /\ (exists e1, server FOLDER = Raise e1)
      /\ (exists e2, server ALL_MAIL = Raise e2)
      /\ server INBOX = Raise e
  end.
Proof.
  unfold _select_folder_smart, _select_folder_try, select_folder.
  destruct (server FOLDER) as [[]|e1] eqn:E1.
  - split; [exact E1|]. exists [], [ALL_MAIL; INBOX]. repeat split. constructor.
  - destruct (server ALL_MAIL) as [[]|e2] eqn:E2.
    + split; [exact E2|]. exists [FOLDER], [INBOX].
      rewrite <- app_assoc. repeat split. repeat constructor. eauto.
    + destruct (server INBOX) as [[]|e3] eqn:E3.
      * split; [exact E3|]. exists [FOLDER; ALL_MAIL], [].
        rewrite <- !app_assoc. repeat split. repeat constructor; eauto.
      * rewrite <- !app_assoc. repeat split; eauto.
Qed.

Lemma worker_sleeps_from (sessions : list session_end) :
  forall backoff, 5 <= backoff <= 60 ->
  Forall (fun s => 5 <= s <= 60) (worker_sleeps backoff sessions).
Proof.
  induction sessions as [|s sessions IH]; intros backoff Hb; cbn [worker_sleeps].
  - constructor.
  - destruct s; constructor; try lia; apply IH; lia.
Qed.

Lemma worker_sleeps_failures (n : nat) :
  forall j, worker_sleeps (Z.min (5 * 2 ^ Z.of_nat j) 60) (repeat BeforeReset n)
            = map (fun k => Z.min (5 * 2 ^ Z.of_nat k) 60) (seq j n).
Proof.
  induction n as [|n IH]; intros j; cbn [repeat worker_sleeps seq map].
  - reflexivity.
  - f_equal. rewrite <- IH. f_equal.
    rewrite Nat2Z.inj_succ, Z.pow_succ_r by lia.
    pose proof (Z.pow_pos_nonneg 2 (Z.of_nat j) ltac:(lia) ltac:(lia)). lia.
Qed.

(** The pauses from a session that reached the loop of the wakes on do
    not depend on the sessions before it. *)
Lemma worker_sleeps_reset (before rest : list session_end) :
  forall backoff,
  skipn (List.length before) (worker_sleeps backoff (before ++ AfterReset :: rest))
  = 5 :: worker_sleeps 10 rest.
Proof.
  induction before as [|s before IH]; intros backoff;
    cbn [app worker_sleeps List.length skipn].
  - reflexivity.
  - apply IH.
Qed.

Lemma worker_sleeps_run (n : nat) (after : list session_end) :
  forall backoff,
  firstn n (worker_sleeps backoff (repeat BeforeReset n ++ after))
  = worker_sleeps backoff (repeat BeforeReset n).
Proof.
  induction n as [|n IH]; intros backoff; cbn [repeat app worker_sleeps firstn].
  - reflexivity.
  - f_equal. apply IH.
Qed.

(** X5. The pauses of [imap_idle_worker] between sessions are never
    shorter than 5 seconds and never longer than 60. The pause after a
    session is [min(5 * 2^k, 60)] seconds, where [k] counts the sessions
    since the last one that reached the loop of the wakes, or since the
    first session of the process when none has reached it: a session that
    reached the loop is followed by 5 seconds and the failures after it by
    10, 20, 40 and then 60 seconds; at the start of the process the
    failures are followed by 5, 10, 20, 40 and then 60 seconds. *)
Theorem worker_sleeps_bounds (sessions : list session_end) :
  Forall (fun s => 5 <= s <= 60) (worker_sleeps 5 sessions)
  /\ (forall n, worker_sleeps 5 (repeat BeforeReset n)
                = map (fun k => Z.min (5 * 2 ^ Z.of_nat k) 60) (seq 0 n))
  /\ (forall before n after,
        firstn (S n)
               (skipn (List.length before)
                      (worker_sleeps 5 (before ++ AfterReset
                                               :: repeat BeforeReset n ++ after)))
        = map (fun k => Z.min (5 * 2 ^ Z.of_nat k) 60) (seq 0 (S n))).
Proof.
  split; [apply worker_sleeps_from; lia|]. split.
  - intros n. apply (worker_sleeps_failures n 0%nat).
  - intros before n after. rewrite worker_sleeps_reset. cbn [firstn seq map].
    f_equal. rewrite worker_sleeps_run.
    apply (worker_sleeps_failures n 1%nat).
Qed.

(** ** The parts of a mail *)

Lemma walk_step_eq (a b : str) (p : mime_part) :
  walk_step (a, b) p
  = (if wanted (u "text/plain") p && negb (truthy a) then payload_text p else a,
     if wanted (u "text/html") p && negb (truthy b) then payload_text p else b).
Proof.
  unfold walk_step, wanted. cbn [fst snd].
  destruct (contains (u "attachment") (content_disposition p)); cbn [negb andb];
    [reflexivity|].
  destruct (PyStr.eqb (content_type p) (u "text/plain")) eqn:Ep.
  - assert (Eh : PyStr.eqb (content_type p) (u "text/html") = false).
    { destruct (PyStr.eqb (content_type p) (u "text/html")) eqn:Eh; [|reflexivity].
      apply eqb_eq in Ep. apply eqb_eq in Eh. rewrite Ep in Eh.
      vm_compute in Eh. discriminate. }
    rewrite Eh. cbn [andb]. destruct (negb (truthy a)); reflexivity.
  - cbn [andb].
    destruct (PyStr.eqb (content_type p) (u "text/html") && negb (truthy b));
      reflexivity.
Qed.

Lemma walk_fold (l : list mime_part) :
  forall a b,
  fold_left walk_step l (a, b)
  = (if truthy a then a
     else first_nonempty (map payload_text (filter (wanted (u "text/plain")) l)),
     if truthy b then b
     else first_nonempty (map payload_text (filter (wanted (u "text/html")) l))).
Proof.
  induction l as [|p l IH]; intros a b; cbn [fold_left filter map first_nonempty].
  - destruct a, b; reflexivity.
  - rewrite walk_step_eq, IH. f_equal.
    + destruct (wanted (u "text/plain") p); cbn [andb map first_nonempty];
        [|reflexivity].
      destruct (truthy a) eqn:Ta; cbn [negb]; [rewrite Ta; reflexivity|].
      destruct (truthy (payload_text p)); reflexivity.
    + destruct (wanted (u "text/html") p); cbn [andb map first_nonempty];
        [|reflexivity].
      destruct (truthy b) eqn:Tb; cbn [negb]; [rewrite Tb; reflexivity|].
      destruct (truthy (payload_text p)); reflexivity.
Qed.

(** X6. Of a multipart mail, [extract_parts] takes as plain text the
    first part of type [text/plain] that is not an attachment and whose
    text is not empty, and as HTML the first such part of type
    [text/html]; it takes the empty text when there is no such part. Of a
    mail that is not multipart it takes the payload as plain text and no
    HTML, whatever the type of the mail. *)
Theorem extract_parts_texts (msg : email_message) :
  (is_multipart msg = true ->
   p_plain (extract_parts msg)
   = first_nonempty (map payload_text (filter (wanted (u "text/plain")) (walk msg)))
   /\ p_html (extract_parts msg)
      = first_nonempty (map payload_text (filter (wanted (u "text/html")) (walk msg))))
  /\ (is_multipart msg = false ->
      p_plain (extract_parts msg) = payload msg /\ p_html (extract_parts msg) = []).
Proof.
  unfold extract_parts. split; intros ->; cbn [p_plain p_html fst snd].
  - rewrite walk_fold. cbn [truthy fst snd]. split; reflexivity.
  - split; reflexivity.
Qed.

(** X7. A mail that is not multipart is read as plain text even when its
    payload is HTML: [parse_kwork_email] gives what [parse_from_text] gives
    on the payload as it is, BeautifulSoup is not consulted and no record
    gets a url. *)
Theorem single_part_mail_is_plain_text {U : UnicodeData}
        (get_text : str -> str) (anchors_href : str -> list str)
        (msg : email_message) :
  is_multipart msg = false ->
  parse_kwork_email get_text anchors_href (extract_parts msg)
  = parse_from_text (payload msg)
  /\ forall data,
       parse_kwork_email get_text anchors_href (extract_parts msg) = Ok data ->
       Forall (fun p => url p = None) (projects data).
Proof.
  intros Hm.
  assert (E : parse_kwork_email get_text anchors_href (extract_parts msg)
              = parse_from_text (payload msg)).
  { unfold parse_kwork_email, extract_parts. rewrite Hm. reflexivity. }
  split; [exact E|]. intros data. rewrite E. apply parse_from_text_url.
Qed.

Lemma extract_parts_witness :
  p_plain (extract_parts msg0) = u "plain"
  /\ p_html (extract_parts msg0) = u "<p>html</p>".
Proof.
  destruct (proj1 (extract_parts_texts msg0) eq_refl) as [-> ->].
  split; vm_compute; reflexivity.
Defined.

Lemma single_part_mail_witness :
  parse_kwork_email text_of_mail0 anchors_of_mail0 (extract_parts msg_html_only)
  = parse_from_text (payload msg_html_only).
Proof.
  exact (proj1 (single_part_mail_is_plain_text text_of_mail0 anchors_of_mail0
                  msg_html_only eq_refl)).
Defined.

(** ** The state file and the candidates *)

(** X8. [_state_get_last_seen] returns [None], and does not raise, when
    the state file is missing or unreadable, and for a state file that
    holds a JSON object it never raises: it returns [None] when
    ["last_dt_iso"] is missing or empty, when ["last_uid"] is missing or
    null, when the timestamp cannot be read or when the uid is no integer.
    On a state file that holds another JSON value it raises
    [AttributeError], and so does the start of the process. *)
Theorem state_get_last_seen_robust {U : UnicodeData} (local : Z -> Z) :
  _state_get_last_seen local None = Ok None
  /\ (forall d, exists r, _state_get_last_seen local (Some (JDict d)) = Ok r)
  /\ (forall d,
        json_truthy (lookup (u "last_dt_iso") d) = false
        \/ lookup (u "last_uid") d = JNull
        \/ (exists e, fromisoformat_value (lookup (u "last_dt_iso") d) = Raise e)
        \/ (exists e, int_value (lookup (u "last_uid") d) = Raise e) ->
        _state_get_last_seen local (Some (JDict d)) = Ok None)
  /\ (forall v, (forall d, v <> JDict d) ->
        _state_get_last_seen local (Some v) = Raise AttributeError
        /\ startup local (Some v) = Raise AttributeError).
Proof.
  split; [reflexivity|]. split; [|split].
  - intros d. unfold _state_get_last_seen. cbn [_load_state dict_get bind].
    destruct (negb (json_truthy (lookup (u "last_dt_iso") d))
              || is_none (lookup (u "last_uid") d)); eauto.
  - intros d H. unfold _state_get_last_seen. cbn [_load_state dict_get bind].
    destruct (json_truthy (lookup (u "last_dt_iso") d)) eqn:T; cbn [negb orb];
      [|reflexivity].
    destruct (is_none (lookup (u "last_uid") d)) eqn:N; [reflexivity|].
    destruct H as [H|[H|[[e H]|[e H]]]].
    + discriminate.
    + rewrite H in N. discriminate.
    + rewrite H. reflexivity.
    + destruct (fromisoformat_value (lookup (u "last_dt_iso") d)) as [dt|];
        cbn [bind except_all]; [|reflexivity].
      destruct (match tzinfo dt with
                | Some _ => astimezone_utc local dt
                | None => Ok (replace_tzinfo dt utc)
                end); cbn [bind except_all]; [|reflexivity].
      rewrite H. reflexivity.
  - intros v Hv.
    assert (E : _state_get_last_seen local (Some v) = Raise AttributeError).
    { unfold _state_get_last_seen. cbn [_load_state].
      destruct v; try reflexivity. exfalso. apply (Hv d). reflexivity. }
    split; [exact E|]. unfold startup. rewrite E. reflexivity.
Qed.

(** X9. [_to_utc] returns a datetime that carries [timezone.utc] and
    stands for the same instant as its argument when that one carries a
    time zone; a datetime without time zone keeps its reading, which is
    taken to be UTC. A datetime that [_to_utc] returned is left as it
    is. *)
Theorem to_utc_normalises (local : Z -> Z) (dt d : datetime) :
  in_range (wall dt) = true ->
  _to_utc local dt = Ok d ->
  tzinfo d = utc /\ in_range (wall d) = true
  /\ instant d = instant dt
  /\ _to_utc local d = Ok d.
Proof.
  intros Hr H. destruct (to_utc_ok local dt d Hr H) as [Hu Hw].
  split; [exact Hu|]. split; [exact Hw|]. split.
  - unfold instant. rewrite Hu. unfold utc. revert H.
    unfold _to_utc, astimezone_utc. destruct (tzinfo dt) as [off|] eqn:Et.
    + destruct (Z.eqb_spec off 0) as [->|Ho].
      * intros [= <-]. reflexivity.
      * unfold sub_timedelta. destruct (in_range (wall dt - off)); cbn [bind];
          [|discriminate].
        intros [= <-]. cbn [wall replace_tzinfo]. lia.
    + intros [= <-]. cbn [wall replace_tzinfo]. lia.
  - unfold _to_utc. rewrite Hu. apply astimezone_utc_id, Hu.
Qed.

Lemma to_utc_witness :
  tzinfo dt_moscow_utc = utc /\ in_range (wall dt_moscow_utc) = true
  /\ instant dt_moscow_utc = instant dt_moscow
  /\ _to_utc utc_system dt_moscow_utc = Ok dt_moscow_utc.
Proof.
  apply (to_utc_normalises utc_system dt_moscow dt_moscow_utc);
    vm_compute; reflexivity.
Defined.

Lemma insert_item_In (c x : candidate) (items : list candidate) :
  In x (insert_item c items) <-> x = c \/ In x items.
Proof.
  induction items as [|y items IH]; cbn [insert_item].
  - cbn. intuition congruence.
  - destruct (key_ltb (key_of y) (key_of c)); cbn [In]; [rewrite IH|];
      intuition congruence.
Qed.

Lemma insert_item_length (c : candidate) (items : list candidate) :
  List.length (insert_item c items) = S (List.length items).
Proof.
  induction items as [|y items IH]; cbn [insert_item]; [reflexivity|].
  destruct (key_ltb (key_of y) (key_of c)); cbn [List.length]; [rewrite IH|];
    reflexivity.
Qed.

Lemma sort_items_In (x : candidate) (items : list candidate) :
  In x (sort_items items) <-> In x items.
Proof.
  unfold sort_items. induction items as [|c items IH]; cbn [fold_right In].
  - reflexivity.
  - rewrite insert_item_In, IH. intuition congruence.
Qed.

Lemma sort_items_length (items : list candidate) :
  List.length (sort_items items) = List.length items.
Proof.
  unfold sort_items. induction items as [|c items IH]; cbn [fold_right List.length].
  - reflexivity.
  - rewrite insert_item_length, IH. reflexivity.
Qed.

Lemma collect_content (local : Z -> Z) (fetched : Z -> option fetch_item) :
  forall tail items,
  collect local fetched tail = Ok items ->
  (List.length items <= List.length tail)%nat
  /\ forall dt uid raw,
       In (dt, uid, raw) items <->
       In uid tail /\ raw <> []
       /\ exists item dt0, fetched uid = Some item
                           /\ INTERNALDATE item = Some dt0
                           /\ RFC822 item = Some raw
                           /\ _to_utc local dt0 = Ok dt.
Proof.
  induction tail as [|uid tail IH]; intros items; cbn [collect].
  - intros [= <-]. split; [reflexivity|]. intros dt uid raw. cbn. tauto.
  - assert (Hskip :
      (forall item dt0 raw, fetched uid = Some item -> INTERNALDATE item = Some dt0 ->
                            RFC822 item = Some raw -> raw = []) ->
      collect local fetched tail = Ok items ->
      (List.length items <= List.length (uid :: tail))%nat
      /\ forall dt uid' raw,
           In (dt, uid', raw) items <->
           In uid' (uid :: tail) /\ raw <> []
           /\ exists item dt0, fetched uid' = Some item
                               /\ INTERNALDATE item = Some dt0
                               /\ RFC822 item = Some raw
                               /\ _to_utc local dt0 = Ok dt).
    { intros Hno C. destruct (IH items C) as [Hlen Hin]. split; [cbn; lia|].
      intros dt uid' raw. rewrite Hin. cbn [In]. split.
      - intros (H1 & H2 & H3). auto.
      - intros ([<-|H1] & H2 & item & dt0 & F & D & R & T); [|eauto 10].
        exfalso. apply H2. apply (Hno item dt0 raw F D R). }
    destruct (fetched uid) as [[[dt0|] [[|b raw0]|]]|] eqn:E;
      try (apply Hskip; intros item d r [= <-]; cbn; congruence).
    destruct (_to_utc local dt0) as [d|] eqn:T; cbn [bind]; [|discriminate].
    destruct (collect local fetched tail) as [rest|] eqn:C; cbn [bind];
      [|discriminate].
    intros [= <-]. destruct (IH rest eq_refl) as [Hlen Hin].
    split; [cbn; lia|].
    intros dt uid' raw. cbn [In]. rewrite Hin. split.
    + intros [[= <- <- <-]|(H1 & H2 & H3)].
      * split; [left; reflexivity|]. split; [discriminate|].
        exists {| INTERNALDATE := Some dt0; RFC822 := Some (b :: raw0) |}, dt0.
        auto.
      * auto.
    + intros ([<-|H1] & H2 & item & d0 & F & D & R & T').
      * left. rewrite E in F. injection F as <-. cbn in D, R.
        injection D as <-. injection R as <-.
        rewrite T in T'. injection T' as <-. reflexivity.
      * right. eauto 10.
Qed.

Lemma last80_spec (uids : list Z) (uid : Z) :
  (List.length (last80 uids) <= 80)%nat
  /\ (In uid (last80 uids) <->
      exists i, nth_error uids i = Some uid /\ (List.length uids - 80 <= i)%nat).
Proof.
  unfold last80. split.
  - rewrite length_skipn. lia.
  - split.
    + intros H. apply In_nth_error in H. destruct H as [k H].
      rewrite nth_error_skipn in H. exists (List.length uids - 80 + k)%nat.
      split; [exact H|lia].
    + intros (i & H & Hi). apply (nth_error_In _ (i - (List.length uids - 80))).
      rewrite nth_error_skipn.
      replace (List.length uids - 80 + (i - (List.length uids - 80)))%nat with i by lia.
      exact H.
Qed.

(** The candidates and the mailbox. *)
Lemma fetch_candidates_members (local : Z -> Z) (uids : list Z)
        (fetched : Z -> option fetch_item) (items : list candidate) :
  _fetch_candidates local uids fetched = Ok items ->
  (List.length items <= 80)%nat
  /\ ascending items
  /\ (uids = [] -> items = [])
  /\ forall dt uid raw,
       In (dt, uid, raw) items <->
       (exists i, nth_error uids i = Some uid /\ (List.length uids - 80 <= i)%nat)
       /\ raw <> []
       /\ exists item dt0, fetched uid = Some item
                           /\ INTERNALDATE item = Some dt0
                           /\ RFC822 item = Some raw
                           /\ _to_utc local dt0 = Ok dt.
Proof.
  unfold _fetch_candidates. destruct uids as [|uid0 uids].
  - intros [= <-]. split; [cbn; lia|]. split; [constructor|]. split; [reflexivity|].
    intros dt uid raw. cbn [In]. split; [tauto|].
    intros ((i & H & _) & _). destruct i; discriminate.
  - destruct (collect local fetched (last80 (uid0 :: uids))) as [l|] eqn:C;
      cbn [bind]; [|discriminate].
    intros [= <-]. destruct (collect_content local fetched _ _ C) as [Hlen Hin].
    split.
    { rewrite sort_items_length.
      pose proof (proj1 (last80_spec (uid0 :: uids) 0)). lia. }
    split; [apply sort_items_ascending|]. split; [discriminate|].
    intros dt uid raw. rewrite sort_items_In, Hin.
    rewrite (proj2 (last80_spec (uid0 :: uids) uid)). reflexivity.
Qed.

(** X10. The candidates of [_fetch_candidates] are the mails with a date
    and a body that is not empty among the last 80 uids of the search,
    each with its date brought to UTC: there are at most 80 of them, in
    ascending order of [(dt, uid)], and an empty search gives none. *)
Theorem fetch_candidates_content (local : Z -> Z) (uids : list Z)
        (fetched : Z -> option fetch_item) (items : list candidate) :
  _fetch_candidates local uids fetched = Ok items ->
  (List.length items <= 80)%nat
  /\ ascending items
  /\ (uids = [] -> items = [])
  /\ forall dt uid raw,
       In (dt, uid, raw) items <->
       (exists i, nth_error uids i = Some uid /\ (List.length uids - 80 <= i)%nat)
       /\ raw <> []
       /\ exists item dt0, fetched uid = Some item
                           /\ INTERNALDATE item = Some dt0
                           /\ RFC822 item = Some raw
                           /\ _to_utc local dt0 = Ok dt.
Proof. exact (fetch_candidates_members local uids fetched items). Qed.

Lemma fetch_candidates_witness :
  (List.length items0 <= 80)%nat /\ ascending items0.
Proof.
  destruct (fetch_candidates_content utc_system uids0 fetched0 items0 fetch_example)
    as (H1 & H2 & _).
  split; assumption.
Defined.

Lemma insert_item_uids (c : candidate) (items : list candidate) :
  NoDup (uid_of c :: map uid_of items) ->
  NoDup (map uid_of (insert_item c items)).
Proof.
  induction items as [|y items IH]; cbn [insert_item map]; [auto|].
  destruct (key_ltb (key_of y) (key_of c)); [|auto].
  intros H. cbn [map]. apply NoDup_cons_iff in H. destruct H as [Hc H].
  apply NoDup_cons_iff in H. destruct H as [Hy H].
  constructor.
  - intros Hin. apply in_map_iff in Hin. destruct Hin as (x & E & Hx).
    apply insert_item_In in Hx. destruct Hx as [->|Hx].
    + apply Hc. left. symmetry. exact E.
    + apply Hy. rewrite <- E. apply in_map. exact Hx.
  - apply IH. constructor; [|exact H].
    intros Hin. apply Hc. right. exact Hin.
Qed.

Lemma sort_items_uids (items : list candidate) :
  NoDup (map uid_of items) -> NoDup (map uid_of (sort_items items)).
Proof.
  unfold sort_items. induction items as [|c items IH]; cbn [fold_right map];
    [auto|].
  intros H. apply NoDup_cons_iff in H. destruct H as [Hc H].
  apply insert_item_uids. constructor; [|apply IH, H].
  intros Hin. apply Hc. apply in_map_iff in Hin. destruct Hin as (x & E & Hx).
  apply (proj1 (sort_items_In x items)) in Hx. rewrite <- E. apply in_map. exact Hx.
Qed.

Lemma collect_uids (local : Z -> Z) (fetched : Z -> option fetch_item) :
  forall tail items,
  NoDup tail -> collect local fetched tail = Ok items ->
  NoDup (map uid_of items).
Proof.
  induction tail as [|uid tail IH]; intros items Hn; cbn [collect].
  - intros [= <-]. constructor.
  - apply NoDup_cons_iff in Hn. destruct Hn as [Hu Hn].
    destruct (fetched uid) as [[[dt0|] [[|b raw0]|]]|]; try (apply IH; exact Hn).
    destruct (_to_utc local dt0) as [d|]; cbn [bind]; [|discriminate].
    destruct (collect local fetched tail) as [rest|] eqn:C; cbn [bind];
      [|discriminate].
    intros [= <-]. cbn [map uid_of fst snd]. constructor; [|apply (IH rest Hn eq_refl)].
    intros Hin. apply in_map_iff in Hin. destruct Hin as ([[dt u] raw] & E & Hx).
    cbn [uid_of fst snd] in E. subst u.
    apply (proj2 (collect_content local fetched tail rest C)) in Hx.
    apply Hu. apply Hx.
Qed.

Lemma NoDup_skipn {A : Type} (n : nat) (l : list A) : NoDup l -> NoDup (skipn n l).
Proof.
  revert n. induction l as [|x l IH]; intros [|n] H; cbn [skipn]; auto.
  apply IH. apply NoDup_cons_iff in H. apply H.
Qed.

Lemma ascending_strict (items : list candidate) :
  ascending items -> NoDup (map uid_of items) -> strictly_ascending items.
Proof.
  unfold ascending, strictly_ascending.
  induction 1 as [|x items Hs IH Hx]; intros Hn; constructor.
  - apply IH. cbn [map] in Hn. apply NoDup_cons_iff in Hn. apply Hn.
  - cbn [map] in Hn. apply NoDup_cons_iff in Hn. destruct Hn as [Hu _].
    rewrite Forall_forall in Hx |- *. intros y Hy. specialize (Hx y Hy).
    cbn beta in Hx. apply key_ltb_spec. apply key_leb_spec in Hx.
    assert (uid_of x <> uid_of y).
    { intros E. apply Hu. rewrite E. apply in_map. exact Hy. }
    unfold uid_of, key_of in *. cbn [fst snd] in *. lia.
Qed.

(** X24. When the search gives no uid twice, the candidates of
    [_fetch_candidates] have distinct uids and their keys [(dt, uid)]
    strictly increase: no two candidates share a key, and the last one is
    the only newest. *)
Theorem fetch_candidates_strict (local : Z -> Z) (uids : list Z)
        (fetched : Z -> option fetch_item) (items : list candidate) :
  NoDup uids ->
  _fetch_candidates local uids fetched = Ok items ->
  NoDup (map uid_of items) /\ strictly_ascending items.
Proof.
  intros Hn H.
  assert (Hu : NoDup (map uid_of items)).
  { revert H. unfold _fetch_candidates. destruct uids as [|uid0 uids].
    - intros [= <-]. constructor.
    - destruct (collect local fetched (last80 (uid0 :: uids))) as [l|] eqn:C;
        cbn [bind]; [|discriminate].
      intros [= <-]. apply sort_items_uids.
      apply (collect_uids local fetched (last80 (uid0 :: uids)) l); [|exact C].
      unfold last80. apply NoDup_skipn, Hn. }
  split; [exact Hu|]. apply ascending_strict; [|exact Hu].
  apply (fetch_candidates_members local uids fetched items H).
Qed.

Lemma fetch_candidates_strict_witness :
  NoDup (map uid_of items0) /\ strictly_ascending items0.
Proof.
  apply (fetch_candidates_strict utc_system uids0 fetched0 items0).
  - repeat constructor; cbn; intuition discriminate.
  - exact fetch_example.
Defined.

(** ** What the watcher hands over *)

Lemma set_cursor_outbox {U : UnicodeData} (local : Z -> Z)
      (disk : json -> file -> disk_answer) (dt : datetime)
      (uid : Z) (st : State) :
  outbox (fst (set_cursor local disk dt uid st)) = outbox st.
Proof.
  unfold set_cursor. cbn [_last_seen state_file outbox].
  destruct (_state_set_last_seen local disk dt uid (state_file st)); reflexivity.
Qed.

(** The loop over [new_items] hands over the first so many of them, all
    when it ends without exception, one text each, and leaves the cursor at
    the last one handed over. *)
Lemma deliver_sent {U : UnicodeData} (local : Z -> Z)
      (disk : json -> file -> disk_answer) (to_user : bool)
      (render : bytes -> result str) (new_items : list candidate) :
  forall st st' r,
  deliver local disk to_user render new_items st = (st', r) ->
  exists sent later texts,
    new_items = sent ++ later
    /\ rendered render sent texts
    /\ outbox st' = outbox st ++ handed to_user texts
    /\ _last_seen st' = match last_item sent with
                        | Some c => Some (key_of c)
                        | None => _last_seen st
                        end
    /\ (r = Ok tt -> later = []).
Proof.
  unfold rendered, handed.
  induction new_items as [|x new_items IH]; intros st st' r; cbn [deliver].
  - intros [= <- <-]. exists [], [], []. cbn. rewrite app_nil_r. auto.
  - destruct x as [[dt uid] raw]. destruct (render raw) as [text|e] eqn:R.
    + pose proof (set_cursor_last_seen local disk dt uid (send text to_user st)) as Hc.
      pose proof (set_cursor_outbox local disk dt uid (send text to_user st)) as Ho.
      destruct (set_cursor local disk dt uid (send text to_user st)) as [st1 [[]|e]];
        cbn [fst] in Hc, Ho; cbn [send outbox] in Ho.
      * intros D. destruct (IH st1 st' r D) as (sent & later & texts & E & Hr & Hout & Hls & Hok).
        exists ((dt, uid, raw) :: sent), later, (text :: texts).
        split; [rewrite E; reflexivity|]. split.
        { cbn [map snd]. rewrite R, Hr. reflexivity. }
        split.
        { rewrite Hout, Ho, <- app_assoc. reflexivity. }
        split; [|exact Hok].
        rewrite Hls, last_item_cons. destruct sent as [|y sent]; [exact Hc|].
        destruct (last_item (y :: sent)) eqn:L; [reflexivity|].
        unfold last_item in L. apply nth_error_None in L. cbn in L. lia.
      * intros [= <- <-]. exists [(dt, uid, raw)], new_items, [text].
        split; [reflexivity|]. split; [cbn [map snd]; rewrite R; reflexivity|].
        split; [exact Ho|]. split; [exact Hc|discriminate].
    + intros [= <- <-]. exists [], ((dt, uid, raw) :: new_items), [].
      cbn. rewrite app_nil_r. repeat split. discriminate.
Qed.

Lemma fresh_beyond_sorted (R : candidate -> candidate -> Prop) (M : Z)
      (clock : nat -> datetime) (ls : option cursor) (items : list candidate) :
  StronglySorted R items ->
  forall k, StronglySorted R (fresh_beyond M clock k ls items).
Proof.
  induction 1 as [|c items Hs IH Hc]; intros k; cbn [fresh_beyond].
  - constructor.
  - destruct (fresh_at M (clock k) (fst (fst c)) && beyond ls (key_of c)).
    + constructor; [apply IH|]. apply fresh_beyond_Forall, Hc.
    + apply IH.
Qed.

Lemma sorted_app_inv {A : Type} (R : A -> A -> Prop) (l1 l2 : list A) :
  StronglySorted R (l1 ++ l2) ->
  StronglySorted R l1 /\ StronglySorted R l2
  /\ forall a b, In a l1 -> In b l2 -> R a b.
Proof.
  induction l1 as [|x l1 IH]; cbn [app].
  - intros H. split; [constructor|]. split; [exact H|]. intros a b [].
  - intros H. apply StronglySorted_inv in H. destruct H as [Hs Hx].
    destruct (IH Hs) as (H1 & H2 & H3). apply Forall_app in Hx.
    destruct Hx as [Hx1 Hx2]. split; [constructor; assumption|].
    split; [exact H2|].
    intros a b [<-|Ha] Hb; [|apply H3; assumption].
    rewrite Forall_forall in Hx2. apply Hx2, Hb.
Qed.

Lemma sorted_app {A : Type} (R : A -> A -> Prop) (l1 l2 : list A) :
  StronglySorted R l1 -> StronglySorted R l2 ->
  (forall a b, In a l1 -> In b l2 -> R a b) ->
  StronglySorted R (l1 ++ l2).
Proof.
  induction 1 as [|x l1 Hs IH Hx]; intros H2 H12; cbn [app]; [exact H2|].
  constructor.
  - apply IH; [exact H2|]. intros a b Ha Hb. apply H12; [right; exact Ha|exact Hb].
  - apply Forall_app. split; [exact Hx|].
    apply Forall_forall. intros b Hb. apply H12; [left; reflexivity|exact Hb].
Qed.

Lemma strictly_below_last (sent : list candidate) (c x : candidate) :
  strictly_ascending sent -> last_item sent = Some c -> In x sent ->
  key_leb (key_of x) (key_of c) = true.
Proof.
  intros Hs Hl Hx.
  assert (Ha : ascending sent).
  { unfold ascending. clear Hl Hx. induction Hs as [|y l Hs IH Hy]; constructor.
    - exact IH.
    - eapply Forall_impl; [|exact Hy]. intros z Hz. cbn beta in Hz.
      apply key_ltb_spec in Hz. apply key_leb_spec. lia. }
  pose proof (ascending_below_last sent c Ha Hl) as H.
  rewrite Forall_forall in H. apply H, Hx.
Qed.

Lemma strictly_ascending_NoDup (sent : list candidate) :
  strictly_ascending sent -> NoDup (map key_of sent).
Proof.
  induction 1 as [|x l Hs IH Hx]; cbn [map]; constructor; [|exact IH].
  intros Hin. apply in_map_iff in Hin. destruct Hin as (y & E & Hy).
  rewrite Forall_forall in Hx. specialize (Hx y Hy). cbn beta in Hx.
  rewrite E in Hx. apply key_ltb_spec in Hx. lia.
Qed.

(** What a wake hands over. *)
Lemma drain_sent {U : UnicodeData}
        (local : Z -> Z)
      (disk : json -> file -> disk_answer) (M : Z) (to_user : bool) (render : bytes -> result str)
        (clock : nat -> datetime) (items : list candidate) (st st' : State)
        (r : result unit) :
  (forall k, clock_ok M (clock k)) ->
  aware_cursor (_last_seen st) -> Forall aware_candidate items ->
  drain local disk M to_user render clock items st = (st', r) ->
  exists sent later texts,
    fresh_beyond M clock 0 (_last_seen st) items = sent ++ later
    /\ rendered render sent texts
    /\ outbox st' = outbox st ++ handed to_user texts
    /\ _last_seen st' = match last_item sent with
                        | Some c => Some (key_of c)
                        | None => _last_seen st
                        end
    /\ (r = Ok tt -> later = []).
Proof.
  intros Hclock Hls Hitems. unfold drain.
  rewrite (select_new_eval M clock _ items Hclock Hls Hitems 0%nat).
  apply deliver_sent.
Qed.

(** X11. A wake of the watcher hands over, in their order, the first so
    many of the candidates that are fresh and strictly beyond the cursor,
    and all of them when it ends without exception: one text for each, to
    the user as well only with [SEND_WATCHER_TO_USER], and nothing else.
    It leaves the cursor at the last candidate handed over, or where it
    was when there is none. *)
Theorem drain_hands_over {U : UnicodeData}
        (local : Z -> Z)
      (disk : json -> file -> disk_answer) (M : Z) (to_user : bool) (render : bytes -> result str)
        (clock : nat -> datetime) (items : list candidate) (st st' : State)
        (r : result unit) :
  (forall k, clock_ok M (clock k)) ->
  aware_cursor (_last_seen st) -> Forall aware_candidate items ->
  drain local disk M to_user render clock items st = (st', r) ->
  exists sent later texts,
    fresh_beyond M clock 0 (_last_seen st) items = sent ++ later
    /\ rendered render sent texts
    /\ outbox st' = outbox st ++ handed to_user texts
    /\ _last_seen st' = match last_item sent with
                        | Some c => Some (key_of c)
                        | None => _last_seen st
                        end
    /\ (r = Ok tt -> later = []).
Proof. exact (drain_sent local disk M to_user render clock items st st' r). Qed.

Lemma key_leb_ltb_trans (a b c : cursor) :
  key_leb a b = true -> key_ltb b c = true -> key_ltb a c = true.
Proof. rewrite key_leb_spec, !key_ltb_spec. lia. Qed.

Lemma key_ltb_leb (a b : cursor) : key_ltb a b = true -> key_leb a b = true.
Proof. rewrite key_leb_spec, key_ltb_spec. lia. Qed.

Lemma beyond_trans (ls : option cursor) (a b : cursor) :
  beyond ls a = true -> key_leb a b = true -> beyond ls b = true.
Proof.
  destruct ls as [l|]; cbn [beyond]; [|reflexivity].
  rewrite key_leb_spec, !key_ltb_spec. lia.
Qed.

(** *** The watcher among the commands *)

(** What the loop over [new_items] hands over, whatever the others do to
    the cursor during it. *)
Lemma deliver_among_sent {U : UnicodeData} (local : Z -> Z)
      (disk : json -> file -> disk_answer) (to_user : bool)
      (render : bytes -> result str) (during : nat -> others)
      (new_items : list candidate) :
  forall k st st' r,
  deliver_among local disk to_user render during k new_items st = (st', r) ->
  exists sent later texts,
    new_items = sent ++ later
    /\ rendered render sent texts
    /\ outbox st' = outbox st ++ handed to_user texts
    /\ _last_seen st' = match last_item sent with
                        | Some c => Some (key_of c)
                        | None => _last_seen st
                        end
    /\ (r = Ok tt -> later = []).
Proof.
  unfold rendered, handed.
  induction new_items as [|x new_items IH]; intros k st st' r; cbn [deliver_among].
  - intros [= <- <-]. exists [], [], []. cbn. rewrite app_nil_r. auto.
  - destruct x as [[dt uid] raw]. destruct (render raw) as [text|e] eqn:R.
    + pose proof (set_cursor_last_seen local disk dt uid
                    (meanwhile (during k) (send text to_user st))) as Hc.
      pose proof (set_cursor_outbox local disk dt uid
                    (meanwhile (during k) (send text to_user st))) as Ho.
      destruct (set_cursor local disk dt uid
                  (meanwhile (during k) (send text to_user st))) as [st1 [[]|e]];
        cbn [fst] in Hc, Ho; cbn [meanwhile send outbox] in Ho.
      * intros D. destruct (IH (S k) st1 st' r D)
          as (sent & later & texts & E & Hr & Hout & Hls & Hok).
        exists ((dt, uid, raw) :: sent), later, (text :: texts).
        split; [rewrite E; reflexivity|]. split.
        { cbn [map snd]. rewrite R, Hr. reflexivity. }
        split.
        { rewrite Hout, Ho, <- app_assoc. reflexivity. }
        split; [|exact Hok].
        rewrite Hls, last_item_cons. destruct sent as [|y sent]; [exact Hc|].
        destruct (last_item (y :: sent)) eqn:L; [reflexivity|].
        unfold last_item in L. apply nth_error_None in L. cbn in L. lia.
      * intros [= <- <-]. exists [(dt, uid, raw)], new_items, [text].
        split; [reflexivity|]. split; [cbn [map snd]; rewrite R; reflexivity|].
        split; [exact Ho|]. split; [exact Hc|discriminate].
    + intros [= <- <-]. exists [], ((dt, uid, raw) :: new_items), [].
      cbn. rewrite app_nil_r. repeat split. discriminate.
Qed.

Lemma drain_among_sent {U : UnicodeData}
      (local : Z -> Z) (disk : json -> file -> disk_answer) (M : Z)
      (to_user : bool) (render : bytes -> result str) (during : nat -> others)
      (clock : nat -> datetime) (items : list candidate) (st st' : State)
      (r : result unit) :
  (forall k, clock_ok M (clock k)) ->
  aware_cursor (_last_seen st) -> Forall aware_candidate items ->
  drain_among local disk M to_user render during clock items st = (st', r) ->
  exists sent later texts,
    fresh_beyond M clock 0 (_last_seen st) items = sent ++ later
    /\ rendered render sent texts
    /\ outbox st' = outbox st ++ handed to_user texts
    /\ _last_seen st' = match last_item sent with
                        | Some c => Some (key_of c)
                        | None => _last_seen st
                        end
    /\ (r = Ok tt -> later = []).
Proof.
  intros Hclock Hls Hitems. unfold drain_among.
  rewrite (select_new_eval M clock _ items Hclock Hls Hitems 0%nat).
  apply deliver_among_sent.
Qed.

(** A key beyond the cursor that the others left is beyond the cursor
    that they found, when they do not move it back. *)
Lemma beyond_forward (g : others) (ls : option cursor) (f : file) (k : cursor) :
  forward g -> aware_cursor ls ->
  beyond (fst (g ls f)) k = true -> beyond ls k = true.
Proof.
  intros Hg Hls Hb. destruct ls as [c|]; [|reflexivity].
  destruct (Hg (Some c) f Hls) as [_ H]. destruct (H c eq_refl) as (c' & E & L).
  rewrite E in Hb. cbn [beyond] in *.
  apply (key_leb_ltb_trans c c' k L Hb).
Qed.

Lemma wakes_among_sent {U : UnicodeData} (local : Z -> Z)
      (disk : json -> file -> disk_answer) (M : Z) (to_user : bool)
      (render : bytes -> result str) (ws : list wake) :
  Forall (wake_ok M) ws ->
  Forall (fun w => forward (since w)) ws ->
  forall st, aware_cursor (_last_seen st) ->
  exists sent texts,
    outbox (wakes_among local disk M to_user render ws st)
    = outbox st ++ handed to_user texts
    /\ rendered render sent texts
    /\ strictly_ascending sent
    /\ Forall (fun c => beyond (_last_seen st) (key_of c) = true
                        /\ exists w, In w ws /\ In c (candidates w)) sent.
Proof.
  unfold wakes_among.
  induction 1 as [|w ws (Hclock & Haw & Hasc) Hws IH]; intros Hfw st Hst;
    cbn [fold_left] in *.
  - exists [], []. cbn. rewrite app_nil_r. repeat split; constructor.
  - apply Forall_cons_iff in Hfw. destruct Hfw as [Hg Hfw].
    set (st0 := meanwhile (since w) st).
    assert (Hst0 : aware_cursor (_last_seen st0)).
    { apply (Hg (_last_seen st) (state_file st) Hst). }
    assert (Hback : forall k, beyond (_last_seen st0) k = true ->
                              beyond (_last_seen st) k = true).
    { intros k. apply (beyond_forward (since w) _ (state_file st) k Hg Hst). }
    destruct (drain_among local disk M to_user render (during w) (clock_of w)
                          (candidates w) st0) as [st1 r] eqn:D.
    destruct (drain_among_sent local disk M to_user render (during w) (clock_of w)
                (candidates w) st0 st1 r Hclock Hst0 Haw D)
      as (sent1 & later & texts1 & E & Hr1 & Ho1 & Hc1 & _).
    cbn [fst].
    pose proof (fresh_beyond_sorted _ M (clock_of w) (_last_seen st0) (candidates w)
                  Hasc 0%nat) as Hs.
    rewrite E in Hs. apply sorted_app_inv in Hs. destruct Hs as (Hs1 & _ & _).
    assert (Hin1 : forall c, In c sent1 ->
                             In c (candidates w)
                             /\ beyond (_last_seen st0) (key_of c) = true).
    { intros c Hc.
      assert (Hc' : In c (fresh_beyond M (clock_of w) 0 (_last_seen st0) (candidates w))).
      { rewrite E. apply in_or_app. left. exact Hc. }
      apply fresh_beyond_In in Hc'. destruct Hc' as (i & Hi & _ & Hb).
      split; [apply (nth_error_In _ _ Hi)|exact Hb]. }
    assert (Hst1 : aware_cursor (_last_seen st1)).
    { rewrite Hc1. destruct (last_item sent1) as [c|] eqn:L; [|exact Hst0].
      cbn [aware_cursor key_of fst]. unfold last_item in L.
      apply nth_error_In in L. apply Hin1 in L. destruct L as [L _].
      rewrite Forall_forall in Haw. apply (Haw c L). }
    destruct (IH Hfw st1 Hst1) as (sent2 & texts2 & Ho2 & Hr2 & Hs2 & Hin2).
    exists (sent1 ++ sent2), (texts1 ++ texts2).
    assert (Hcross : forall a b, In a sent1 -> In b sent2 ->
                                 key_ltb (key_of a) (key_of b) = true).
    { intros a b Ha Hb. rewrite Forall_forall in Hin2.
      destruct (Hin2 b Hb) as [Hbb _]. rewrite Hc1 in Hbb.
      destruct (last_item sent1) as [c|] eqn:L.
      - cbn [beyond] in Hbb.
        apply (key_leb_ltb_trans _ (key_of c)); [|exact Hbb].
        apply (strictly_below_last sent1 c a Hs1 L Ha).
      - unfold last_item in L. apply nth_error_None in L.
        destruct sent1; [destruct Ha|cbn in L; lia]. }
    split; [|split; [|split]].
    + rewrite Ho2, Ho1, <- app_assoc. unfold handed. rewrite map_app. reflexivity.
    + unfold rendered in *. rewrite !map_app. f_equal; [exact Hr1|exact Hr2].
    + apply sorted_app; assumption.
    + apply Forall_app. split.
      * apply Forall_forall. intros c Hc. destruct (Hin1 c Hc) as [Hi Hb].
        split; [apply Hback, Hb|]. exists w. split; [left; reflexivity|exact Hi].
      * rewrite Forall_forall in Hin2 |- *. intros c Hc.
        destruct (Hin2 c Hc) as (Hb & w' & Hw & Hcw). split; [|eauto using in_cons].
        apply Hback.
        rewrite Hc1 in Hb. destruct (last_item sent1) as [l|] eqn:L; [|exact Hb].
        unfold last_item in L. pose proof (nth_error_In _ _ L) as Hl.
        destruct (Hin1 l Hl) as [_ Hbl].
        apply (beyond_trans _ (key_of l)); [exact Hbl|].
        apply key_ltb_leb. exact Hb.
Qed.

(** X12. As long as nobody moves the cursor back between two wakes, the
    watcher hands over no mail twice, over any sequence of wakes and
    whatever the others do to the cursor during a wake: the texts it hands
    over are those of candidates whose keys strictly increase, each one a
    candidate of one of the wakes and strictly beyond the cursor that the
    watcher started with. *)
Theorem watcher_never_repeats {U : UnicodeData} (local : Z -> Z)
        (disk : json -> file -> disk_answer) (M : Z)
        (to_user : bool) (render : bytes -> result str)
        (ws : list wake) (st : State) :
  Forall (wake_ok M) ws ->
  Forall (fun w => forward (since w)) ws ->
  aware_cursor (_last_seen st) ->
  exists sent texts,
    outbox (wakes_among local disk M to_user render ws st)
    = outbox st ++ handed to_user texts
    /\ rendered render sent texts
    /\ strictly_ascending sent
    /\ NoDup (map key_of sent)
    /\ Forall (fun c => beyond (_last_seen st) (key_of c) = true
                        /\ exists w, In w ws /\ In c (candidates w)) sent.
Proof.
  intros Hws Hfw Hst.
  destruct (wakes_among_sent local disk M to_user render ws Hws Hfw st Hst)
    as (sent & texts & Ho & Hr & Hs & Hin).
  exists sent, texts. repeat split; try assumption.
  apply strictly_ascending_NoDup, Hs.
Qed.

(** Without that condition the watcher repeats itself: [/reset_state], or
    the late write of a [/now] that read the cursor before the wake,
    moves the cursor back to the mail of uid 7, and the next wake hands
    the mail of uid 9 over again. *)
Lemma watcher_repeats_after_a_move_back :
  ~ forward back_to_seen
  /\ outbox (wakes_among utc_system disk_ok 600 false render0
                         [wake0; wake_after_move_back] st_stale)
     = [([2], false); ([3], false); ([3], false)].
Proof.
  split; [|reflexivity].
  intros H. destruct (H (Some (key_of c_new)) None eq_refl) as [_ H1].
  destruct (H1 (key_of c_new) eq_refl) as (c' & E & L).
  vm_compute in E. injection E as <-. vm_compute in L. discriminate.
Qed.

Lemma drain_hands_over_witness :
  exists sent later texts,
    fresh_beyond 600 (fun _ => now0) 0 (_last_seen st_stale) items0 = sent ++ later
    /\ rendered render0 sent texts
    /\ outbox st_after_wake = outbox st_stale ++ handed false texts
    /\ _last_seen st_after_wake = match last_item sent with
                                  | Some c => Some (key_of c)
                                  | None => _last_seen st_stale
                                  end
    /\ (Ok tt = Ok tt -> later = []).
Proof.
  assert (H1 : forall k : nat, clock_ok 600 ((fun _ => now0) k)).
  { intros k. repeat split. }
  assert (H2 : aware_cursor (_last_seen st_stale)) by reflexivity.
  assert (H3 : Forall aware_candidate items0) by (repeat constructor).
  exact (drain_hands_over utc_system disk_ok 600 false render0 (fun _ => now0) items0
           st_stale st_after_wake (Ok tt) H1 H2 H3 eq_refl).
Defined.

Lemma watcher_never_repeats_witness :
  outbox (wakes_among utc_system disk_ok 600 false render0 wakes0 st_stale)
  = [([2], false); ([3], false)]
  /\ exists sent texts,
       outbox (wakes_among utc_system disk_ok 600 false render0 wakes0 st_stale)
       = outbox st_stale ++ handed false texts
       /\ rendered render0 sent texts
       /\ strictly_ascending sent
       /\ NoDup (map key_of sent)
       /\ Forall (fun c => beyond (_last_seen st_stale) (key_of c) = true
                           /\ exists w, In w wakes0 /\ In c (candidates w)) sent.
Proof.
  assert (H0 : forall g, wake_ok 600 {| since := g; during := fun _ => alone;
                                        clock_of := fun _ => now0;
                                        candidates := items0 |}).
  { intros g. split; [intros k; repeat split|]. split; repeat constructor. }
  assert (H1 : Forall (wake_ok 600) wakes0) by (repeat constructor; apply H0).
  assert (F0 : forward alone).
  { intros ls f Hls. split; [exact Hls|]. intros c ->. exists c.
    split; [reflexivity|apply key_leb_refl]. }
  assert (F1 : forward now_of_the_user).
  { intros ls f Hls. unfold now_of_the_user. destruct ls as [c|].
    - destruct (key_leb c (key_of c_new)) eqn:K; cbn [fst].
      + split; [reflexivity|]. intros c0 [= <-]. eexists.
        split; [reflexivity|exact K].
      + split; [exact Hls|]. intros c0 [= <-]. eexists.
        split; [reflexivity|apply key_leb_refl].
    - cbn [fst]. split; [reflexivity|]. intros c0 H. discriminate H. }
  assert (H2 : Forall (fun w => forward (since w)) wakes0).
  { apply Forall_cons; [exact F0|]. apply Forall_cons; [exact F1|constructor]. }
  assert (H3 : aware_cursor (_last_seen st_stale)) by reflexivity.
  split; [reflexivity|].
  exact (watcher_never_repeats utc_system disk_ok 600 false render0 wakes0 st_stale
           H1 H2 H3).
Defined.

(** ** The commands *)

Lemma send_newest_done {U : UnicodeData} (local : Z -> Z)
      (disk : json -> file -> disk_answer)
      (render : bytes -> result str) (sending : result unit) (x : candidate)
      (st st1 : State) :
  send_newest local disk render sending x st = (st1, Done) ->
  _last_seen st1 = Some (key_of x)
  /\ exists text, render (snd x) = Ok text /\ sending = Ok tt
                  /\ outbox st1 = outbox st ++ [(text, true)].
Proof.
  unfold send_newest. destruct x as [[dt uid] raw].
  destruct (render raw) as [text|] eqn:R; [|discriminate].
  destruct sending as [[]|]; [|discriminate].
  pose proof (set_cursor_last_seen local disk dt uid (send text true st)) as E.
  pose proof (set_cursor_outbox local disk dt uid (send text true st)) as O.
  destruct (set_cursor local disk dt uid (send text true st)) as [st' [[]|e]];
    [|discriminate].
  intros [= <-]. cbn [fst] in *. split; [exact E|].
  exists text. cbn [snd]. repeat split; assumption.
Qed.

Lemma send_newest_other {U : UnicodeData} (local : Z -> Z)
      (disk : json -> file -> disk_answer)
      (render : bytes -> result str) (sending : result unit) (x : candidate)
      (st st1 : State) (r : reply) :
  send_newest local disk render sending x st = (st1, r) ->
  (r = Done \/ exists e, r = Failed e)
  /\ (outbox st1 = outbox st
      \/ exists text, render (snd x) = Ok text
                      /\ outbox st1 = outbox st ++ [(text, true)]).
Proof.
  unfold send_newest. destruct x as [[dt uid] raw]. cbn [snd].
  destruct (render raw) as [text|] eqn:R.
  - destruct sending as [[]|].
    + pose proof (set_cursor_outbox local disk dt uid (send text true st)) as O.
      destruct (set_cursor local disk dt uid (send text true st)) as [st' [[]|e]];
        intros [= <- <-]; cbn [fst] in O; (split; [eauto|right; eauto]).
    + intros [= <- <-]. split; [eauto|right; eauto].
  - intros [= <- <-]. split; [eauto|left; reflexivity].
Qed.

Lemma cursor_on_newest_selects_nothing {U : UnicodeData} (local : Z -> Z)
      (disk : json -> file -> disk_answer) (M : Z)
      (to_user : bool) (render : bytes -> result str) (clock : nat -> datetime)
      (items : list candidate) (newest : candidate) (st1 : State) :
  Forall aware_candidate items -> ascending items ->
  (forall k, clock_ok M (clock k)) ->
  last_item items = Some newest -> _last_seen st1 = Some (key_of newest) ->
  drain local disk M to_user render clock items st1 = (st1, Ok tt).
Proof.
  intros Haw Hasc Hclock Hl Hc. unfold drain. rewrite Hc.
  rewrite (select_new_eval M clock _ items Hclock) by
    (auto; apply (last_item_Forall aware_candidate items newest Haw Hl)).
  rewrite (fresh_beyond_none M clock (key_of newest) items
             (ascending_below_last items newest Hasc Hl)).
  reflexivity.
Qed.

(** X13. Once [/now], [/now_force] or [/reset_state] has gone through,
    the mailbox as it then was holds nothing for the watcher: a wake over
    the same candidates hands nothing over and leaves the state as it is.
    This holds also of the candidates older than the newest one that were
    fresh and beyond the cursor: the commands look at the newest candidate
    only, and the cursor passes the others. *)
Theorem commands_silence_watcher {U : UnicodeData} (local : Z -> Z)
      (disk : json -> file -> disk_answer) (M : Z)
        (render : bytes -> result str) (items : list candidate) (st st1 : State) :
  Forall aware_candidate items -> ascending items ->
  (exists clock sending, now local disk M render clock sending items st = (st1, Done))
  \/ (exists sending, now_force local disk render sending items st = (st1, Done))
  \/ reset_state local disk items st = (st1, Done) ->
  forall to_user render2 clock2,
    (forall k, clock_ok M (clock2 k)) ->
    drain local disk M to_user render2 clock2 items st1 = (st1, Ok tt).
Proof.
  intros Haw Hasc H to_user render2 clock2 Hclock.
  assert (E : exists newest, last_item items = Some newest
                             /\ _last_seen st1 = Some (key_of newest)).
  { destruct H as [(clock & sending & H)|[(sending & H)|H]].
    - unfold now in H. destruct (last_item items) as [x|]; [|discriminate].
      exists x. split; [reflexivity|].
      destruct (_is_fresh M clock (fst (fst x))) as [[|]|]; try discriminate.
      destruct (_last_seen st) as [ls|].
      + destruct (tuple_le (key_of x) ls) as [[|]|]; try discriminate.
        apply (send_newest_done local disk render sending x st st1 H).
      + apply (send_newest_done local disk render sending x st st1 H).
    - unfold now_force in H. destruct (last_item items) as [x|]; [|discriminate].
      exists x. split; [reflexivity|].
      apply (send_newest_done local disk render sending x st st1 H).
    - unfold reset_state in H.
      destruct (last_item items) as [[[dt uid] raw]|]; [|discriminate].
      exists (dt, uid, raw). split; [reflexivity|].
      pose proof (set_cursor_last_seen local disk dt uid st) as E.
      destruct (set_cursor local disk dt uid st) as [st' [[]|e]]; [|discriminate].
      injection H as <-. exact E. }
  destruct E as (newest & Hl & Hc).
  apply (cursor_on_newest_selects_nothing local disk M to_user render2 clock2 items newest);
    assumption.
Qed.

Lemma commands_silence_watcher_witness :
  now utc_system disk_ok 600 render0 now0 (Ok tt) items0 st_stale = (st_after_now, Done)
  /\ drain utc_system disk_ok 600 false render0 (fun _ => now0) items0 st_after_now
     = (st_after_now, Ok tt).
Proof.
  assert (H1 : Forall aware_candidate items0) by (repeat constructor).
  assert (H2 : ascending items0) by (repeat constructor).
  assert (H3 : now utc_system disk_ok 600 render0 now0 (Ok tt) items0 st_stale
               = (st_after_now, Done)) by reflexivity.
  split; [exact H3|].
  apply (commands_silence_watcher utc_system disk_ok 600 render0 items0 st_stale
           st_after_now H1 H2).
  - left. exists now0, (Ok tt). exact H3.
  - intros k. repeat split.
Defined.

(** X14. [/now] sends at most one text, and only for the newest
    candidate when that one is fresh and strictly beyond the cursor; after
    it has gone through, [/now] on the same mailbox sends nothing and
    leaves the state as it is. *)
Theorem now_sends_only_new {U : UnicodeData} (local : Z -> Z)
      (disk : json -> file -> disk_answer) (M : Z)
        (render : bytes -> result str) (clock : datetime) (sending : result unit)
        (items : list candidate) (st st1 : State) (r : reply) :
  Forall aware_candidate items -> aware_cursor (_last_seen st) ->
  clock_ok M clock ->
  now local disk M render clock sending items st = (st1, r) ->
  (outbox st1 = outbox st
   \/ exists newest text,
        last_item items = Some newest
        /\ fresh_at M clock (fst (fst newest)) = true
        /\ beyond (_last_seen st) (key_of newest) = true
        /\ render (snd newest) = Ok text
        /\ outbox st1 = outbox st ++ [(text, true)])
  /\ (r = Done ->
      forall clock2 sending2, clock_ok M clock2 ->
      exists r2, now local disk M render clock2 sending2 items st1 = (st1, r2)
                 /\ r2 <> Done).
Proof.
  intros Haw Hls Hclock. unfold now at 1.
  destruct (last_item items) as [x|] eqn:L.
  2:{ intros [= <- <-]. split; [left; reflexivity|discriminate]. }
  pose proof (last_item_Forall aware_candidate items x Haw L) as Hx.
  rewrite (is_fresh_eval M clock _ Hclock Hx).
  destruct (fresh_at M clock (fst (fst x))) eqn:F.
  2:{ intros [= <- <-]. split; [left; reflexivity|discriminate]. }
  assert (Hsend : beyond (_last_seen st) (key_of x) = true ->
                  send_newest local disk render sending x st = (st1, r) ->
                  (outbox st1 = outbox st
                   \/ exists newest text,
                        Some x = Some newest
                        /\ fresh_at M clock (fst (fst newest)) = true
                        /\ beyond (_last_seen st) (key_of newest) = true
                        /\ render (snd newest) = Ok text
                        /\ outbox st1 = outbox st ++ [(text, true)])
                  /\ (r = Done ->
                      forall clock2 sending2, clock_ok M clock2 ->
                      exists r2, now local disk M render clock2 sending2 items st1 = (st1, r2)
                                 /\ r2 <> Done)).
  { intros Hb S. split.
    - destruct (send_newest_other local disk render sending x st st1 r S)
        as [_ [O|(text & R & O)]]; [left; exact O|].
      right. exists x, text. auto.
    - intros ->. destruct (send_newest_done local disk render sending x st st1 S) as [Hc _].
      intros clock2 sending2 Hclock2. unfold now. rewrite L.
      rewrite (is_fresh_eval M clock2 _ Hclock2 Hx).
      destruct (fresh_at M clock2 (fst (fst x))).
      + rewrite Hc. rewrite (tuple_le_aware (key_of x) (key_of x) Hx Hx).
        rewrite key_leb_refl. eexists. split; [reflexivity|discriminate].
      + eexists. split; [reflexivity|discriminate]. }
  destruct (_last_seen st) as [ls|] eqn:Els.
  - rewrite (tuple_le_aware (key_of x) ls Hx Hls).
    destruct (key_leb (key_of x) ls) eqn:K.
    + intros [= <- <-]. split; [left; reflexivity|discriminate].
    + apply Hsend. cbn [beyond]. unfold key_ltb. rewrite K. reflexivity.
  - apply Hsend. reflexivity.
Qed.

Lemma now_sends_only_new_witness :
  exists r2, now utc_system disk_ok 600 render0 now0 (Ok tt) items0 st_after_now
             = (st_after_now, r2) /\ r2 <> Done.
Proof.
  assert (H1 : Forall aware_candidate items0) by (repeat constructor).
  assert (H2 : aware_cursor (_last_seen st_stale)) by reflexivity.
  assert (H3 : clock_ok 600 now0) by (repeat split).
  exact (proj2 (now_sends_only_new utc_system disk_ok 600 render0 now0 (Ok tt) items0
                  st_stale st_after_now Done H1 H2 H3 eq_refl)
               eq_refl now0 (Ok tt) H3).
Defined.

(** X15. When Telegram refuses the text, [/now] and [/now_force] leave
    the cursor where it was, in memory and in the state file, and do not
    answer that the mail was sent: the same mail is offered again by the
    next [/now]. *)
Theorem failed_send_keeps_cursor {U : UnicodeData} (local : Z -> Z)
      (disk : json -> file -> disk_answer) (M : Z)
        (render : bytes -> result str) (clock : datetime) (e : exn)
        (items : list candidate) (st : State) :
  (_last_seen (fst (now local disk M render clock (Raise e) items st)) = _last_seen st
   /\ state_file (fst (now local disk M render clock (Raise e) items st)) = state_file st
   /\ snd (now local disk M render clock (Raise e) items st) <> Done)
  /\ (_last_seen (fst (now_force local disk render (Raise e) items st)) = _last_seen st
      /\ state_file (fst (now_force local disk render (Raise e) items st)) = state_file st
      /\ snd (now_force local disk render (Raise e) items st) <> Done).
Proof.
  assert (S : forall x,
             _last_seen (fst (send_newest local disk render (Raise e) x st)) = _last_seen st
             /\ state_file (fst (send_newest local disk render (Raise e) x st)) = state_file st
             /\ snd (send_newest local disk render (Raise e) x st) <> Done).
  { intros [[dt uid] raw]. unfold send_newest.
    destruct (render raw); cbn; repeat split; discriminate. }
  split.
  - unfold now. destruct (last_item items) as [x|];
      [|cbn; repeat split; discriminate].
    destruct (_is_fresh M clock (fst (fst x))) as [[|]|];
      try (cbn; repeat split; discriminate).
    destruct (_last_seen st) as [ls|] eqn:Els.
    + destruct (tuple_le (key_of x) ls) as [[|]|];
        try (cbn; repeat split; try assumption; discriminate).
      apply S.
    + apply S.
  - unfold now_force. destruct (last_item items) as [x|];
      [apply S|cbn; repeat split; discriminate].
Qed.

(** X16. The cursor survives a restart when the file system writes the
    state file: after the first step of a session, a wake of the watcher
    or a command, on candidates of [_fetch_candidates] and from a state in
    which memory and state file were in step, the start of the process on
    the state file as it then is resumes with the cursor that was in
    memory. *)
Theorem restart_resumes_cursor {U : UnicodeData} (local : Z -> Z)
        (disk : json -> file -> disk_answer) (M : Z)
        (to_user : bool) (render : bytes -> result str)
        (items : list candidate) (st st' : State) (c : cursor) :
  writable disk ->
  Forall utc_candidate items -> cursor_saved local st ->
  st' = fst (init_cursor local disk items st)
  \/ (exists clock, st' = fst (drain local disk M to_user render clock items st))
  \/ (exists clock sending, st' = fst (now local disk M render clock sending items st))
  \/ (exists sending, st' = fst (now_force local disk render sending items st))
  \/ st' = fst (reset_state local disk items st) ->
  _last_seen st' = Some c ->
  startup local (state_file st')
  = Ok {| _last_seen := Some c; state_file := state_file st'; outbox := [] |}.
Proof.
  intros Hdisk Hitems Hst Hop Hc.
  destruct (cursor_saved_kept local disk Hdisk M to_user render items st Hitems Hst)
    as (H1 & H2 & H3 & H4 & H5).
  assert (Hs : cursor_saved local st').
  { destruct Hop as [->|[(clock & ->)|[(clock & sending & ->)|[(sending & ->)| ->]]]];
      auto. }
  unfold startup. rewrite (Hs c Hc). reflexivity.
Qed.

(** When the file system does not write, [_save_state] says nothing and
    the restart loses the cursor: after [/reset_state] on a full disk the
    cursor is in memory, and the start of the process finds none. *)
Lemma restart_after_failed_write :
  _last_seen (fst (reset_state utc_system disk_full items0 st_unset))
  = Some (key_of c_new)
  /\ snd (reset_state utc_system disk_full items0 st_unset) = Done
  /\ startup utc_system
              (state_file (fst (reset_state utc_system disk_full items0 st_unset)))
     = Ok st_unset.
Proof. repeat split. Qed.

Lemma restart_resumes_cursor_witness :
  writable disk_ok
  /\ startup utc_system (state_file st_after_now)
     = Ok {| _last_seen := Some (key_of c_new);
             state_file := state_file st_after_now; outbox := [] |}.
Proof.
  assert (H0 : writable disk_ok) by (intros state f; reflexivity).
  assert (H1 : Forall utc_candidate items0) by (repeat constructor).
  assert (H2 : cursor_saved utc_system st_stale).
  { intros c E. injection E as <-. reflexivity. }
  split; [exact H0|].
  apply (restart_resumes_cursor utc_system disk_ok 600 false render0 items0 st_stale
           st_after_now (key_of c_new) H0 H1 H2).
  - right. right. left. exists now0, (Ok tt). reflexivity.
  - reflexivity.
Defined.

(** ** Freshness at the bounds of [datetime] *)

(** X17. When [now - timedelta(minutes=MAX_EMAIL_AGE_MINUTES)] is no
    datetime of the years 1 to 9999, [_is_fresh] raises [OverflowError]
    whatever the mail: a wake of the watcher over a mailbox that is not
    empty then raises and hands nothing over, and [/now] fails. *)
Theorem is_fresh_overflow {U : UnicodeData} (local : Z -> Z)
      (disk : json -> file -> disk_answer) (M : Z)
        (now_ : datetime) :
  in_range (wall now_ - M * US_PER_MINUTE) = false ->
  (forall dt, _is_fresh M now_ dt = Raise OverflowError)
  /\ (forall to_user render clock c items st,
        clock 0%nat = now_ ->
        drain local disk M to_user render clock (c :: items) st
        = (st, Raise OverflowError))
  /\ (forall render sending c items st,
        last_item items = Some c ->
        now local disk M render now_ sending items st = (st, Failed OverflowError)).
Proof.
  intros Hb.
  assert (F : forall dt, _is_fresh M now_ dt = Raise OverflowError).
  { intros dt. unfold _is_fresh, timedelta_minutes.
    destruct ((-999999999 <=? M * US_PER_MINUTE / US_PER_DAY)
              && (M * US_PER_MINUTE / US_PER_DAY <=? 999999999));
      cbn [bind]; [|reflexivity].
    unfold sub_timedelta. rewrite Hb. reflexivity. }
  split; [exact F|]. split.
  - intros to_user render clock c items st Hc. unfold drain. cbn [select_new].
    rewrite Hc, F. reflexivity.
  - intros render sending c items st Hl. unfold now. rewrite Hl, F. reflexivity.
Qed.

Lemma is_fresh_overflow_witness :
  _is_fresh 2000000000 now0 (hours_before 1) = Raise OverflowError.
Proof.
  exact (proj1 (is_fresh_overflow utc_system disk_ok 2000000000 now0 eq_refl)
               (hours_before 1)).
Defined.

(** X18. Freshness follows the time line: of two aware timestamps the
    later one is fresh when the earlier one is, and a mail that is stale at
    one reading of the clock is stale at every later reading. *)
Theorem is_fresh_monotone (M : Z) (now1 now2 dt1 dt2 : datetime) :
  clock_ok M now1 -> clock_ok M now2 ->
  aware dt1 = true -> aware dt2 = true ->
  (instant dt1 <= instant dt2 ->
   _is_fresh M now1 dt1 = Ok true -> _is_fresh M now1 dt2 = Ok true)
  /\ (instant now1 <= instant now2 ->
      _is_fresh M now1 dt1 = Ok false -> _is_fresh M now2 dt1 = Ok false).
Proof.
  intros H1 H2 A1 A2.
  rewrite !(is_fresh_eval M now1 _ H1) by assumption.
  rewrite (is_fresh_eval M now2 _ H2) by assumption.
  unfold fresh_at. split; intros Hle [= H]; f_equal.
  - apply Z.leb_le. apply Z.leb_le in H. lia.
  - apply Z.leb_gt. apply Z.leb_gt in H. lia.
Qed.

Lemma is_fresh_monotone_witness :
  _is_fresh 600 now0 (hours_before 1) = Ok true
  /\ _is_fresh 600 now0 (hours_before 11) = Ok false.
Proof.
  assert (H : clock_ok 600 now0) by (repeat split).
  destruct (is_fresh_monotone 600 now0 now0 (hours_before 5) (hours_before 1)
              H H eq_refl eq_refl) as [H1 _].
  destruct (is_fresh_monotone 600 now0 now0 (hours_before 11) (hours_before 11)
              H H eq_refl eq_refl) as [_ H2].
  split; [apply H1|apply H2]; try reflexivity; vm_compute; discriminate.
Defined.

(** ** The text of the message is HTML that Telegram reads *)

Lemma hrun_none (s : str) : hrun None s = None.
Proof. induction s as [|c s IH]; [reflexivity|exact IH]. Qed.

Lemma goes_app (q q1 q2 : hstate) (a b : str) :
  goes q a q1 -> goes q1 b q2 -> goes q (a ++ b) q2.
Proof.
  unfold goes, hrun. intros H1 H2. rewrite fold_left_app.
  unfold hrun in H1. rewrite H1. exact H2.
Qed.

Lemma goes_app_inv (q q2 : hstate) (a b : str) :
  goes q (a ++ b) q2 -> exists q1, goes q a q1 /\ goes q1 b q2.
Proof.
  unfold goes, hrun. rewrite fold_left_app. intros H.
  destruct (fold_left _ a (Some q)) as [q1|] eqn:E.
  - exists q1. split; [reflexivity|exact H].
  - change (hrun None b = Some q2) in H. rewrite hrun_none in H. discriminate.
Qed.

Lemma goes_nil (q : hstate) : goes q [] q.
Proof. reflexivity. Qed.

(** A text without [&], [<] and [>] is read as it is. *)
Lemma goes_plain (opened : list tag) (s : str) :
  Forall (fun c => c <> 38 /\ c <> 60 /\ c <> 62) s ->
  goes (in_text opened) s (in_text opened).
Proof.
  induction 1 as [|c s (H1 & H2 & H3) _ IH]; [reflexivity|].
  unfold goes, hrun in *. cbn [fold_left]. unfold hstep at 2. cbn [in_text h_mode h_open].
  replace (c =? 38) with false by (symmetry; apply Z.eqb_neq; exact H1).
  replace (c =? 60) with false by (symmetry; apply Z.eqb_neq; exact H2).
  replace (c =? 62) with false by (symmetry; apply Z.eqb_neq; exact H3).
  exact IH.
Qed.

Lemma html_escape_app (a b : str) :
  html_escape (a ++ b) = html_escape a ++ html_escape b.
Proof. unfold html_escape, replace_char. rewrite !flat_map_app. reflexivity. Qed.

Lemma html_escape_one (c : Z) :
  html_escape [c]
  = if c =? 38 then u "&amp;"
    else if c =? 60 then u "&lt;"
    else if c =? 62 then u "&gt;"
    else if c =? 34 then u "&quot;"
    else if c =? 39 then u "&#x27;"
    else [c].
Proof.
  destruct (Z.eqb_spec c 38) as [->|H1]; [vm_compute; reflexivity|].
  destruct (Z.eqb_spec c 60) as [->|H2]; [vm_compute; reflexivity|].
  destruct (Z.eqb_spec c 62) as [->|H3]; [vm_compute; reflexivity|].
  destruct (Z.eqb_spec c 34) as [->|H4]; [vm_compute; reflexivity|].
  destruct (Z.eqb_spec c 39) as [->|H5]; [vm_compute; reflexivity|].
  unfold html_escape, replace_char. cbn [flat_map app].
  replace (c =? 38) with false by (symmetry; apply Z.eqb_neq; exact H1).
  cbn [flat_map app].
  replace (c =? 60) with false by (symmetry; apply Z.eqb_neq; exact H2).
  cbn [flat_map app].
  replace (c =? 62) with false by (symmetry; apply Z.eqb_neq; exact H3).
  cbn [flat_map app].
  replace (c =? 34) with false by (symmetry; apply Z.eqb_neq; exact H4).
  cbn [flat_map app].
  replace (c =? 39) with false by (symmetry; apply Z.eqb_neq; exact H5).
  reflexivity.
Qed.

(** What [html.escape] writes is read as a text, and as a value of
    [href], whatever it escapes. *)
Lemma goes_escape (opened : list tag) (x : str) :
  goes (in_text opened) (html_escape x) (in_text opened)
  /\ goes (in_attr opened) (html_escape x) (in_attr opened).
Proof.
  induction x as [|c x [IH1 IH2]]; [split; reflexivity|].
  change (c :: x) with ([c] ++ x). rewrite html_escape_app, html_escape_one.
  assert (H : goes (in_text opened)
                (if c =? 38 then u "&amp;" else if c =? 60 then u "&lt;"
                 else if c =? 62 then u "&gt;" else if c =? 34 then u "&quot;"
                 else if c =? 39 then u "&#x27;" else [c]) (in_text opened)
              /\ goes (in_attr opened)
                   (if c =? 38 then u "&amp;" else if c =? 60 then u "&lt;"
                    else if c =? 62 then u "&gt;" else if c =? 34 then u "&quot;"
                    else if c =? 39 then u "&#x27;" else [c]) (in_attr opened)).
  { destruct (Z.eqb_spec c 38) as [->|H1]; [split; vm_compute; reflexivity|].
    destruct (Z.eqb_spec c 60) as [->|H2]; [split; vm_compute; reflexivity|].
    destruct (Z.eqb_spec c 62) as [->|H3]; [split; vm_compute; reflexivity|].
    destruct (Z.eqb_spec c 34) as [->|H4]; [split; vm_compute; reflexivity|].
    destruct (Z.eqb_spec c 39) as [->|H5]; [split; vm_compute; reflexivity|].
    unfold goes, hrun, hstep. cbn [fold_left in_text in_attr h_mode h_open].
    replace (c =? 38) with false by (symmetry; apply Z.eqb_neq; exact H1).
    replace (c =? 60) with false by (symmetry; apply Z.eqb_neq; exact H2).
    replace (c =? 62) with false by (symmetry; apply Z.eqb_neq; exact H3).
    replace (c =? 34) with false by (symmetry; apply Z.eqb_neq; exact H4).
    split; reflexivity. }
  destruct H as [H1 H2].
  split; eapply goes_app; eassumption.
Qed.

Lemma goes_number (opened : list tag) (n : Z) :
  goes (in_text opened) (str_of_int n) (in_text opened).
Proof.
  destruct (str_of_int_spec n) as (ds & -> & _ & Hds & _).
  apply goes_plain. apply Forall_app. split.
  - destruct (n <? 0); repeat constructor; lia.
  - eapply Forall_impl; [|exact Hds]. intros c Hc. cbn beta in Hc. lia.
Qed.

Lemma hstep_ok (q q' : hstate) (c : Z) :
  hstate_ok q -> hstep q c = Some q' -> hstate_ok q'.
Proof.
  assert (E : forall lit attr o q',
             (exists b d, lit = b ++ [d] /\ isspace d = false) ->
             expect lit attr o = Some q' -> hstate_ok q').
  { intros lit attr o q1 H [= <-]. exact H. }
  assert (G : exists b d, [62] = b ++ [d] /\ isspace d = false).
  { exists [], 62. split; reflexivity. }
  assert (C : forall t o q', close t o = Some q' -> hstate_ok q').
  { intros t o q1. unfold close. destruct o as [|t' o]; [discriminate|].
    destruct (tag_eqb t t'); [|discriminate]. apply E, G. }
  destruct q as [m o]. unfold hstate_ok at 1, hstep. cbn [h_mode h_open].
  destruct m as [| |attr| | |lit attr]; intros Hq.
  - destruct (c =? 38); [intros [= <-]; exact I|].
    destruct (c =? 60); [intros [= <-]; exact I|].
    destruct (c =? 62); [discriminate|]. intros [= <-]. exact I.
  - destruct (c =? 38); [intros [= <-]; exact I|].
    destruct (c =? 34); [apply E, G|].
    destruct ((c =? 60) || (c =? 62)); [discriminate|]. intros [= <-]. exact I.
  - destruct (c =? 97); [apply E; exists (u "mp"), 59; split; reflexivity|].
    destruct (c =? 108); [apply E; exists (u "t"), 59; split; reflexivity|].
    destruct (c =? 103); [apply E; exists (u "t"), 59; split; reflexivity|].
    destruct (c =? 113); [apply E; exists (u "uot"), 59; split; reflexivity|].
    destruct (c =? 35); [apply E; exists (u "x27"), 59; split; reflexivity|].
    discriminate.
  - destruct (c =? 98); [apply E, G|].
    destruct (c =? 105); [apply E, G|].
    destruct (c =? 97); [apply E; exists (32 :: u "href="), 34; split; reflexivity|].
    destruct (c =? 47); [intros [= <-]; exact I|]. discriminate.
  - destruct (c =? 98); [apply C|].
    destruct (c =? 105); [apply C|].
    destruct (c =? 97); [apply C|]. discriminate.
  - destruct lit as [|p lit]; [discriminate|].
    destruct (c =? p); [|discriminate]. intros [= <-].
    unfold hstate_ok. cbn [h_mode].
    destruct lit as [|p' lit]; [destruct attr; exact I|].
    destruct Hq as (b & d & Eb & Hd). destruct b as [|x b]; [discriminate|].
    injection Eb as _ Eb. exists b, d. split; assumption.
Qed.

Lemma hrun_ok (s : str) :
  forall q q', hstate_ok q -> goes q s q' -> hstate_ok q'.
Proof.
  unfold goes, hrun. induction s as [|c s IH]; intros q q' Hq; cbn [fold_left].
  - intros [= <-]. exact Hq.
  - destruct (hstep q c) as [q1|] eqn:E.
    + apply IH. apply (hstep_ok q q1 c Hq E).
    + intros H. change (hrun None s = Some q') in H. rewrite hrun_none in H.
      discriminate.
Qed.

(** White space that leaves the reader in a text found it there. *)
Lemma hstep_space_back (q q' : hstate) (c : Z) :
  hstate_ok q -> isspace c = true -> hstep q c = Some q' ->
  h_mode q' = HText -> q = q'.
Proof.
  assert (E : forall lit attr o q', expect lit attr o = Some q' ->
                                    h_mode q' = HText -> False).
  { intros lit attr o q1 [= <-]. discriminate. }
  assert (C : forall t o q', close t o = Some q' -> h_mode q' = HText -> False).
  { intros t o q1. unfold close. destruct o as [|t' o]; [discriminate|].
    destruct (tag_eqb t t'); [apply E|discriminate]. }
  destruct q as [m o]. unfold hstate_ok, hstep. cbn [h_mode h_open].
  destruct m as [| |attr| | |lit attr]; intros Hq Hc.
  - destruct (c =? 38); [intros [= <-]; discriminate|].
    destruct (c =? 60); [intros [= <-]; discriminate|].
    destruct (c =? 62); [discriminate|]. intros [= <-]. reflexivity.
  - destruct (c =? 38); [intros [= <-]; discriminate|].
    destruct (c =? 34); [intros H1 H2; destruct (E _ _ _ _ H1 H2)|].
    destruct ((c =? 60) || (c =? 62)); [discriminate|]. intros [= <-]. discriminate.
  - destruct (c =? 97); [intros H1 H2; destruct (E _ _ _ _ H1 H2)|].
    destruct (c =? 108); [intros H1 H2; destruct (E _ _ _ _ H1 H2)|].
    destruct (c =? 103); [intros H1 H2; destruct (E _ _ _ _ H1 H2)|].
    destruct (c =? 113); [intros H1 H2; destruct (E _ _ _ _ H1 H2)|].
    destruct (c =? 35); [intros H1 H2; destruct (E _ _ _ _ H1 H2)|].
    discriminate.
  - destruct (c =? 98); [intros H1 H2; destruct (E _ _ _ _ H1 H2)|].
    destruct (c =? 105); [intros H1 H2; destruct (E _ _ _ _ H1 H2)|].
    destruct (c =? 97); [intros H1 H2; destruct (E _ _ _ _ H1 H2)|].
    destruct (c =? 47); [intros [= <-]; discriminate|]. discriminate.
  - destruct (c =? 98); [intros H1 H2; destruct (C _ _ _ H1 H2)|].
    destruct (c =? 105); [intros H1 H2; destruct (C _ _ _ H1 H2)|].
    destruct (c =? 97); [intros H1 H2; destruct (C _ _ _ H1 H2)|]. discriminate.
  - destruct lit as [|p lit]; [discriminate|].
    destruct (Z.eqb_spec c p) as [->|]; [|discriminate]. intros [= <-].
    cbn [h_mode]. destruct lit as [|p' lit]; [|discriminate].
    destruct Hq as (b & d & Eb & Hd). destruct b as [|x b].
    + injection Eb as ->. rewrite Hc in Hd. discriminate.
    + destruct b; discriminate.
Qed.

Lemma goes_spaces_back (ws : str) :
  Forall (fun c => isspace c = true) ws ->
  forall q q', hstate_ok q -> goes q ws q' -> h_mode q' = HText -> q = q'.
Proof.
  unfold goes, hrun. induction 1 as [|c ws Hc _ IH]; intros q q' Hq; cbn [fold_left].
  - intros [= <-] _. reflexivity.
  - destruct (hstep q c) as [q1|] eqn:E.
    + intros R Hm. pose proof (hstep_ok q q1 c Hq E) as Hq1.
      pose proof (IH q1 q' Hq1 R Hm) as <-.
      apply (hstep_space_back q q1 c Hq Hc E Hm).
    + intros R. change (hrun None ws = Some q') in R. rewrite hrun_none in R.
      discriminate.
Qed.

Lemma space_plain (c : Z) : isspace c = true -> c <> 38 /\ c <> 60 /\ c <> 62.
Proof.
  intros H. repeat split; intros ->; vm_compute in H; discriminate.
Qed.

Lemma lstrip_split (s : str) :
  exists ws, s = ws ++ lstrip s /\ Forall (fun c => isspace c = true) ws.
Proof.
  induction s as [|c s (ws & E & H)]; cbn [lstrip].
  - exists []. split; [reflexivity|constructor].
  - destruct (isspace c) eqn:Hc.
    + exists (c :: ws). split; [cbn [app]; rewrite <- E; reflexivity|].
      constructor; assumption.
    + exists []. split; [reflexivity|constructor].
Qed.

Lemma rstrip_split (s : str) :
  exists ws, s = rstrip s ++ ws /\ Forall (fun c => isspace c = true) ws.
Proof.
  unfold rstrip. destruct (lstrip_split (rev s)) as (ws & E & H).
  exists (rev ws). split.
  - rewrite <- rev_app_distr, <- E, rev_involutive. reflexivity.
  - apply Forall_rev. exact H.
Qed.

(** [strip] leaves a text that Telegram reads one that it reads. *)
Lemma goes_strip (s : str) :
  goes (in_text []) s (in_text []) -> goes (in_text []) (strip s) (in_text []).
Proof.
  intros H. unfold strip.
  destruct (lstrip_split s) as (ws & E & Hws).
  rewrite E in H. apply goes_app_inv in H. destruct H as (q1 & H1 & H2).
  assert (Hp : goes (in_text []) ws (in_text [])).
  { apply goes_plain. eapply Forall_impl; [|exact Hws]. apply space_plain. }
  unfold goes in H1, Hp. rewrite Hp in H1. injection H1 as <-.
  destruct (rstrip_split (lstrip s)) as (ws' & E' & Hws').
  rewrite E' in H2. apply goes_app_inv in H2. destruct H2 as (q2 & H3 & H4).
  assert (Hq2 : hstate_ok q2).
  { apply (hrun_ok (rstrip (lstrip s)) (in_text []) q2); [exact I|exact H3]. }
  pose proof (goes_spaces_back ws' Hws' q2 _ Hq2 H4 eq_refl) as ->.
  exact H3.
Qed.

Lemma goes_join (lines : list str) :
  Forall (fun l => goes (in_text []) l (in_text [])) lines ->
  goes (in_text []) (join [10] lines) (in_text []).
Proof.
  induction 1 as [|l lines Hl Hls IH]; [reflexivity|].
  cbn [join]. destruct lines as [|l' lines]; [exact Hl|].
  eapply goes_app; [exact Hl|]. eapply goes_app; [|exact IH].
  vm_compute. reflexivity.
Qed.

(** The reader over a text of the template, piece by piece. *)
Ltac walk :=
  lazymatch goal with
  | |- goes _ (_ ++ _) _ => eapply goes_app; [walk|walk]
  | |- goes _ (?c :: ?s) _ =>
      first [ vm_compute; reflexivity
            | eapply (goes_app _ _ _ [c] s); [vm_compute; reflexivity|walk] ]
  | |- goes _ (str_of_int _) _ => apply goes_number
  | |- goes _ (html_escape _) _ =>
      first [apply (proj1 (goes_escape _ _)) | apply (proj2 (goes_escape _ _))]
  | |- _ => vm_compute; reflexivity
  end.

Lemma goes_header (meta : parts) (data : parse_result) :
  goes (in_text []) (header_of meta data) (in_text []).
Proof.
  unfold header_of.
  destruct (available data) as [a|]; [destruct (total data) as [t|];
    [destruct (truthy_opt (timeframe data))|]|];
    destruct (truthy (p_subject meta)); walk.
Qed.

Lemma goes_project (p : project) (l : list str) :
  project_lines p = Ok l ->
  Forall (fun s => goes (in_text []) s (in_text [])) l.
Proof.
  unfold project_lines. destruct (price p) as [pr|]; [|discriminate].
  intros [= <-]. unfold quote.
  apply Forall_cons; [|apply Forall_app; split; [|apply Forall_app; split]].
  - destruct (buyer p) as [[|c1 b]|]; destruct (url p) as [[|c0 link]|]; walk.
  - destruct (category p) as [[|c2 cat]|]; repeat constructor. walk.
  - destruct (hired p) as [[|c3 h]|]; repeat constructor. walk.
  - repeat constructor.
Qed.

Lemma goes_projects (ps : list project) :
  forall l, projects_lines ps = Ok l ->
            Forall (fun s => goes (in_text []) s (in_text [])) l.
Proof.
  induction ps as [|p ps IH]; intros l; cbn [projects_lines].
  - intros [= <-]. constructor.
  - destruct (project_lines p) as [l1|] eqn:E1; cbn [bind]; [|discriminate].
    destruct (projects_lines ps) as [l2|]; cbn [bind]; [|discriminate].
    intros [= <-]. apply Forall_app. split; [apply (goes_project p l1 E1)|].
    apply IH. reflexivity.
Qed.

(** The reader goes through the text of [compose_message]. *)
Lemma compose_message_read (MAX_ITEMS : Z) (meta : parts)
        (data : parse_result) (s : str) :
  compose_message MAX_ITEMS meta data = Ok s -> telegram_html s = true.
Proof.
  unfold compose_message.
  destruct (projects_lines (upto MAX_ITEMS (projects data))) as [body|] eqn:B;
    cbn [bind]; [|discriminate].
  intros [= <-]. cbv zeta.
  match goal with
  | |- telegram_html ?x = true => assert (G : goes (in_text []) x (in_text []))
  end.
  { apply goes_strip, goes_join.
    assert (H : Forall (fun l => goes (in_text []) l (in_text []))
                       ([header_of meta data; []] ++ body)).
    { apply Forall_app. split.
      - constructor; [apply goes_header|]. constructor; [reflexivity|constructor].
      - apply (goes_projects _ body B). }
    destruct (upto MAX_ITEMS (projects data)); [|exact H].
    change (Forall (fun l => goes (in_text []) l (in_text []))
                   (([header_of meta data; []] ++ body) ++ [NOTICE])).
    apply Forall_app. split; [exact H|].
    constructor; [vm_compute; reflexivity|constructor]. }
  unfold telegram_html. unfold goes in G. rewrite G. reflexivity.
Qed.

(** X19. Whatever the mail holds, the text that [compose_message] returns
    is HTML that Telegram reads: the tags are those of the template,
    nested and closed, and every [<], [>], [&] and, in a link, every quote
    of the mail is written as an entity. *)
Theorem compose_message_is_html (MAX_ITEMS : Z) (meta : parts)
        (data : parse_result) (s : str) :
  compose_message MAX_ITEMS meta data = Ok s -> telegram_html s = true.
Proof. exact (compose_message_read MAX_ITEMS meta data s). Qed.

(** The reader refuses a text with a character of HTML that is not
    escaped, a tag that is not closed and tags that cross. *)
Lemma telegram_html_refuses :
  telegram_html (u "a < b") = false
  /\ telegram_html (u "a & b") = false
  /\ telegram_html (u "<b>bold") = false
  /\ telegram_html (u "<b><i>x</b></i>") = false
  /\ telegram_html (u "<b>a &lt; b</b> &amp; <i>c</i>") = true.
Proof. vm_compute. repeat split. Qed.

Lemma compose_message_is_html_witness :
  exists s, compose_message 10 mail0 data_markup = Ok s
            /\ telegram_html s = true.
Proof.
  destruct (compose_message 10 mail0 data_markup) as [s|] eqn:E.
  - exists s. split; [reflexivity|].
    apply (compose_message_is_html 10 mail0 data_markup s E).
  - vm_compute in E. discriminate.
Defined.

(** ** The message as a whole *)

Lemma upto_nothing {A : Type} (k : Z) (l : list A) :
  k = 0 \/ l = [] \/ (k < 0 /\ Z.of_nat (List.length l) <= - k) ->
  upto k l = [].
Proof.
  unfold upto. intros [->|[->|[Hk Hl]]].
  - reflexivity.
  - destruct (k <? 0); apply firstn_nil.
  - destruct (Z.ltb_spec k 0); [|lia].
    replace (List.length l - Z.to_nat (- k))%nat with 0%nat by lia. reflexivity.
Qed.

(** X20. When the list of projects cut at [MAX_ITEMS] is empty, the
    message is the header and the notice that the mail could not be
    parsed: so it is when the parser found nothing, but also, whatever the
    parser found, when [MAX_ITEMS] is 0 or is negative and the parser found
    no more than [-MAX_ITEMS] projects. *)
Theorem nothing_to_show_gives_notice (MAX_ITEMS : Z) (meta : parts)
        (data : parse_result) :
  MAX_ITEMS = 0 \/ projects data = []
  \/ (MAX_ITEMS < 0 /\ Z.of_nat (List.length (projects data)) <= - MAX_ITEMS) ->
  compose_message MAX_ITEMS meta data
  = Ok (header_of meta data ++ 10 :: 10 :: NOTICE).
Proof.
  intros H. unfold compose_message.
  rewrite (upto_nothing MAX_ITEMS (projects data) H).
  unfold projects_lines, bind.
  change (([header_of meta data; []] ++ []) ++ [NOTICE])
    with [header_of meta data; []; NOTICE].
  rewrite join_three.
  change (header_of meta data ++ [10] ++ [] ++ [10] ++ NOTICE)
    with (header_of meta data ++ 10 :: 10 :: NOTICE).
  destruct (header_of_head meta data) as [r Hh].
  rewrite (strip_framed (header_of meta data) NOTICE r (removelast NOTICE)
             128236 46 Hh notice_last eq_refl eq_refl).
  reflexivity.
Qed.

Lemma nothing_to_show_witness :
  compose_message 0 mail0 data_markup
  = Ok (header_of mail0 data_markup ++ 10 :: 10 :: NOTICE).
Proof.
  apply (nothing_to_show_gives_notice 0 mail0 data_markup). left. reflexivity.
Defined.

Section Priced.

Context {U : UnicodeData}.

Lemma scan_step_price (lines : list str) (i : nat) (p : project) :
  fst (scan_step lines i) = Some p -> exists pr, price p = Some pr.
Proof.
  unfold scan_step. destruct (boilerplate (nth i lines [])); [discriminate|].
  destruct (truthy_opt (category_of lines i)); cbn [andb]; [|discriminate].
  destruct (w_price (window_of lines i)) as [pr|] eqn:E; cbn [truthy_opt];
    [|discriminate].
  destruct (truthy pr); [|discriminate].
  cbn [fst]. intros [= <-]. cbn [price]. eauto.
Qed.

Lemma scan_lines_price (lines : list str) :
  forall fuel i acc,
  Forall (fun p => exists pr, price p = Some pr) acc ->
  Forall (fun p => exists pr, price p = Some pr) (scan_lines fuel lines i acc).
Proof.
  induction fuel as [|fuel IH]; intros i acc H; cbn [scan_lines]; [exact H|].
  destruct (i <? List.length lines)%nat; [|exact H].
  pose proof (scan_step_price lines i) as S.
  destruct (scan_step lines i) as [[p|] i']; cbn [fst] in S; apply IH; [|exact H].
  apply Forall_app. split; [exact H|]. constructor; [auto|constructor].
Qed.

Lemma py_int_raises (s : str) (e : exn) : py_int s = Raise e -> e = ValueError.
Proof.
  unfold py_int. destruct (int_digits _ 0 false).
  - destruct (MAX_STR_DIGITS <? _); [|discriminate]. intros [= <-]. reflexivity.
  - intros [= <-]. reflexivity.
Qed.

Lemma parse_from_text_cases (text : str) :
  parse_from_text text = Raise ValueError
  \/ exists data, parse_from_text text = Ok data
                  /\ Forall (fun p => exists pr, price p = Some pr) (projects data).
Proof.
  unfold parse_from_text, parse_available, parse_total.
  destruct (re_search ignorecase available_re text) as [g|].
  - destruct (py_int (group g 1)) as [n|e] eqn:E; cbn [bind].
    2:{ left. rewrite (py_int_raises _ e E). reflexivity. }
    destruct (re_search ignorecase_dotall total_re text) as [g2|]; cbn [bind].
    + destruct (py_int (replace_char 32 [] (group g2 2))) as [n2|e] eqn:E2;
        cbn [bind].
      * right. eexists. split; [reflexivity|]. cbn [projects].
        apply scan_lines_price. constructor.
      * left. rewrite (py_int_raises _ e E2). reflexivity.
    + right. eexists. split; [reflexivity|]. cbn [projects].
      apply scan_lines_price. constructor.
  - cbn [bind].
    destruct (re_search ignorecase_dotall total_re text) as [g2|]; cbn [bind].
    + destruct (py_int (replace_char 32 [] (group g2 2))) as [n2|e] eqn:E2;
        cbn [bind].
      * right. eexists. split; [reflexivity|]. cbn [projects].
        apply scan_lines_price. constructor.
      * left. rewrite (py_int_raises _ e E2). reflexivity.
    + right. eexists. split; [reflexivity|]. cbn [projects].
      apply scan_lines_price. constructor.
Qed.

Lemma attach_urls_price (links : list str) (ps : list project) :
  Forall (fun p => exists pr, price p = Some pr) ps ->
  forall idx, Forall (fun p => exists pr, price p = Some pr) (attach_urls links idx ps).
Proof.
  induction 1 as [|p ps Hp _ IH]; intros idx; cbn [attach_urls]; constructor.
  - destruct (idx <? List.length links)%nat; exact Hp.
  - apply IH.
Qed.

Lemma parse_kwork_email_cases (get_text : str -> str)
      (anchors_href : str -> list str) (ps : parts) :
  parse_kwork_email get_text anchors_href ps = Raise ValueError
  \/ exists data, parse_kwork_email get_text anchors_href ps = Ok data
                  /\ Forall (fun p => exists pr, price p = Some pr) (projects data).
Proof.
  unfold parse_kwork_email. destruct (truthy (p_html ps)).
  - destruct (parse_from_text_cases (get_text (p_html ps))) as [->|(data & -> & H)];
      [left; reflexivity|].
    right. cbn [bind].
    destruct (extract_project_links_ordered anchors_href (p_html ps)) as [|l ls];
      [eauto|].
    destruct (projects data) as [|p rest] eqn:E; [rewrite <- E in H; eauto|].
    eexists. split; [reflexivity|]. cbn [with_projects projects].
    apply attach_urls_price. exact H.
  - apply parse_from_text_cases.
Qed.

End Priced.

Lemma firstn_Forall {A : Type} (P : A -> Prop) (l : list A) :
  Forall P l -> forall n, Forall P (firstn n l).
Proof.
  induction 1 as [|x l Hx _ IH]; intros [|n]; cbn [firstn]; constructor;
    [exact Hx|apply IH].
Qed.

Lemma upto_Forall {A : Type} (P : A -> Prop) (k : Z) (l : list A) :
  Forall P l -> Forall P (upto k l).
Proof.
  intros H. unfold upto. destruct (k <? 0); apply firstn_Forall; exact H.
Qed.

Lemma projects_lines_priced (ps : list project) :
  Forall (fun p => exists pr, price p = Some pr) ps ->
  exists l, projects_lines ps = Ok l.
Proof.
  induction 1 as [|p ps [pr Hp] _ [l IH]]; cbn [projects_lines]; [eauto|].
  unfold project_lines. rewrite Hp, IH. cbn [bind]. eauto.
Qed.

(** X21. From a raw mail to the text that is sent: an exception of
    [extract_parts] is passed on as it is; once [extract_parts] has
    returned the parts, and BeautifulSoup its readings of the HTML part,
    nothing raises but the parser, and the parser raises nothing but
    [ValueError]: whenever [parse_kwork_email] returns, [compose_message]
    returns a text, and that text is HTML that Telegram reads. *)
Theorem render_mail_after_extract {U : UnicodeData}
        (extract : bytes -> result parts) (get_text : str -> str)
        (anchors_href : str -> list str) (MAX_ITEMS : Z) (raw : bytes) :
  (forall e, extract raw = Raise e ->
             render_mail extract get_text anchors_href MAX_ITEMS raw = Raise e)
  /\ (forall mail,
         extract raw = Ok mail ->
         (parse_kwork_email get_text anchors_href mail = Raise ValueError
          /\ render_mail extract get_text anchors_href MAX_ITEMS raw
             = Raise ValueError)
         \/ (exists data s,
               parse_kwork_email get_text anchors_href mail = Ok data
               /\ compose_message MAX_ITEMS mail data = Ok s
               /\ render_mail extract get_text anchors_href MAX_ITEMS raw = Ok s
               /\ telegram_html s = true)).
Proof.
  unfold render_mail. split.
  - intros e ->. reflexivity.
  - intros mail ->. cbn [bind].
    destruct (parse_kwork_email_cases get_text anchors_href mail)
      as [E|(data & E & H)]; rewrite E; cbn [bind].
    + left. split; reflexivity.
    + right.
      destruct (projects_lines_priced _ (upto_Forall _ MAX_ITEMS _ H)) as [l Hl].
      assert (C : exists s, compose_message MAX_ITEMS mail data = Ok s).
      { unfold compose_message. rewrite Hl. cbn [bind]. eauto. }
      destruct C as [s C]. exists data, s. split; [reflexivity|].
      split; [exact C|]. split; [exact C|].
      apply (compose_message_read MAX_ITEMS mail data s C).
Qed.

Lemma render_mail_after_extract_witness :
  (render_mail (fun _ => Raise LookupError) text_of_mail0 anchors_of_mail0 10 [1]
   = Raise LookupError)
  /\ exists s,
       render_mail (fun _ => Ok mail0) text_of_mail0 anchors_of_mail0 10 [1] = Ok s
       /\ telegram_html s = true.
Proof.
  split.
  - exact (proj1 (render_mail_after_extract (fun _ => Raise LookupError)
                    text_of_mail0 anchors_of_mail0 10 [1]) LookupError eq_refl).
  - destruct (proj2 (render_mail_after_extract (fun _ => Ok mail0)
                       text_of_mail0 anchors_of_mail0 10 [1]) mail0 eq_refl)
      as [[E _]|(data & s & _ & _ & R & T)].
    + vm_compute in E. discriminate E.
    + exists s. split; assumption.
Defined.

Lemma attach_urls_without (links : list str) (ps : list project) :
  forall idx, map without_url (attach_urls links idx ps) = map without_url ps.
Proof.
  induction ps as [|p ps IH]; intros idx; cbn [attach_urls map]; [reflexivity|].
  rewrite IH. destruct (idx <? List.length links)%nat; reflexivity.
Qed.

(** X25. The hyperlinks only add urls: what [parse_kwork_email] returns
    for a mail with an HTML part is what [parse_from_text] returns for the
    text of that part, with the same summary numbers and the same records
    in the same order, but for the urls; the plain part is not read. *)
Theorem links_only_add_urls {U : UnicodeData} (get_text : str -> str)
        (anchors_href : str -> list str) (ps : parts) (data : parse_result) :
  truthy (p_html ps) = true ->
  parse_kwork_email get_text anchors_href ps = Ok data ->
  exists data0,
    parse_from_text (get_text (p_html ps)) = Ok data0
    /\ available data = available data0 /\ total data = total data0
    /\ timeframe data = timeframe data0
    /\ map without_url (projects data) = map without_url (projects data0).
Proof.
  intros Hh. unfold parse_kwork_email. rewrite Hh.
  destruct (parse_from_text (get_text (p_html ps))) as [data0|]; cbn [bind];
    [|discriminate].
  intros H. exists data0. split; [reflexivity|].
  destruct (extract_project_links_ordered anchors_href (p_html ps)) as [|l ls];
    [injection H as <-; repeat split|].
  destruct (projects data0) as [|p rest] eqn:E;
    [injection H as <-; rewrite E; repeat split|].
  injection H as <-. cbn [with_projects available total timeframe projects].
  repeat split.
  change (map without_url (attach_urls (l :: ls) 0 (p :: rest))
          = map without_url (p :: rest)).
  apply attach_urls_without.
Qed.

Lemma links_only_add_urls_witness :
  exists data0,
    parse_from_text (text_of_mail0 (p_html mail0)) = Ok data0
    /\ exists data,
         parse_kwork_email text_of_mail0 anchors_of_mail0 mail0 = Ok data
         /\ map without_url (projects data) = map without_url (projects data0).
Proof.
  destruct (parse_kwork_email text_of_mail0 anchors_of_mail0 mail0) as [data|] eqn:E.
  - destruct (links_only_add_urls text_of_mail0 anchors_of_mail0 mail0 data
                eq_refl E) as (data0 & E0 & _ & _ & _ & P).
    exists data0. split; [exact E0|]. exists data. split; [reflexivity|exact P].
  - vm_compute in E. discriminate.
Defined.

(** ** The records of [parse_from_text] *)

Lemma split_aux_tokens (s : str) :
  forall cur,
  Forall (fun c => isspace c = false) cur ->
  Forall (Forall (fun c => isspace c = false)) (split_aux s cur).
Proof.
  induction s as [|c s IH]; intros cur Hcur; cbn [split_aux].
  - destruct cur; constructor; [|constructor]. apply Forall_rev. exact Hcur.
  - destruct (isspace c) eqn:Hc.
    + destruct cur as [|x cur]; [apply IH; constructor|].
      constructor; [apply Forall_rev; exact Hcur|apply IH; constructor].
    + apply IH. constructor; assumption.
Qed.

Lemma split_tokens (s t : str) :
  In t (split s) -> Forall (fun c => isspace c = false) t.
Proof.
  intros H. pose proof (split_aux_tokens s [] (Forall_nil _)) as A.
  rewrite Forall_forall in A. apply A, H.
Qed.

Section Handles.

Context {U : UnicodeData}.

Lemma handle_set_char (c : Z) : cset_mem no_flags handle_set c = handle_char c.
Proof.
  unfold handle_set, letter_set, handle_char. cbn [cset_mem].
  rewrite !orb_assoc. reflexivity.
Qed.

Lemma letter_is_handle_char (c : Z) :
  cset_mem no_flags letter_set c = true -> handle_char c = true.
Proof.
  unfold letter_set, handle_char. cbn [cset_mem]. intros ->. reflexivity.
Qed.

(** The end of a token, for [$]: a token holds no line feed. *)
Lemma eol_of_token (pre s' : str) (g : list str) (o : option (list str)) :
  Forall (fun c => isspace c = false) (pre ++ s') ->
  match s' with
  | [] => o
  | [c] => if c =? 10 then o else None
  | _ => None
  end = Some g -> s' = [].
Proof.
  intros Ht. destruct s' as [|c [|c' r]]; [reflexivity| |discriminate].
  destruct (Z.eqb_spec c 10) as [->|]; [|discriminate].
  apply Forall_app in Ht. destruct Ht as [_ Ht].
  apply Forall_inv in Ht. discriminate.
Qed.

Lemma prefixed_buyer_re_handle (cand : str) :
  Forall (fun c => isspace c = false) cand ->
  is_match (re_match no_flags prefixed_buyer_re cand) = true ->
  handle cand = true.
Proof.
  intros Ht. unfold re_match, prefixed_buyer_re. cbn [cat rmatch prev rest caps].
  intros M.
  match type of M with
  | is_match ?m = true => destruct m as [g|] eqn:R; [clear M|discriminate]
  end.
  apply rep_match_run in R. destruct R as (pre & s' & pv' & -> & Hpre & Hn & R).
  cbn [rest caps] in R. pose proof (eol_of_token pre s' g _ Ht R) as ->.
  rewrite app_nil_r. unfold handle. apply andb_true_iff. split.
  - apply Nat.leb_le. lia.
  - apply forallb_forall. rewrite Forall_forall in Hpre. intros c Hc.
    rewrite <- handle_set_char. apply Hpre, Hc.
Qed.

Lemma bare_buyer_re_handle (t0 : str) :
  Forall (fun c => isspace c = false) t0 ->
  is_match (re_match no_flags bare_buyer_re t0) = true ->
  handle t0 = true.
Proof.
  intros Ht. unfold re_match, bare_buyer_re. cbn [cat rmatch prev rest caps].
  destruct t0 as [|c0 t0]; [discriminate|].
  destruct (cset_mem no_flags letter_set c0) eqn:L; [|discriminate].
  intros M.
  match type of M with
  | is_match ?m = true => destruct m as [g|] eqn:R; [clear M|discriminate]
  end.
  apply rep_match_run in R. destruct R as (pre & s' & pv' & -> & Hpre & Hn & R).
  apply Forall_inv_tail in Ht.
  cbn [rest caps] in R. pose proof (eol_of_token pre s' g _ Ht R) as ->.
  rewrite app_nil_r. unfold handle. apply andb_true_iff. split.
  - apply Nat.leb_le. cbn [List.length]. lia.
  - cbn [forallb]. rewrite (letter_is_handle_char c0 L). cbn [andb].
    apply forallb_forall. rewrite Forall_forall in Hpre. intros c Hc.
    rewrite <- handle_set_char. apply Hpre, Hc.
Qed.

Lemma prefixed_buyer_ok (b : option str) (line llow : str) :
  buyer_ok b -> buyer_ok (prefixed_buyer b (split line) llow).
Proof.
  intros Hb. unfold prefixed_buyer. destruct b as [x|]; [exact Hb|].
  destruct (split line) as [|t0 [|cand ts]] eqn:E; try exact Hb.
  destruct (isalpha t0 && (List.length t0 =? 1)%nat); [|exact Hb].
  destruct (negb (isdigit cand)
            && negb (is_match (re_search no_flags proekt_re llow))); [|exact Hb].
  destruct (is_match (re_match no_flags prefixed_buyer_re cand)) eqn:M; [|exact Hb].
  intros x [= <-]. apply prefixed_buyer_re_handle; [|exact M].
  apply (split_tokens line). rewrite E. right. left. reflexivity.
Qed.

Lemma bare_buyer_ok (b : option str) (line llow : str) :
  buyer_ok b -> buyer_ok (bare_buyer b (split line) llow).
Proof.
  intros Hb. unfold bare_buyer. destruct b as [x|]; [exact Hb|].
  destruct (split line) as [|t0 ts] eqn:E; [exact Hb|].
  destruct (is_match (re_match no_flags bare_buyer_re t0)) eqn:M; cbn [andb];
    [|exact Hb].
  destruct (negb (is_match (re_search no_flags proekt_re llow))); [|exact Hb].
  intros x [= <-]. apply bare_buyer_re_handle; [|exact M].
  apply (split_tokens line). rewrite E. left. reflexivity.
Qed.

Lemma scan_window_fields (lines : list str) (limit : nat) :
  (limit <= List.length lines)%nat ->
  forall fuel j buyer hired,
  buyer_ok buyer -> hired_ok lines hired ->
  buyer_ok (w_buyer (scan_window fuel lines limit j buyer hired))
  /\ hired_ok lines (w_hired (scan_window fuel lines limit j buyer hired)).
Proof.
  intros Hlimit. induction fuel as [|fuel IH]; intros j buyer hired Hb Hh;
    cbn [scan_window]; [split; assumption|].
  cbv zeta. destruct (Nat.ltb_spec j limit) as [Hlt|Hge]; [|split; assumption].
  assert (Hb' : buyer_ok
                  (bare_buyer
                     (prefixed_buyer buyer (split (nth j lines [])) (lower (nth j lines [])))
                     (split (nth j lines [])) (lower (nth j lines [])))).
  { apply bare_buyer_ok, prefixed_buyer_ok, Hb. }
  assert (Hh' : hired_ok lines
                  (if contains (u "%") (nth j lines [])
                      && contains (u "нанят") (lower (nth j lines []))
                   then Some (nth j lines []) else hired)).
  { destruct (contains (u "%") (nth j lines [])) eqn:C; cbn [andb]; [|exact Hh].
    destruct (contains (u "нанят") (lower (nth j lines []))); [|exact Hh].
    intros x [= <-]. split; [apply nth_In; lia|exact C]. }
  destruct (price_line (nth j lines [])); [split; assumption|].
  apply IH; assumption.
Qed.

Lemma scan_step_record (lines : list str) (i : nat) (p : project) :
  Forall stripped_line lines -> (i < List.length lines)%nat ->
  fst (scan_step lines i) = Some p -> record_ok lines p.
Proof.
  intros Hs Hi Hp.
  pose proof (window_of_spec lines i) as W. cbv zeta in W.
  assert (F : buyer_ok (w_buyer (window_of lines i))
              /\ hired_ok lines (w_hired (window_of lines i))).
  { unfold window_of. apply scan_window_fields; [lia| |]; intros x; discriminate. }
  destruct F as [Fb Fh].
  unfold scan_step in Hp.
  destruct (boilerplate (nth i lines [])) eqn:B; [discriminate|]. cbn [fst] in Hp.
  destruct (truthy_opt (category_of lines i) && truthy_opt (w_price (window_of lines i)))
    eqn:E; [|discriminate].
  injection Hp as <-. unfold record_ok. cbn [title category price buyer hired url].
  apply andb_true_iff in E. destruct E as [E1 E2].
  split; [split; [apply nth_In; exact Hi|exact B]|]. split.
  { unfold category_of in *.
    destruct (Nat.ltb_spec (i + 1) (List.length lines)) as [Hlt|]; [|discriminate].
    cbn [andb] in *. unfold cat_re in *. rewrite search_literal in *.
    destruct (contains (u ">") (nth (i + 1) lines [])) eqn:C; [|discriminate].
    exists (nth (i + 1) lines []). split; [reflexivity|].
    split; [apply nth_In; exact Hlt|exact C]. }
  split.
  { destruct (w_price (window_of lines i)) as [pr|]; [|discriminate].
    destruct W as (A & P & D & _). subst pr.
    exists (nth (w_j (window_of lines i)) lines []).
    split; [apply nth_In; lia|]. split; [exact P|]. split; [reflexivity|exact E2]. }
  split; [exact Fb|]. split; [exact Fh|reflexivity].
Qed.

Lemma scan_lines_records (lines : list str) :
  Forall stripped_line lines ->
  forall fuel i acc,
  Forall (record_ok lines) acc ->
  Forall (record_ok lines) (scan_lines fuel lines i acc).
Proof.
  intros Hs. induction fuel as [|fuel IH]; intros i acc H; cbn [scan_lines];
    [exact H|].
  destruct (Nat.ltb_spec i (List.length lines)) as [Hi|]; [|exact H].
  pose proof (scan_step_record lines i) as S.
  destruct (scan_step lines i) as [[p|] i']; cbn [fst] in S; apply IH; [|exact H].
  apply Forall_app. split; [exact H|]. constructor; [auto|constructor].
Qed.

End Handles.

(** X22. Every record of [parse_from_text] is made of lines of the text:
    its title is a line that is not boilerplate, its category is a line
    that holds [>], its price is a price line with the letter rewritten to
    the rouble sign and is not empty, its hire note, if any, is a line that
    holds [%], and its buyer, if any, is a handle of at least three ASCII
    letters, digits, underscores, dots or hyphens. No record has a url
    yet. *)
Theorem parse_from_text_records {U : UnicodeData} (text : str)
        (data : parse_result) :
  parse_from_text text = Ok data ->
  Forall (record_ok (lines_of text)) (projects data).
Proof.
  unfold parse_from_text.
  destruct (parse_available text); cbn [bind]; [|discriminate].
  destruct (parse_total text); cbn [bind]; [|discriminate].
  intros [= <-]. cbn [projects].
  apply scan_lines_records; [apply lines_of_stripped|constructor].
Qed.

Lemma parse_from_text_records_witness :
  exists data, parse_from_text listing_text = Ok data
               /\ Forall (record_ok (lines_of listing_text)) (projects data).
Proof.
  destruct (parse_from_text listing_text) as [data|] eqn:E.
  - exists data. split; [reflexivity|].
    apply (parse_from_text_records listing_text data E).
  - vm_compute in E. discriminate.
Defined.

(** ** The summary line *)

Section Summary.

Context {U : UnicodeData}.

(** A pattern without a group leaves the groups as they are. *)
Lemma rmatch_group_free (fl : flags) (r : regex) :
  group_free r = true ->
  forall st k g,
  rmatch fl r st k = Some g ->
  exists st', caps st' = caps st /\ k st' = Some g.
Proof.
  induction r as [p|cs|cs min greedy| | | |r IH|r1 IH1 r2 IH2|r1 IH1 r2 IH2];
    cbn [group_free]; intros F st k g; cbn [rmatch].
  - destruct (lit_match fl p (prev st) (rest st)) as [[pv s]|]; [|discriminate].
    intros K. eexists. split; [|exact K]. reflexivity.
  - destruct (rest st) as [|c s]; [discriminate|].
    destruct (cset_mem fl cs c); [|discriminate].
    intros K. eexists. split; [|exact K]. reflexivity.
  - intros R. apply rep_match_run in R.
    destruct R as (pre & s' & pv' & _ & _ & _ & K).
    eexists. split; [|exact K]. reflexivity.
  - destruct (prev st); [discriminate|]. intros K. exists st. auto.
  - destruct (rest st) as [|c [|c' s]]; [intros K; exists st; auto| |discriminate].
    destruct (c =? 10); [intros K; exists st; auto|discriminate].
  - destruct (xorb (isword_opt (prev st)) (isword_opt (hd_error (rest st))));
      [intros K; exists st; auto|discriminate].
  - discriminate.
  - apply andb_true_iff in F. destruct F as [F1 F2]. intros R.
    destruct (IH1 F1 st _ g R) as (st1 & C1 & R1).
    destruct (IH2 F2 st1 k g R1) as (st2 & C2 & R2).
    exists st2. split; [congruence|exact R2].
  - apply andb_true_iff in F. destruct F as [F1 F2].
    destruct (rmatch fl r1 st k) as [g1|] eqn:R1.
    + intros [= <-]. apply (IH1 F1 st k g1 R1).
    + apply (IH2 F2 st k g).
Qed.

(** A group that is a repetition of one set, followed by a pattern
    without a group: the group holds what the repetition has read. *)
Lemma group_of_repetition (fl : flags) (cs : cset) (min : nat) (greedy : bool)
      (r : regex) (st : mstate) (g : list str) :
  group_free r = true ->
  rmatch fl (Seq (Group (Rep cs min greedy)) r) st (fun st => Some (caps st)) = Some g ->
  exists pre, g = caps st ++ [pre]
              /\ Forall (fun c => cset_mem fl cs c = true) pre
              /\ (min <= List.length pre)%nat
              /\ (List.length pre <= List.length (rest st))%nat.
Proof.
  intros F. cbn [rmatch]. intros R. apply rep_match_run in R.
  destruct R as (pre & s' & pv' & E & Hpre & Hn & K).
  cbn [prev rest caps] in K.
  apply (rmatch_group_free fl r F) in K. destruct K as (st' & C & K).
  injection K as <-. exists pre.
  split; [|split; [exact Hpre|split; [lia|rewrite E, length_app; lia]]].
  rewrite C. cbn [caps]. rewrite E, length_app.
  replace (List.length pre + List.length s' - List.length s')%nat
    with (List.length pre) by lia.
  rewrite firstn_app, firstn_all, Nat.sub_diag. cbn [firstn].
  rewrite app_nil_r. reflexivity.
Qed.

Lemma search_from_match (fl : flags) (r : regex) (s : str) :
  forall pv g,
  search_from fl r pv s = Some g ->
  exists pv' s',
    (List.length s' <= List.length s)%nat
    /\ rmatch fl r {| prev := pv'; rest := s'; caps := [] |}
              (fun st => Some (caps st))
       = Some g.
Proof.
  induction s as [|c s IH]; intros pv g; cbn [search_from].
  - destruct (rmatch fl r {| prev := pv; rest := []; caps := [] |} _) eqn:R;
      [|discriminate].
    intros [= <-]. eauto.
  - destruct (rmatch fl r {| prev := pv; rest := c :: s; caps := [] |} _) eqn:R.
    + intros [= <-]. eauto.
    + intros H. destruct (IH _ _ H) as (pv' & s' & L & M).
      exists pv', s'. split; [cbn [List.length]; lia|exact M].
Qed.

(** What a literal leaves is no longer than what it was given. *)
Lemma lit_match_shorter (fl : flags) (p : str) :
  forall pv s pv' s',
  lit_match fl p pv s = Some (pv', s') ->
  (List.length s' <= List.length s)%nat.
Proof.
  induction p as [|a p IH]; intros pv s pv' s'; cbn [lit_match].
  - intros [= _ <-]. lia.
  - destruct s as [|c s]; [discriminate|].
    destruct (lit_eq fl a c); [|discriminate].
    intros H. apply IH in H. cbn [List.length]. lia.
Qed.

(** The group of the first summary pattern holds decimal digits of the
    text, one at least. *)
Lemma available_group (text : str) (g : list str) :
  re_search ignorecase available_re text = Some g ->
  exists ds, g = [ds] /\ ds <> [] /\ Forall (fun c => is_digit c = true) ds
             /\ (List.length ds <= List.length text)%nat.
Proof.
  unfold re_search. intros H. apply search_from_match in H.
  destruct H as (pv & s & Ls & H).
  change available_re
    with (Seq (Lit (u "+"))
              (Seq (Group (Rep CDigit 1 true))
                   (cat [plus CSpace; Lit (u "новых"); plus CSpace;
                         Lit (u "подходящих"); plus CSpace; Lit (u "проект")]))) in H.
  cbn [rmatch] in H.
  destruct (lit_match ignorecase (u "+") _ _) as [[pv1 s1]|] eqn:L; [|discriminate].
  apply lit_match_shorter in L. cbn [prev rest] in L.
  apply group_of_repetition in H; [|reflexivity].
  destruct H as (pre & -> & Hpre & Hn & Hl). cbn [caps app rest] in *.
  exists pre. split; [reflexivity|]. split; [|split].
  - destruct pre; [cbn in Hn; lia|discriminate].
  - exact Hpre.
  - lia.
Qed.

End Summary.

Lemma int_digits_nonneg {U : UnicodeData} (ds : str) :
  digits_plain U ->
  Forall (fun c => is_digit c = true) ds ->
  forall acc, 0 <= acc -> exists n, int_digits ds acc true = Some n /\ 0 <= n.
Proof.
  intros [_ T]. induction 1 as [|c ds Hc _ IH]; intros acc Ha; cbn [int_digits].
  - eauto.
  - unfold is_digit in Hc. destruct (decimal_value c) as [d|] eqn:E; [|discriminate].
    destruct (T c d E) as (Hd & _). apply IH. lia.
Qed.

(** X23. The first summary pattern never makes the parser raise, and the
    number of suitable projects it reads is not negative: the group of the
    pattern holds decimal digits only, which [int] reads. (The bound on the
    text is the one that [int] puts on the digits of a number since Python
    3.11.) *)
Theorem parse_available_total {U : UnicodeData} (text : str) :
  digits_plain U ->
  (List.length text <= 4300)%nat ->
  exists r, parse_available text = Ok r /\ forall n, r = Some n -> 0 <= n.
Proof.
  intros tables Hlen. unfold parse_available.
  destruct (re_search ignorecase available_re text) as [g|] eqn:R.
  - destruct (available_group text g R) as (ds & -> & Hne & Hds & Hshort).
    unfold group. cbn [Nat.sub nth].
    assert (Hs : int_strip ds = ds).
    { apply (signed_digits_ends tables [] ds); auto. }
    unfold py_int. rewrite Hs.
    rewrite within_digit_limit.
    2:{ destruct ds as [|c ds]; [contradiction|].
        pose proof (Forall_inv Hds) as Hc. cbn beta in Hc. unfold is_digit in Hc.
        destruct (decimal_value c) as [d|] eqn:E; [|discriminate].
        destruct tables as [T0 T]. destruct (T c d E) as (Hd & _ & H45 & H43).
        replace (c =? 45) with false by (symmetry; apply Z.eqb_neq; exact H45).
        replace (c =? 43) with false by (symmetry; apply Z.eqb_neq; exact H43).
        cbn [snd]. lia. }
    destruct ds as [|c ds]; [contradiction|].
    pose proof (Forall_inv Hds) as Hc. cbn beta in Hc. unfold is_digit in Hc.
    destruct (decimal_value c) as [d|] eqn:E; [|discriminate].
    destruct tables as [T0 T]. destruct (T c d E) as (Hd & _ & H45 & H43).
    replace (c =? 45) with false by (symmetry; apply Z.eqb_neq; exact H45).
    replace (c =? 43) with false by (symmetry; apply Z.eqb_neq; exact H43).
    cbn [fst snd int_digits]. rewrite E.
    destruct (int_digits_nonneg ds (conj T0 T) (Forall_inv_tail Hds) (0 * 10 + d)
                ltac:(lia)) as (n & -> & Hn).
    cbn [bind]. exists (Some n). split; [f_equal; f_equal; lia|].
    intros m [= <-]. lia.
  - exists None. split; [reflexivity|]. discriminate.
Qed.

Lemma parse_available_total_witness :
  exists r, parse_available listing_text = Ok r /\ forall n, r = Some n -> 0 <= n.
Proof.
  apply (parse_available_total listing_text basic_tables_plain).
  apply Nat.leb_le. reflexivity.
Defined.
